(** * add-language-examples.py: a shallow embedding and its verified properties

    The program rewrites markdown documents: fenced console and esql blocks
    become tab-sets whose tabs include per-language snippet files, and a
    regenerate mode rebuilds the snippet files from the console snippets.

    Texts are lists of characters.  A character is a code point below 256
    (Latin-1), held in an [ascii]; the character tables below are those of
    Python 3 on that range.  The file system is the one snippet directory of
    the document (a finite map from file names to contents) and the document
    itself.  The external converter process is a function of its command line
    and standard input. *)

From Stdlib Require Import Ascii String List Arith ZArith QArith Lia Bool Sorted.
From stdpp Require Import gmap strings list.
Import ListNotations.

Local Open Scope nat_scope.
Local Open Scope list_scope.

(** ** Characters and texts *)

Definition str := list ascii.

(** A literal text. *)
Definition txt (s : string) : str := list_ascii_of_string s.
Arguments txt : simpl never.

Definition nl : ascii := ascii_of_nat 10.
Definition dq : ascii := ascii_of_nat 34.

Definition code (c : ascii) : nat := nat_of_ascii c.

Definition between (lo hi : nat) (c : ascii) : bool :=
  (lo <=? code c) && (code c <=? hi).

Definition ascii_eqb (a b : ascii) : bool := Ascii.eqb a b.

(** str.isspace, and the class written backslash-s in a pattern. *)
Definition is_space (c : ascii) : bool :=
  between 9 13 c || between 28 32 c || (code c =? 133) || (code c =? 160).

(** The class written backslash-d. *)
Definition is_digit (c : ascii) : bool := between 48 57 c.

(** The class written backslash-w: alphanumeric code points and the underscore. *)
Definition is_word (c : ascii) : bool :=
  is_digit c || between 65 90 c || (code c =? 95) || between 97 122 c
  || (code c =? 170) || between 178 179 c || (code c =? 181)
  || between 185 186 c || between 188 190 c || between 192 214 c
  || between 216 246 c || between 248 255 c.

(** The characters at which str.splitlines breaks a line. *)
Definition is_linebreak (c : ascii) : bool :=
  between 10 13 c || between 28 30 c || (code c =? 133).

Definition lower_char (c : ascii) : ascii :=
  if between 65 90 c || between 192 214 c || between 216 222 c
  then ascii_of_nat (code c + 32) else c.

(** Upper case of one character.  Three code points (181, 223, 255) have an
    upper case outside the modelled range or of two characters; they are
    left as they are. *)
Definition upper_char (c : ascii) : ascii :=
  if between 97 122 c || between 224 246 c || between 248 254 c
  then ascii_of_nat (code c - 32) else c.

Definition lower (s : str) : str := map lower_char s.

(** str.capitalize: first character upper case, the others lower case. *)
Definition capitalize (s : str) : str :=
  match s with
  | [] => []
  | c :: s' => upper_char c :: lower s'
  end.

Fixpoint str_eqb (a b : str) : bool :=
  match a, b with
  | [], [] => true
  | x :: a', y :: b' => ascii_eqb x y && str_eqb a' b'
  | _, _ => false
  end.

Fixpoint startswith (s p : str) {struct p} : bool :=
  match p with
  | [] => true
  | x :: p' =>
      match s with
      | [] => false
      | y :: s' => ascii_eqb x y && startswith s' p'
      end
  end.

Definition endswith (s p : str) : bool := startswith (rev s) (rev p).

(** The test [p in s] on strings. *)
Fixpoint contains (s p : str) : bool :=
  startswith s p || match s with [] => false | _ :: s' => contains s' p end.

Fixpoint lstrip (s : str) : str :=
  match s with
  | c :: s' => if is_space c then lstrip s' else s
  | [] => []
  end.

Definition rstrip (s : str) : str := rev (lstrip (rev s)).

Definition strip (s : str) : str := rstrip (lstrip s).

(** s.split(sep) for a separator of one character. *)
Fixpoint split_on (sep : ascii) (s : str) : list str :=
  match s with
  | [] => [[]]
  | c :: s' =>
      match split_on sep s' with
      | cur :: more => if ascii_eqb c sep then [] :: cur :: more else (c :: cur) :: more
      | [] => [[c]]
      end
  end.

(** sep.join(parts) for a separator of one character. *)
Fixpoint str_join (sep : ascii) (parts : list str) : str :=
  match parts with
  | [] => []
  | [p] => p
  | p :: more => p ++ sep :: str_join sep more
  end.

(** str.splitlines: lines without their ends; a carriage return followed by
    a line feed is one line end, and a final line end opens no empty line. *)
Fixpoint splitlines_go (cur : str) (s : str) : list str :=
  match s with
  | [] => match cur with [] => [] | _ => [rev cur] end
  | c :: s' =>
      if is_linebreak c then
        match s' with
        | d :: s'' =>
            if (code c =? 13) && (code d =? 10)
            then rev cur :: splitlines_go [] s''
            else rev cur :: splitlines_go [] s'
        | [] => [rev cur]
        end
      else splitlines_go (c :: cur) s'
  end.

Definition splitlines (s : str) : list str := splitlines_go [] s.

(** Decimal digits of a number, as str(n) prints them. *)
Fixpoint digits_go (fuel : nat) (n : N) (acc : str) : str :=
  match fuel with
  | O => acc
  | S f =>
      let d := ascii_of_N (48 + N.modulo n 10) in
      if (n <? 10)%N then d :: acc else digits_go f (N.div n 10) (d :: acc)
  end.

Definition str_of_N (n : N) : str := digits_go (S (N.to_nat (N.log2 n))) n [].

(** int(s) for a text of decimal digits. *)
Definition int_of_digits (s : str) : N :=
  fold_left (fun acc c => (10 * acc + (N_of_ascii c - 48))%N) s 0%N.

(** ** Regular expressions

    The patterns of the program are values of [regex]; [rmatch] is a
    backtracking matcher with the priorities of Python's re module: the left
    alternative first, a greedy repetition tries one more round before it
    goes on, a lazy one goes on before it tries one more round.  A round of a
    repetition has to consume a character; every repeated sub-pattern of the
    program does. *)

Inductive cclass :=
| CChar (c : ascii)
| CCharI (c : ascii)
| CAny
| CDot
| CDigit
| CWord
| CSpace
| COneOf (cs : str)
| CNoneOf (cs : str).

Definition mem_char (c : ascii) (cs : str) : bool := existsb (ascii_eqb c) cs.

Definition cmatch (cl : cclass) (c : ascii) : bool :=
  match cl with
  | CChar x => ascii_eqb x c
  | CCharI x => ascii_eqb (lower_char x) (lower_char c)
  | CAny => true
  | CDot => negb (ascii_eqb c nl)
  | CDigit => is_digit c
  | CWord => is_word c
  | CSpace => is_space c
  | COneOf cs => mem_char c cs
  | CNoneOf cs => negb (mem_char c cs)
  end.

Inductive regex :=
| Eps
| Chr (cl : cclass)
| Seq (r1 r2 : regex)
| Alt (r1 r2 : regex)
| Star (greedy : bool) (r : regex)
| Group (i : nat) (r : regex)
| Bol
| Eol (multiline : bool).

(** A position of the matcher: the index in the text, the text from there
    on, and the groups captured so far (the latest first). *)
Record mstate := MState { m_pos : nat; m_rest : str; m_caps : list (nat * str) }.

Definition cont := mstate -> option mstate.

Definition set_cap (i : nat) (s : str) (st : mstate) : mstate :=
  MState (m_pos st) (m_rest st) ((i, s) :: m_caps st).

Fixpoint star_loop (body : mstate -> cont -> option mstate) (greedy : bool)
    (fuel : nat) (st : mstate) (k : cont) : option mstate :=
  match fuel with
  | O => k st
  | S f =>
      let again (_ : unit) :=
        body st (fun st' =>
          if m_pos st <? m_pos st' then star_loop body greedy f st' k else None) in
      if greedy then
        match again tt with Some r => Some r | None => k st end
      else
        match k st with Some r => Some r | None => again tt end
  end.

Fixpoint rmatch (r : regex) (st : mstate) (k : cont) : option mstate :=
  match r with
  | Eps => k st
  | Chr cl =>
      match m_rest st with
      | c :: rest => if cmatch cl c then k (MState (S (m_pos st)) rest (m_caps st)) else None
      | [] => None
      end
  | Seq r1 r2 => rmatch r1 st (fun st' => rmatch r2 st' k)
  | Alt r1 r2 =>
      match rmatch r1 st k with
      | Some res => Some res
      | None => rmatch r2 st k
      end
  | Star greedy r1 => star_loop (rmatch r1) greedy (S (length (m_rest st))) st k
  | Group i r1 =>
      rmatch r1 st (fun st' =>
        k (set_cap i (take (m_pos st' - m_pos st) (m_rest st)) st'))
  | Bol => if m_pos st =? 0 then k st else None
  | Eol multiline =>
      match m_rest st with
      | [] => k st
      | c :: rest =>
          if ascii_eqb c nl && (multiline || match rest with [] => true | _ => false end)
          then k st else None
      end
  end.

(** Pattern combinators. *)
Definition lit (s : str) : regex := fold_right (fun c r => Seq (Chr (CChar c)) r) Eps s.
Definition lit_i (s : str) : regex := fold_right (fun c r => Seq (Chr (CCharI c)) r) Eps s.
Definition seqs (rs : list regex) : regex := fold_right Seq Eps rs.
Definition alts (r : regex) (rs : list regex) : regex := fold_left Alt rs r.
Definition plus (greedy : bool) (r : regex) : regex := Seq r (Star greedy r).
Definition opt (r : regex) : regex := Alt r Eps.

(** One match: where it starts, its text (group 0) and its groups. *)
Record hit := Hit { h_start : nat; h_text : str; h_caps : list (nat * str) }.

Fixpoint cap_lookup (i : nat) (caps : list (nat * str)) : option str :=
  match caps with
  | [] => None
  | (j, s) :: more => if i =? j then Some s else cap_lookup i more
  end.

(** match.group(i); a group that took no part in the match reads as the
    empty text, as re.findall gives it. *)
Definition group (i : nat) (h : hit) : str :=
  match i with
  | O => h_text h
  | _ => match cap_lookup i (h_caps h) with Some s => s | None => [] end
  end.

Definition match_at (r : regex) (pos : nat) (rest : str) : option hit :=
  match rmatch r (MState pos rest []) Some with
  | Some st' => Some (Hit pos (take (m_pos st' - pos) rest) (m_caps st'))
  | None => None
  end.

(** re.match: a match at the start of the text. *)
Definition re_match (r : regex) (s : str) : option hit := match_at r 0 s.

Fixpoint search_from (r : regex) (pos : nat) (rest : str) : option hit :=
  match match_at r pos rest with
  | Some h => Some h
  | None =>
      match rest with
      | [] => None
      | _ :: rest' => search_from r (S pos) rest'
      end
  end.

(** re.search: the leftmost match. *)
Definition re_search (r : regex) (s : str) : option hit := search_from r 0 s.

(** The scan that re.findall and re.sub share: the text cut into the
    matches, leftmost first and not overlapping, and the characters between
    them.  [skip] counts the characters of the current match still to pass. *)
Inductive seg :=
| Raw (c : ascii)
| Found (h : hit).

Fixpoint segments (r : regex) (pos : nat) (rest : str) (skip : nat) : list seg :=
  match skip with
  | S n =>
      match rest with
      | [] => []
      | _ :: rest' => segments r (S pos) rest' n
      end
  | O =>
      match match_at r pos rest with
      | Some h =>
          Found h ::
          match rest with
          | [] => []
          | c :: rest' =>
              match length (h_text h) with
              | O => Raw c :: segments r (S pos) rest' 0
              | S n => segments r (S pos) rest' n
              end
          end
      | None =>
          match rest with
          | [] => []
          | c :: rest' => Raw c :: segments r (S pos) rest' 0
          end
      end
  end.

Definition scan (r : regex) (s : str) : list seg := segments r 0 s 0.

Definition hits (segs : list seg) : list hit :=
  flat_map (fun sg => match sg with Raw _ => [] | Found h => [h] end) segs.

(** re.findall, as the list of matches. *)
Definition re_finditer (r : regex) (s : str) : list hit := hits (scan r s).

(** A replacement template: literal text and group references. *)
Inductive titem :=
| TLit (s : str)
| TGroup (i : nat).

Definition expand (tpl : list titem) (h : hit) : str :=
  flat_map (fun it => match it with TLit s => s | TGroup i => group i h end) tpl.

(** re.sub with a template. *)
Definition re_sub (r : regex) (tpl : list titem) (s : str) : str :=
  flat_map (fun sg => match sg with Raw c => [c] | Found h => expand tpl h end) (scan r s).

(** ** The program: constants and patterns *)

Definition DEFAULT_LANGUAGES : list str :=
  [txt "curl"; txt "python"; txt "js"; txt "php"; txt "ruby"].

Definition LANGUAGE_MAP : list (str * str) :=
  [ (txt "python", txt "Python");
    (txt "javascript", txt "JavaScript");
    (txt "js", txt "JavaScript");
    (txt "php", txt "PHP");
    (txt "ruby", txt "Ruby");
    (txt "curl", txt "curl") ].

(** dict.get on a table of pairs. *)
Fixpoint table_get (table : list (str * str)) (key : str) : option str :=
  match table with
  | [] => None
  | (k, v) :: more => if str_eqb k key then Some v else table_get more key
  end.

(** The two kinds of fenced block the program is called with. *)
Inductive block_kind := Console | ESQL.

Definition kind_name (k : block_kind) : str :=
  match k with Console => txt "console" | ESQL => txt "esql" end.

Definition is_esql (k : block_kind) : bool :=
  match k with ESQL => true | Console => false end.

Definition fence : str := txt "```".

(** One line of a numbered list: digits, a dot, and at least one more
    character of the line. *)
Definition numbered_item : regex :=
  seqs [plus true (Chr CDigit); Chr (CChar "."); plus true (Chr (CNoneOf [nl]))].

(** A numbered list: such lines, one line feed between them. *)
Definition numbered_list : regex :=
  Seq numbered_item (Star true (Seq (Chr (CChar nl)) numbered_item)).

(** The pattern of extract_code_blocks and replace_blocks (DOTALL): the
    opening fence with the kind and a line feed, the body (group 1, lazy), a
    line feed and the closing fence, and optionally two line feeds and a
    numbered list (group 2). *)
Definition block_pattern (k : block_kind) : regex :=
  seqs [ lit fence; lit (kind_name k); Chr (CChar nl);
         Group 1 (Star false (Chr CAny));
         Chr (CChar nl); lit fence;
         opt (seqs [Chr (CChar nl); Chr (CChar nl); Group 2 numbered_list]) ].

(** extract_code_blocks: the blocks of one kind with the numbered list that
    follows each; console blocks whose body starts with -result are left out. *)
Definition extract_code_blocks (markdown_text : str) (block_type : block_kind)
    : list (str * str) :=
  flat_map
    (fun h =>
       let body := group 1 h in
       let annotations := group 2 h in
       if is_esql block_type || negb (startswith body (txt "-result"))
       then [(body, match annotations with [] => [] | _ => strip annotations end)]
       else [])
    (re_finditer (block_pattern block_type) markdown_text).

(** esql_to_console: the query inside a POST /_query request. *)
Definition esql_to_console (esql_content : str) : str :=
  txt "POST /_query?format=txt" ++ [nl] ++
  txt "{" ++ [nl] ++
  txt "  " ++ [dq] ++ txt "query" ++ [dq] ++ txt ": " ++ [dq; dq; dq] ++ [nl] ++
  esql_content ++ [nl] ++
  txt "  " ++ [dq; dq; dq] ++ [nl] ++
  txt "}".

(** ** The converter client *)

Inductive exn :=
| ValueError
| FileNotFoundError
| KeyError
| StopIteration
| PatternNotModelled.

Inductive result (A : Type) :=
| Ok (a : A)
| Raise (e : exn).
Arguments Ok {A} a.
Arguments Raise {A} e.

(** What subprocess.run ends in: exit status zero with the standard output,
    another exit status with the standard error, or no such executable. *)
Inductive proc_result :=
| Exited0 (stdout : str)
| ExitedNonzero (stderr : str)
| NotFound.

(** language=None, one name, or a list of names. *)
Inductive lang_arg :=
| LangNone
| LangOne (l : str)
| LangMany (ls : list str).

(** The normalized language parameter of convert_console. *)
Definition requested_languages (language : lang_arg) : list str :=
  match language with
  | LangNone => DEFAULT_LANGUAGES
  | LangOne l => [l]
  | LangMany ls => ls
  end.

(** A language identifier with an entry in LANGUAGE_MAP. *)
Definition supported (lang : str) : bool :=
  match table_get LANGUAGE_MAP (lower lang) with Some _ => true | None => false end.

Definition truthy (s : str) : bool := match s with [] => false | _ => true end.

Definition first_error_line (error_lines : list str) : option str :=
  match List.filter (fun line => contains line (txt "Error:") || contains line (txt "TypeError:"))
                    error_lines with
  | line :: _ => Some (strip line)
  | [] => None
  end.

Section converter.

(** The external process: its command line and its standard input. *)
Variable run_converter : list str -> str -> proc_result.

(** _convert_single_language: the language, its code and an error message
    (None when the process succeeded). *)
Definition convert_single_language (lang console_content : str) (complete : bool)
    (converter_lang : str) : str * str * option str :=
  let cmd := [txt "es-request-converter"; txt "--format"; converter_lang;
              txt "--print-response"] ++
             (if complete then [txt "--complete"] else []) in
  match run_converter cmd console_content with
  | Exited0 stdout =>
      (lang, str_join nl (map rstrip (splitlines stdout)), None)
  | ExitedNonzero stderr =>
      let error_lines := split_on nl (strip stderr) in
      let error_msg :=
        match first_error_line error_lines with
        | Some m => if truthy m then m else hd (txt "Conversion failed") error_lines
        | None => hd (txt "Conversion failed") error_lines
        end in
      (lang, console_content, Some error_msg)
  | NotFound =>
      (lang, console_content,
       Some (txt "es-request-converter not found (install: npm install -g @elastic/request-converter)"))
  end.

(** The first loop of convert_console: unsupported languages get their
    error and the console text, the others a task. *)
Fixpoint prepare_tasks (console_content : str) (complete : bool) (languages : list str)
    (results errors : gmap str str) (tasks : list (str * str * bool * str))
    : gmap str str * gmap str str * list (str * str * bool * str) :=
  match languages with
  | [] => (results, errors, tasks)
  | lang :: more =>
      match table_get LANGUAGE_MAP (lower lang) with
      | None =>
          prepare_tasks console_content complete more
            (<[lang := console_content]> results)
            (<[lang := txt "Unsupported language: " ++ lang]> errors)
            tasks
      | Some converter_lang =>
          prepare_tasks console_content complete more results errors
            (tasks ++ [(lang, console_content, complete, converter_lang)])
      end
  end.

(** The second loop: every finished task writes the entry of its language.
    The futures finish in any order; two tasks of one language compute the
    same entry, so the order does not show in the two maps. *)
Definition collect (results_errors : gmap str str * gmap str str)
    (task : str * str * bool * str) : gmap str str * gmap str str :=
  let '(results, errors) := results_errors in
  let '(lang, console_content, complete, converter_lang) := task in
  let '(lang', code', error) :=
    convert_single_language lang console_content complete converter_lang in
  (<[lang' := code']> results,
   match error with
   | Some msg => if truthy msg then <[lang' := msg]> errors else errors
   | None => errors
   end).

(** max_workers of the pool: the number of tasks times 1.5. *)
Definition max_workers (tasks : list (str * str * bool * str)) : Q :=
  (inject_Z (Z.of_nat (length tasks)) * (3 # 2))%Q.

(** convert_console.  ThreadPoolExecutor raises ValueError when max_workers
    is not greater than zero. *)
Definition convert_console (console_content : str) (language : lang_arg) (complete : bool)
    : result (gmap str str * gmap str str) :=
  let languages := requested_languages language in
  let '(results, errors, tasks) :=
    prepare_tasks console_content complete languages ∅ ∅ [] in
  if Qle_bool (max_workers tasks) 0 then Raise ValueError
  else Ok (fold_left collect tasks (results, errors)).

End converter.

(** ** Language formatters and annotation stripping *)

Definition localhost : str := txt "http://localhost:9200".
Definition env_name : str := txt "ELASTICSEARCH_URL".

(** format_curl: the endpoint becomes $ELASTICSEARCH_URL; on every line of
    the form curl -X METHOD rest URL the quoted URL moves behind the method;
    a backslash, a line feed and two blanks go before each -H and -d flag. *)
Definition format_curl (code0 : str) : str :=
  let code1 :=
    re_sub (lit (dq :: localhost)) [TLit (dq :: txt "$ELASTICSEARCH_URL")] code0 in
  let code2 :=
    re_sub
      (seqs [ Group 1 (Seq (lit (txt "curl -X ")) (plus true (Chr CWord)));
              Group 2 (Star false (Chr CDot));
              Group 3 (seqs [plus true (Chr CSpace); Chr (CChar dq);
                             plus true (Chr (CNoneOf [dq])); Chr (CChar dq)]);
              Eol true ])
      [TGroup 1; TGroup 3; TGroup 2] code1 in
  re_sub
    (Seq (Chr (CChar " ")) (Group 1 (seqs [Chr (CChar "-"); Chr (COneOf (txt "Hd")); Chr (CChar " ")])))
    [TLit (txt " \" ++ [nl] ++ txt "  "); TGroup 1] code2.

Definition format_python (code0 : str) : str :=
  re_sub (lit (txt "hosts=[" ++ [dq] ++ localhost ++ [dq] ++ txt "]"))
         [TLit (txt "hosts=[os.getenv(" ++ [dq] ++ env_name ++ [dq] ++ txt ")]")] code0.

Definition format_ruby (code0 : str) : str :=
  re_sub (seqs [ lit (txt "host:"); Star true (Chr CSpace); Chr (COneOf (dq :: txt "'"));
                 lit localhost; Chr (COneOf (dq :: txt "'")) ])
         [TLit (txt "host: ENV[" ++ [dq] ++ env_name ++ [dq] ++ txt "]")] code0.

Definition format_javascript (code0 : str) : str :=
  re_sub (seqs [ lit (txt "nodes:"); Star true (Chr CSpace);
                 lit (txt "[" ++ [dq] ++ localhost ++ [dq] ++ txt "]") ])
         [TLit (txt "nodes: [process.env[" ++ [dq] ++ env_name ++ [dq] ++ txt "]]")] code0.

Definition format_php (code0 : str) : str :=
  re_sub (lit (txt "->setHosts([" ++ [dq] ++ localhost ++ [dq] ++ txt "])"))
         [TLit (txt "->setHosts([getenv(" ++ [dq] ++ env_name ++ [dq] ++ txt ")])")] code0.

(** strip_annotations: markers of the form <N> with the blanks before them,
    then on every line a # and what follows it, with the blanks before it. *)
Definition strip_annotations (code0 : str) : str :=
  let code1 :=
    re_sub (seqs [Star true (Chr CSpace); Chr (CChar "<"); plus true (Chr CDigit); Chr (CChar ">")])
           [] code0 in
  re_sub (seqs [Star true (Chr CSpace); Chr (CChar "#"); Star true (Chr CDot); Eol true])
         [] code1.

(** ** Directive nesting *)

Definition directives : list str :=
  [ txt "stepper"; txt "step"; txt "dropdown"; txt "note"; txt "warning"; txt "tip";
    txt "important"; txt "plain"; txt "tabs"; txt "tab-set"; txt "tab-item" ].

Definition directive_open : regex :=
  seqs [ Bol; Group 1 (plus true (Chr (CChar ":"))); Chr (CChar "{");
         Group 2 (alts (lit (txt "stepper")) (map lit (tl directives)));
         Chr (CChar "}") ].

Definition directive_close : regex :=
  seqs [ Bol; Group 1 (Seq (lit (txt ":::")) (Star true (Chr (CChar ":")))); Eol false ].

Definition is_some {A} (o : option A) : bool :=
  match o with Some _ => true | None => false end.

Definition increment_line (add_colons : str) (line : str) : str :=
  if is_some (re_match directive_open line) then add_colons ++ line
  else if is_some (re_match directive_close (strip line)) then
    let ws := take (length line - length (lstrip line)) line in
    ws ++ add_colons ++ strip line
  else line.

Definition increment_directive_delimiters (text : str) (levels : nat) : str :=
  let add_colons := repeat ":"%char levels in
  str_join nl (map (increment_line add_colons) (split_on nl text)).

(** ** Snippet files and the file system *)

(** What the program does to the file system, in the order it does it. *)
Inductive event :=
| WroteSnippet (name : str)
| Unlinked (name : str)
| MadeDir
| WroteDoc.

(** The snippet directory of the document (None: there is no such
    directory), the content of the document, and the events so far. *)
Record world := World { w_dir : option (gmap str str); w_doc : str; w_log : list event }.

(** An action on the world that returns a value or raises; the world as it
    was when an exception was raised is kept. *)
Definition io (A : Type) : Type := world -> result A * world.

Definition ret {A} (a : A) : io A := fun w => (Ok a, w).
Definition raise {A} (e : exn) : io A := fun w => (Raise e, w).
Definition bind {A B} (m : io A) (f : A -> io B) : io B :=
  fun w =>
    match m w with
    | (Ok a, w') => f a w'
    | (Raise e, w') => (Raise e, w')
    end.
Definition lift {A} (r : result A) : io A := fun w => (r, w).

Notation "x <- m ;; f" := (bind m (fun x => f))
  (at level 100, m at next level, right associativity).
Notation "m ;;; f" := (bind m (fun _ => f))
  (at level 100, right associativity).

Fixpoint for_each {A} (items : list A) (body : A -> io unit) : io unit :=
  match items with
  | [] => ret tt
  | x :: more => body x ;;; for_each more body
  end.

Definition snippet_filename (example_num : N) (lang : str) : str :=
  txt "example" ++ str_of_N example_num ++ txt "-" ++ lang ++ txt ".md".

(** A name that open() can create in an existing flat directory: no slash
    (the name would lie in a sub-directory that is not there) and no NUL. *)
Definition creatable (name : str) : bool :=
  negb (mem_char "/"%char name) && negb (mem_char (ascii_of_nat 0) name).

(** open(path, 'w') and write. *)
Definition write_file (name content : str) : io unit :=
  fun w =>
    match w_dir w with
    | Some d =>
        if creatable name
        then (Ok tt, World (Some (<[name := content]> d)) (w_doc w)
                           (w_log w ++ [WroteSnippet name]))
        else (Raise FileNotFoundError, w)
    | None => (Raise FileNotFoundError, w)
    end.

(** The highlighting tag and the formatted code of a snippet. *)
Definition snippet_code (lang code0 : str) : str * str :=
  if str_eqb lang (txt "esql") then (txt "esql", code0)
  else if str_eqb lang (txt "console") then (txt "console", code0)
  else if str_eqb lang (txt "curl") then (txt "bash", format_curl code0)
  else if str_eqb (lower lang) (txt "python") then (txt "python", format_python code0)
  else if str_eqb (lower lang) (txt "ruby") then (txt "ruby", format_ruby code0)
  else if str_eqb (lower lang) (txt "js") || str_eqb (lower lang) (txt "javascript")
       then (txt "js", format_javascript code0)
  else if str_eqb (lower lang) (txt "php") then (txt "php", format_php code0)
  else (lang, code0).

Definition snippet_content (lang code0 annotations : str) : str :=
  let '(code_lang, code1) := snippet_code lang code0 in
  fence ++ code_lang ++ [nl] ++ code1 ++ [nl] ++ fence ++ [nl] ++
  (if truthy annotations then [nl] ++ annotations ++ [nl] else []).

(** write_snippet_file (the returned path is not used by any caller). *)
Definition write_snippet_file (example_num : N) (lang code0 annotations : str) : io unit :=
  write_file (snippet_filename example_num lang) (snippet_content lang code0 annotations).

Definition build_include_directive (snippets_dir_name parent_filename : str)
    (example_num : N) (lang : str) : str :=
  txt ":::{include} " ++ snippets_dir_name ++ txt "/" ++ parent_filename ++ txt "/" ++
  snippet_filename example_num lang ++ [nl] ++ txt ":::".

(** ** Tab-sets *)

Definition tab_item_head (label sync : str) : str :=
  txt ":::{tab-item} " ++ label ++ [nl] ++ txt ":sync: " ++ sync ++ [nl].

(** The label of a language tab: LANGUAGE_MAP.get(lang.lower(), lang.capitalize()). *)
Definition lang_label (lang : str) : str :=
  match table_get LANGUAGE_MAP (lower lang) with
  | Some label => label
  | None => capitalize lang
  end.

(** prepare_code_for_conversion: the code to convert and the first tab. *)
Definition prepare_code_for_conversion (code0 : str) (block_type : block_kind)
    (annotations : str) : str * str :=
  let code1 := strip code0 in
  match block_type with
  | ESQL =>
      let first_tab :=
        tab_item_head (txt "ES|QL") (txt "esql") ++
        fence ++ txt "esql" ++ [nl] ++ code1 ++ [nl] ++ fence ++ [nl] ++
        (if truthy annotations then annotations ++ [nl] else []) ++
        txt ":::" ++ [nl] in
      (esql_to_console (strip_annotations code1), first_tab)
  | Console =>
      let first_tab :=
        tab_item_head (txt "Console") (txt "console") ++
        fence ++ txt "console" ++ [nl] ++ code1 ++ [nl] ++ fence ++ [nl] ++
        (if truthy annotations then annotations ++ [nl] else []) ++
        txt ":::" ++ [nl] in
      (strip_annotations code1, first_tab)
  end.

(** The post-processing of build_language_tab: the highlighting tag and
    the formatted code. *)
Definition snippet_code_inline (lang converted_code : str) : str * str :=
  let converted :=
    if str_eqb lang (txt "curl") then format_curl converted_code
    else if str_eqb (lower lang) (txt "python") then format_python converted_code
    else if str_eqb (lower lang) (txt "ruby") then format_ruby converted_code
    else if str_eqb (lower lang) (txt "js") || str_eqb (lower lang) (txt "javascript")
         then format_javascript converted_code
    else if str_eqb (lower lang) (txt "php") then format_php converted_code
    else converted_code in
  let code_lang := if str_eqb lang (txt "curl") then txt "bash" else lang in
  (code_lang, converted).

(** build_language_tab: one inline tab. *)
Definition build_language_tab (lang converted_code : str) : str :=
  let '(code_lang, converted) := snippet_code_inline lang converted_code in
  [nl] ++ tab_item_head (lang_label lang) lang ++
  fence ++ code_lang ++ [nl] ++ converted ++ [nl] ++ fence ++ [nl] ++ txt ":::" ++ [nl].

Definition tabset_open : str :=
  txt "::::{tab-set}" ++ [nl] ++ txt ":group: api-examples" ++ [nl; nl].

Definition languages_or_default (languages : option (list str)) : list str :=
  match languages with Some ls => ls | None => DEFAULT_LANGUAGES end.

Section orchestrator.

Variable run_converter : list str -> str -> proc_result.

(** converted_codes[lang] *)
Definition converted_code (converted_codes : gmap str str) (lang : str) : result str :=
  match converted_codes !! lang with
  | Some c => Ok c
  | None => Raise KeyError
  end.

(** One tab of a snippet-mode tab-set: head, blank line, include directive. *)
Definition include_tab (label sync parent_filename : str) (example_num : N) (lang : str) : str :=
  tab_item_head label sync ++ [nl] ++
  build_include_directive (txt "_snippets") parent_filename example_num lang ++ [nl; nl].

(** create_snippets_and_tabs: writes the snippet files of one block and
    returns the tab-set that includes them, with the conversion errors. *)
Definition create_snippets_and_tabs (parent_filename : str) (example_num : N)
    (code0 annotations : str) (languages : option (list str)) (is_first_block : bool)
    (block_type : block_kind) : io (str * gmap str str) :=
  let languages := languages_or_default languages in
  let code1 := strip code0 in
  code_to_convert <-
    match block_type with
    | ESQL =>
        write_snippet_file example_num (txt "esql") code1 annotations ;;;
        let code_to_convert := esql_to_console (strip_annotations code1) in
        write_snippet_file example_num (txt "console") code_to_convert [] ;;;
        ret code_to_convert
    | Console =>
        write_snippet_file example_num (txt "console") code1 annotations ;;;
        ret (strip_annotations code1)
    end ;;
  converted <-
    lift (convert_console run_converter code_to_convert (LangMany languages) is_first_block) ;;
  let '(converted_codes, conversion_errors) := converted in
  for_each languages (fun lang =>
    c <- lift (converted_code converted_codes lang) ;;
    write_snippet_file example_num lang c []) ;;;
  let tabs0 := tabset_open in
  let tabs1 :=
    if is_esql block_type
    then tabs0 ++ include_tab (txt "ES|QL") (txt "esql") parent_filename example_num (txt "esql")
    else tabs0 in
  let tabs2 :=
    tabs1 ++ include_tab (txt "Console") (txt "console") parent_filename example_num (txt "console") in
  let tabs3 :=
    fold_left
      (fun tabs lang =>
         tabs ++ include_tab (lang_label lang) (lower lang) parent_filename example_num lang)
      languages tabs2 in
  ret (tabs3 ++ txt "::::", conversion_errors).

(** One round of the loop of wrap_in_tabs over the languages. *)
Definition add_language_tab (converted_codes : gmap str str) (acc : result str) (lang : str)
    : result str :=
  match acc with
  | Raise e => Raise e
  | Ok tabs =>
      match converted_code converted_codes lang with
      | Ok c => Ok (tabs ++ build_language_tab lang c)
      | Raise e => Raise e
      end
  end.

(** wrap_in_tabs: the inline tab-set of one block, nothing written. *)
Definition wrap_in_tabs (code0 annotations : str) (languages : option (list str))
    (is_first_block : bool) (block_type : block_kind) : result (str * gmap str str) :=
  let languages := languages_or_default languages in
  let '(code_to_convert, first_tab) :=
    prepare_code_for_conversion code0 block_type annotations in
  let tabs0 := tabset_open ++ first_tab in
  let tabs1 :=
    if is_esql block_type
    then tabs0 ++ [nl] ++ tab_item_head (txt "Console") (txt "console") ++
         fence ++ txt "console" ++ [nl] ++ code_to_convert ++ [nl] ++ fence ++ [nl] ++
         txt ":::" ++ [nl]
    else tabs0 in
  match convert_console run_converter code_to_convert (LangMany languages) is_first_block with
  | Raise e => Raise e
  | Ok (converted_codes, conversion_errors) =>
      match fold_left (add_language_tab converted_codes) languages (Ok tabs1) with
      | Ok tabs => Ok (tabs ++ [nl] ++ txt "::::", conversion_errors)
      | Raise e => Raise e
      end
  end.

End orchestrator.

(** ** Replacing blocks by tab-sets *)

(** re.sub with a replacer that draws from an iterator: a match for which
    [keep_original] holds is put back as it is, every other match takes the
    next replacement; next() on an exhausted iterator raises StopIteration.
    The result is the new text and what is left of the iterator. *)
Fixpoint replace_hits (keep_original : hit -> bool) (segs : list seg) (iter : list str)
    : result (str * list str) :=
  match segs with
  | [] => Ok ([], iter)
  | Raw c :: more =>
      match replace_hits keep_original more iter with
      | Ok (out, iter') => Ok (c :: out, iter')
      | Raise e => Raise e
      end
  | Found h :: more =>
      if keep_original h then
        match replace_hits keep_original more iter with
        | Ok (out, iter') => Ok (group 0 h ++ out, iter')
        | Raise e => Raise e
        end
      else
        match iter with
        | [] => Raise StopIteration
        | replacement :: iter' =>
            match replace_hits keep_original more iter' with
            | Ok (out, iter'') => Ok (replacement ++ out, iter'')
            | Raise e => Raise e
            end
        end
  end.

Definition is_result_block (h : hit) : bool := startswith (group 1 h) (txt "-result").

(** The console pass of replace_blocks. *)
Definition replace_console_blocks (markdown_text : str) (console_replacements : list str)
    : result (str * list str) :=
  replace_hits is_result_block (scan (block_pattern Console) markdown_text) console_replacements.

(** The esql pass of replace_blocks. *)
Definition replace_esql_blocks (markdown_text : str) (esql_replacements : list str)
    : result (str * list str) :=
  replace_hits (fun _ => false) (scan (block_pattern ESQL) markdown_text) esql_replacements.

(** replace_blocks: the console pass, then the esql pass on its result. *)
Definition replace_blocks (markdown_text : str) (console_replacements esql_replacements : list str)
    : result str :=
  match replace_console_blocks markdown_text console_replacements with
  | Raise e => Raise e
  | Ok (text1, _) =>
      match replace_esql_blocks text1 esql_replacements with
      | Raise e => Raise e
      | Ok (text2, _) => Ok text2
      end
  end.

(** ** The snippet directory *)

(** A name that matches the glob pattern prefix*suffix. *)
Definition glob_match (prefix suffix name : str) : bool :=
  startswith name prefix && endswith name suffix
  && (length prefix + length suffix <=? length name).

(** Path.glob on the directory.  The names come in the order in which the
    map lists them; Python gets them in the order of the operating system.
    The order matters only to the order of two console snippets that carry
    the same number. *)
Definition glob (prefix suffix : str) (d : gmap str str) : list str :=
  List.filter (glob_match prefix suffix) (map fst (map_to_list d)).

Definition has_console_snippets (dir : option (gmap str str)) : bool :=
  match dir with
  | None => false
  | Some d => 0 <? length (glob (txt "example") (txt "-console.md") d)
  end.

(** sorted(..., key=number): stable insertion sort. *)
Fixpoint insert_by_num (x : N * str) (l : list (N * str)) : list (N * str) :=
  match l with
  | [] => [x]
  | y :: l' => if (fst x <=? fst y)%N then x :: y :: l' else y :: insert_by_num x l'
  end.

Definition sort_by_num (l : list (N * str)) : list (N * str) :=
  fold_right insert_by_num [] l.

Definition console_name_pattern : regex :=
  seqs [lit (txt "example"); Group 1 (plus true (Chr CDigit)); lit (txt "-console.md")].

(** get_console_snippets: the console snippets with their numbers, sorted
    by number. *)
Definition get_console_snippets (d : gmap str str) : list (N * str) :=
  sort_by_num
    (flat_map
       (fun name =>
          match re_match console_name_pattern name with
          | Some h => [(int_of_digits (group 1 h), name)]
          | None => []
          end)
       (glob (txt "example") (txt "-console.md") d)).

Definition snippet_code_pattern : regex :=
  seqs [ lit fence; Alt (lit (txt "console")) (lit (txt "esql")); Chr (CChar nl);
         Group 1 (Star false (Chr CAny)); Chr (CChar nl); lit fence ].

Definition snippet_annotations_pattern : regex :=
  seqs [ lit fence; Chr (CChar nl); Chr (CChar nl); Group 1 numbered_list ].

(** parse_snippet_file, on the content of the file. *)
Definition parse_snippet_file (content : str) : str * str :=
  match re_search snippet_code_pattern content with
  | None => ([], [])
  | Some code_match =>
      let annotations :=
        match re_search snippet_annotations_pattern content with
        | Some annotations_match => strip (group 1 annotations_match)
        | None => []
        end in
      (group 1 code_match, annotations)
  end.

Definition count_tabsets_in_markdown (markdown_text : str) : nat :=
  length (re_finditer (lit (txt "::::{tab-set}")) markdown_text).

(** Path.unlink *)
Definition unlink (name : str) : io unit :=
  fun w =>
    match w_dir w with
    | Some d =>
        match d !! name with
        | Some _ => (Ok tt, World (Some (delete name d)) (w_doc w) (w_log w ++ [Unlinked name]))
        | None => (Raise FileNotFoundError, w)
        end
    | None => (Raise FileNotFoundError, w)
    end.

Definition write_doc (markdown_text : str) : io unit :=
  fun w => (Ok tt, World (w_dir w) markdown_text (w_log w ++ [WroteDoc])).

Definition read_doc : io str := fun w => (Ok (w_doc w), w).

Definition read_dir : io (option (gmap str str)) := fun w => (Ok (w_dir w), w).

(** Characters with a meaning of their own in a pattern. *)
Definition is_special (c : ascii) : bool := mem_char c (txt ".^$*+?{}[]\|()").

(** The document name as it stands, not escaped, inside the pattern of the
    include paths: a dot is any character but a line feed, every character
    that is not special is itself; a name with another special character is
    not modelled. *)
Fixpoint name_pattern (name : str) : option regex :=
  match name with
  | [] => Some Eps
  | c :: name' =>
      match name_pattern name' with
      | None => None
      | Some r =>
          if ascii_eqb c "."%char then Some (Seq (Chr CDot) r)
          else if is_special c then None
          else Some (Seq (Chr (CChar c)) r)
      end
  end.

(** One step of the renumbering of include paths: old_num becomes new_num. *)
Definition renumber_includes (parent_filename : str) (old_num new_num : N)
    (markdown_text : str) : result str :=
  match name_pattern parent_filename with
  | None => Raise PatternNotModelled
  | Some parent =>
      Ok (re_sub
            (seqs [ Group 1 (seqs [lit (txt "_snippets/"); parent; lit (txt "/example")]);
                    lit (str_of_N old_num);
                    Group 2 (seqs [Chr (CChar "-"); plus true (Chr CWord); lit (txt ".md")]) ])
            [TGroup 1; TLit (str_of_N new_num); TGroup 2]
            markdown_text)
  end.

Definition renumber_all (parent_filename : str) (actual expected : list N)
    (markdown_text : str) : result str :=
  fold_left
    (fun acc '(old_num, new_num) =>
       match acc with
       | Raise e => Raise e
       | Ok text =>
           if (old_num =? new_num)%N then Ok text
           else renumber_includes parent_filename old_num new_num text
       end)
    (combine actual expected) (Ok markdown_text).

Definition N_list_eqb (a b : list N) : bool :=
  (length a =? length b) && forallb (fun '(x, y) => (x =? y)%N) (combine a b).

(** enumerate(items, start=1) *)
Definition enumerate1 {A} (items : list A) : list (N * A) :=
  combine (map N.of_nat (seq 1 (length items))) items.

(** ** The orchestrator *)

(** What a run reports: the message it prints before it returns. *)
Inductive report :=
| AlreadyContains (found_lang : str)
| NoBlocksFound
| NoConsoleSnippets
| Completed (without_errors : bool).

(** The value process_file returns. *)
Definition returned (r : report) : bool :=
  match r with
  | Completed ok => ok
  | _ => false
  end.

Definition tab_pattern (label sync : str) : regex :=
  seqs [ lit_i (txt "::"); plus true (Chr (CCharI ":")); lit_i (txt "{tab-item}");
         plus true (Chr CSpace); lit_i label; Star true (Chr CSpace); Chr (CCharI nl);
         Star true (Chr CSpace); lit_i (txt ":sync:"); plus true (Chr CSpace); lit_i sync ].

(** has_language_tabs (IGNORECASE): the ES|QL tab first, then the languages
    in order, each by its capitalized name and its lower-case sync key. *)
Definition has_language_tabs (markdown_text : str) (languages : option (list str))
    : option str :=
  let languages := languages_or_default languages in
  if is_some (re_search (tab_pattern (txt "ES|QL") (txt "esql")) markdown_text)
  then Some (txt "esql")
  else
    find (fun lang =>
            is_some (re_search (tab_pattern (capitalize lang) (lower lang)) markdown_text))
         languages.

(** languages if languages else DEFAULT_LANGUAGES *)
Definition target_languages (languages : option (list str)) : list str :=
  match languages with
  | Some (l :: ls) => l :: ls
  | _ => DEFAULT_LANGUAGES
  end.

Section runs.

Variable run_converter : list str -> str -> proc_result.

(** The body of the regeneration loop for one console snippet; the result
    tells whether the conversion reported an error. *)
Definition regenerate_snippet (target_langs : list str) (new_num : N)
    (console_code annotations : str) : io bool :=
  write_snippet_file new_num (txt "console") console_code annotations ;;;
  let code_to_convert := strip_annotations console_code in
  let is_first := (new_num =? 1)%N in
  converted <-
    lift (convert_console run_converter code_to_convert (LangMany target_langs) is_first) ;;
  let '(converted_codes, conversion_errors) := converted in
  for_each target_langs (fun lang =>
    c <- lift (converted_code converted_codes lang) ;;
    write_snippet_file new_num lang c []) ;;;
  ret (negb (bool_decide (conversion_errors = ∅))).

(** A loop that collects, per item, whether it reported errors. *)
Fixpoint for_each_flag {A} (items : list A) (body : A -> io bool) : io bool :=
  match items with
  | [] => ret false
  | x :: more =>
      e <- body x ;;
      es <- for_each_flag more body ;;
      ret (e || es)
  end.

(** The code and annotations of the console snippets, those without code
    left out. *)
Definition read_console_data (d : gmap str str) (console_snippets : list (N * str))
    : list (str * str) :=
  flat_map
    (fun '(_, name) =>
       let '(code0, annotations) := parse_snippet_file (default [] (d !! name)) in
       if truthy code0 then [(code0, annotations)] else [])
    console_snippets.

(** regenerate_from_snippets *)
Definition regenerate_from_snippets (parent_filename : str) (languages : option (list str))
    : io report :=
  let target_langs := target_languages languages in
  dir <- read_dir ;;
  if negb (has_console_snippets dir) then ret NoConsoleSnippets
  else
    let d := default ∅ dir in
    let console_snippets := get_console_snippets d in
    let console_data := read_console_data d console_snippets in
    let expected_numbers := map N.of_nat (seq 1 (length console_snippets)) in
    let actual_numbers := map fst console_snippets in
    for_each (glob (txt "example") (txt ".md") d) unlink ;;;
    markdown_text <- read_doc ;;
    let tabset_count := count_tabsets_in_markdown markdown_text in
    any_errors <-
      for_each_flag (enumerate1 console_data)
        (fun '(new_num, (console_code, annotations)) =>
           regenerate_snippet target_langs new_num console_code annotations) ;;
    (if negb (N_list_eqb actual_numbers expected_numbers)
        || negb (length console_data =? tabset_count)
     then
       updated <- lift (renumber_all parent_filename actual_numbers expected_numbers
                          markdown_text) ;;
       write_doc updated
     else ret tt) ;;;
    ret (Completed (negb any_errors)).

Definition mkdir : io unit :=
  fun w => (Ok tt, World (Some ∅) (w_doc w) (w_log w ++ [MadeDir])).

(** One call of create_snippets_and_tabs in process_file: the kind of the
    block, its example number, the first-block flag, the code and the
    annotations. *)
Record job := Job {
  j_kind : block_kind;
  j_num : N;
  j_first : bool;
  j_code : str;
  j_annotations : str
}.

(** enumerate(blocks): the index from zero with each block. *)
Definition enumerate0 {A} (items : list A) : list (nat * A) :=
  combine (seq 0 (length items)) items.

(** The loop over the console blocks: block i gets the number i + 1. *)
Definition console_jobs (console_blocks : list (str * str)) : list job :=
  map (fun '(i, (console_code, annotations)) =>
         Job Console (N.of_nat (i + 1)) (i =? 0) console_code annotations)
      (enumerate0 console_blocks).

(** The loop over the esql blocks: block i gets the number
    len(console_blocks) + i + 1. *)
Definition esql_jobs (console_blocks esql_blocks : list (str * str)) : list job :=
  map (fun '(i, (esql_code, annotations)) =>
         Job ESQL (N.of_nat (length console_blocks + i + 1))
             ((i =? 0) && match console_blocks with [] => true | _ => false end)
             esql_code annotations)
      (enumerate0 esql_blocks).

(** A loop over jobs that collects the tab-sets and whether errors were
    reported. *)
Fixpoint run_jobs (parent_filename : str) (languages : option (list str)) (jobs : list job)
    : io (list str * bool) :=
  match jobs with
  | [] => ret ([], false)
  | j :: more =>
      r <- create_snippets_and_tabs run_converter parent_filename (j_num j) (j_code j)
             (j_annotations j) languages (j_first j) (j_kind j) ;;
      let '(tab, errors) := r in
      rs <- run_jobs parent_filename languages more ;;
      let '(tabs, any_errors) := rs in
      ret (tab :: tabs, negb (bool_decide (errors = ∅)) || any_errors)
  end.

(** process_file *)
Definition process_file (parent_filename : str) (languages : option (list str))
    (regenerate : bool) : io report :=
  if regenerate then
    dir <- read_dir ;;
    if negb (has_console_snippets dir) then ret NoConsoleSnippets
    else regenerate_from_snippets parent_filename languages
  else
    markdown_text <- read_doc ;;
    match has_language_tabs markdown_text languages with
    | Some found_lang => ret (AlreadyContains found_lang)
    | None =>
        let markdown_text := increment_directive_delimiters markdown_text 1 in
        let console_blocks := extract_code_blocks markdown_text Console in
        let esql_blocks := extract_code_blocks markdown_text ESQL in
        match console_blocks, esql_blocks with
        | [], [] => ret NoBlocksFound
        | _, _ =>
            dir <- read_dir ;;
            (if is_some dir then ret tt else mkdir) ;;;
            cs <- run_jobs parent_filename languages (console_jobs console_blocks) ;;
            es <- run_jobs parent_filename languages (esql_jobs console_blocks esql_blocks) ;;
            updated <- lift (replace_blocks markdown_text (fst cs) (fst es)) ;;
            write_doc updated ;;;
            ret (Completed (negb (snd cs || snd es)))
        end
    end.

End runs.

(** ** Sample inputs

    A converter that exits with status zero and prints a comment line with
    the requested format (and the word complete when the flag is given)
    before the request it was given. *)
Definition sample_converter (cmd : list str) (input : str) : proc_result :=
  Exited0 (txt "# " ++ nth 2 cmd [] ++
           (if 4 <? length cmd then txt " complete" else []) ++ [nl] ++ input ++ [nl]).

(** Lines joined by line feeds. *)
Definition lines (ls : list string) : str := str_join nl (map txt ls).

(** ** Notions used to state the properties *)

(** The snippet files written, in the order of the writes. *)
Definition snippets_written (log : list event) : list str :=
  flat_map (fun e => match e with WroteSnippet name => [name] | _ => [] end) log.

(** The snippet files of one block, in the order create_snippets_and_tabs
    writes them. *)
Definition job_files (languages : list str) (j : job) : list str :=
  (if is_esql (j_kind j) then [snippet_filename (j_num j) (txt "esql")] else []) ++
  snippet_filename (j_num j) (txt "console") ::
  map (snippet_filename (j_num j)) languages.

(** A tab-set as the specification describes it: tabs in order, each with
    a label, a synchronization key and a body. *)
Record tab := Tab { t_label : str; t_sync : str; t_body : str }.

Definition render_tab (t : tab) : str :=
  tab_item_head (t_label t) (t_sync t) ++ t_body t.

(** The body of a tab that includes a snippet file. *)
Definition include_body (parent_filename : str) (example_num : N) (lang : str) : str :=
  [nl] ++ build_include_directive (txt "_snippets") parent_filename example_num lang ++ [nl; nl].

(** The tabs of a snippet-mode tab-set: ES|QL for an esql block, Console,
    then the languages as requested, each with its lower-case name as key. *)
Definition snippet_tabs (parent_filename : str) (example_num : N) (kind : block_kind)
    (languages : list str) : list tab :=
  (if is_esql kind
   then [Tab (txt "ES|QL") (txt "esql") (include_body parent_filename example_num (txt "esql"))]
   else []) ++
  Tab (txt "Console") (txt "console") (include_body parent_filename example_num (txt "console")) ::
  map (fun lang => Tab (lang_label lang) (lower lang)
                       (include_body parent_filename example_num lang))
      languages.

(** The body of an inline tab: the fenced code, an optional annotation
    list, and the closing colons. *)
Definition inline_body (code_lang code0 annotations : str) : str :=
  fence ++ code_lang ++ [nl] ++ code0 ++ [nl] ++ fence ++ [nl] ++
  (if truthy annotations then annotations ++ [nl] else []) ++
  txt ":::" ++ [nl].

(** The tabs of an inline tab-set: ES|QL for an esql block, Console, then
    the languages as requested, each with its name as given as key. *)
Definition inline_tabs (code0 annotations : str) (kind : block_kind)
    (languages : list str) (converted_codes : gmap str str) : list tab :=
  (match kind with
   | ESQL =>
       [ Tab (txt "ES|QL") (txt "esql") (inline_body (txt "esql") (strip code0) annotations);
         Tab (txt "Console") (txt "console")
             (inline_body (txt "console") (esql_to_console (strip_annotations (strip code0))) []) ]
   | Console =>
       [ Tab (txt "Console") (txt "console")
             (inline_body (txt "console") (strip code0) annotations) ]
   end) ++
  map (fun lang =>
         Tab (lang_label lang) lang
             (inline_body (if str_eqb lang (txt "curl") then txt "bash" else lang)
                          (snd (snippet_code_inline lang (default [] (converted_codes !! lang))))
                          []))
      languages.

(** An inline tab-set puts a line feed between its tabs. *)
Definition render_inline (tabs : list tab) : str :=
  match tabs with
  | [] => []
  | t :: more => render_tab t ++ flat_map (fun t' => [nl] ++ render_tab t') more
  end.

(** The label and key of every tab, in order. *)
Definition tab_heads (tabs : list tab) : list (str * str) :=
  map (fun t => (t_label t, t_sync t)) tabs.

(** The tabs that the specification asks for, with the key of a language
    tab left open: ES|QL first for an esql block, Console, the languages in
    the order requested. *)
Definition expected_heads (key : str -> str) (kind : block_kind) (languages : list str)
    : list (str * str) :=
  (if is_esql kind then [(txt "ES|QL", txt "esql")] else []) ++
  (txt "Console", txt "console") ::
  map (fun lang => (lang_label lang, key lang)) languages.

(** The matches that replace_blocks replaces with a tab-set: for console
    blocks all but the result blocks, for esql blocks all. *)
Definition keeps_original (k : block_kind) (h : hit) : bool :=
  match k with Console => is_result_block h | ESQL => false end.

Definition replaced_hits (k : block_kind) (markdown_text : str) : list hit :=
  List.filter (fun h => negb (keeps_original k h))
              (re_finditer (block_pattern k) markdown_text).

(** The block that extract_code_blocks makes of a match. *)
Definition block_of_hit (h : hit) : str * str :=
  (group 1 h, match group 2 h with [] => [] | _ => strip (group 2 h) end).

(** Where a match lies in the text: its start and its length. *)
Definition span (h : hit) : nat * nat := (h_start h, length (h_text h)).

(** A text with the given spans replaced: [s] is the text from index [pos]
    on, the edits are (start, length, replacement), in ascending order and
    not overlapping.  Everything outside the spans stays as it is. *)
Fixpoint splice (pos : nat) (s : str) (edits : list (nat * nat * str)) : str :=
  match edits with
  | [] => s
  | (start, len, replacement) :: more =>
      take (start - pos) s ++ replacement ++
      splice (start + len) (drop (start - pos + len) s) more
  end.

(** The names of the snippet files of a regenerated directory: for every
    example number from 1 to [count], the console snippet and one snippet
    per target language. *)
Definition regenerated_names (count : nat) (target_langs : list str) : list str :=
  flat_map (fun n => map (snippet_filename (N.of_nat n)) (txt "console" :: target_langs))
           (seq 1 count).

(** ** Notions used to state the extraction of annotations *)

(** The text of a fenced block of kind [k] with body [body], from the
    opening fence to the closing fence. *)
Definition block_text (k : block_kind) (body : str) : str :=
  fence ++ kind_name k ++ nl :: body ++ nl :: fence.

(** A text that begins with a line feed and a fence. *)
Definition closes_at (s : str) : bool := startswith s (nl :: fence).

(** A body inside which no closing fence begins: the fence that follows the
    body is the first one after the opening fence. *)
Fixpoint fence_free (body : str) : bool :=
  match body with
  | [] => true
  | _ :: body' => negb (closes_at (body ++ nl :: fence)) && fence_free body'
  end.

Definition no_backtick (s : str) : bool := forallb (fun c => negb (ascii_eqb c "`")) s.

(** One line of a numbered list: its number and the text after the dot. *)
Definition render_item (item : str * str) : str := fst item ++ "."%char :: snd item.

(** The line is well formed: the number is one digit or more, the text is
    one character or more and has no line feed. *)
Definition valid_item (item : str * str) : bool :=
  truthy (fst item) && forallb is_digit (fst item) &&
  truthy (snd item) && forallb (fun c => negb (ascii_eqb c nl)) (snd item).

(** The lines of a numbered list, one line feed between them. *)
Definition render_list (items : list (str * str)) : str :=
  str_join nl (map render_item items).

(** The text after the first digit of a line goes on as a list line:
    further digits, a dot, and a character that is no line feed. *)
Fixpoint item_rest_ok (s : str) : bool :=
  match s with
  | [] => false
  | c :: s' =>
      if is_digit c then item_rest_ok s'
      else ascii_eqb c "." &&
           match s' with
           | [] => false
           | c' :: _ => negb (ascii_eqb c' nl)
           end
  end.

(** The text begins with a line of a numbered list. *)
Definition starts_item (s : str) : bool :=
  match s with
  | [] => false
  | c :: s' => is_digit c && item_rest_ok s'
  end.

(** What follows a numbered list ends it: the text is over, or a line feed
    comes that no further list line follows. *)
Definition list_ends (rest : str) : bool :=
  match rest with
  | [] => true
  | c :: s => ascii_eqb c nl && negb (starts_item s)
  end.

(** What follows the closing fence is a blank line and a numbered list. *)
Definition starts_list (after : str) : bool :=
  match after with
  | c1 :: c2 :: s => ascii_eqb c1 nl && ascii_eqb c2 nl && starts_item s
  | _ => false
  end.

(** The block that extract_code_blocks returns for a body and its
    annotations: none for a console result block. *)
Definition extracted (k : block_kind) (body annotations : str) : list (str * str) :=
  if is_esql k || negb (startswith body (txt "-result"))
  then [(body, annotations)] else [].

(** A pattern without the start-of-text anchor. *)
Fixpoint bol_free (r : regex) : bool :=
  match r with
  | Bol => false
  | Seq r1 r2 | Alt r1 r2 => bol_free r1 && bol_free r2
  | Star _ r1 | Group _ r1 => bol_free r1
  | _ => true
  end.

(** A console snippet file with the given body and no annotations. *)
Definition console_snippet (body : string) : str :=
  lines ["```console"; body; "```"; ""].

(** A document with three tab-sets that include the snippets 1, 3 and 4. *)
Definition gap_doc : str :=
  lines [ "::::{tab-set}"; ":::{include} _snippets/doc/example1-console.md"; "::::";
          "::::{tab-set}"; ":::{include} _snippets/doc/example3-console.md";
          ":::{include} _snippets/doc/example3-curl.md"; "::::";
          "::::{tab-set}"; ":::{include} _snippets/doc/example4-console.md"; "::::" ].

(** A snippet directory with a gap: console snippets 1, 3 and 4. *)
Definition gap_world : world :=
  World (Some (list_to_map
           [ (txt "example1-console.md", console_snippet "GET /a");
             (txt "example3-console.md", console_snippet "GET /b");
             (txt "example3-curl.md", txt "stale");
             (txt "example4-console.md", console_snippet "GET /c") ]))
        gap_doc [].

(** The same directory, the console snippet 3 with an empty body. *)
Definition gap_world_empty_body : world :=
  World (Some (list_to_map
           [ (txt "example1-console.md", console_snippet "GET /a");
             (txt "example3-console.md", console_snippet "");
             (txt "example4-console.md", console_snippet "GET /c") ]))
        gap_doc [].

(** A document with one tab-set and a directory with one console snippet
    whose annotation list is the single line [1. ] with a blank and no text. *)
Definition one_tabset_doc : str :=
  lines ["::::{tab-set}"; ":::{include} _snippets/doc/example1-console.md"; "::::"].

Definition blank_annotation_world : world :=
  World (Some {[ txt "example1-console.md" :=
                   lines ["```console"; "GET /"; "```"; ""; "1. "; ""] ]})
        one_tabset_doc [].

(** A document that has a JavaScript tab with the key js, as the tool
    writes it for the language js, and a console block added later. *)
Definition js_doc : str :=
  lines [ "::::{tab-set}"; ":::{tab-item} JavaScript"; ":sync: js"; "";
          ":::{include} _snippets/doc/example1-js.md"; ":::"; ""; "::::"; "";
          "```console"; "GET /new"; "```" ].

Definition js_world : world :=
  World (Some {[ txt "example1-js.md" := txt "old js" ]}) js_doc [].

(** A console block whose closing fence opens an esql block. *)
Definition nested_doc : str :=
  lines ["```console"; "POST /_query"; "```esql"; "FROM x"; "```"].

(** A directory with a console snippet, an esql snippet and a file that is
    no snippet. *)
Definition mixed_world : world :=
  World (Some (list_to_map
           [ (txt "example1-console.md", console_snippet "GET /");
             (txt "example1-esql.md", txt "FROM x");
             (txt "notes.md", txt "keep me") ]))
        one_tabset_doc [].

Definition esql_only_world : world :=
  World (Some {[ txt "example1-esql.md" := txt "FROM x" ]}) one_tabset_doc [].

(** A document with a note, a console block with an annotation and an
    esql block. *)
Definition create_doc : str :=
  lines [ "# Title"; ":::{note}"; "text"; ":::"; "```console"; "GET /a <1>"; "```"; "";
          "1. one"; ""; "```esql"; "FROM x"; "```"; "end" ].

(** A document with a console block and an esql block between lines of
    text. *)
Definition two_block_doc : str :=
  lines [ "intro"; "```console"; "GET /"; "```"; "between"; "```esql"; "FROM x"; "```"; "end" ].

(** Sample runs, as abbreviations of the calls: create mode on [create_doc]
    without a snippet directory, and regeneration of [mixed_world]. *)
Definition create_world : world := World None create_doc [].

Abbreviation create_run :=
  (process_file sample_converter (txt "doc") (Some [txt "curl"]) false create_world).

Abbreviation mixed_run :=
  (regenerate_from_snippets sample_converter (txt "doc") (Some [txt "curl"]) mixed_world).

Definition empty_dir_world : world := World (Some ∅) [] [].

(** A document that has a Python tab and a console block. *)
Definition python_doc : str :=
  lines [ "::::{tab-set}"; ":::{tab-item} Python"; ":sync: python"; "";
          ":::{include} _snippets/doc/example1-python.md"; ":::"; ""; "::::"; "";
          "```console"; "GET /new"; "```" ].

(** ** Notions used in the proofs *)

(** The start of an edit of [splice]. *)
Definition edit_start (e : nat * nat * str) : nat := fst (fst e).

(** The edits that a replacement run makes: the span of every match that
    is not kept, with the replacement drawn for it. *)
Definition edits_of (keep_original : hit -> bool) (segs : list seg) (replacements : list str)
    : list (nat * nat * str) :=
  combine (map span (List.filter (fun h => negb (keep_original h)) (hits segs))) replacements.

(** The character after a greedy run of a class is not of the class. *)
Definition stops (cl : cclass) (tail : str) : bool :=
  match tail with
  | [] => true
  | c :: _ => negb (cmatch cl c)
  end.

(** The class of the text of a list line: any character but a line feed. *)
Definition no_nl : cclass := CNoneOf [nl].

(** What may follow the text of a list line: the end or a line feed. *)
Definition text_ends (tail : str) : bool :=
  match tail with
  | [] => true
  | c :: _ => ascii_eqb c nl
  end.

(** One further line of a numbered list in the pattern, and the text of
    the further lines of a list. *)
Definition list_step : regex := Seq (Chr (CChar nl)) numbered_item.

Definition more_lines (items : list (str * str)) : str :=
  flat_map (fun item => nl :: render_item item) items.

(** What follows the body in the pattern of a block: the closing fence and
    the optional list. *)
Definition closing : regex :=
  seqs [ Chr (CChar nl); lit fence;
         opt (seqs [Chr (CChar nl); Chr (CChar nl); Group 2 numbered_list]) ].

(** A matcher state, a match and a segment of a scan, moved [d] characters
    to the right. *)
Definition shift (d : nat) (st : mstate) : mstate :=
  MState (m_pos st + d) (m_rest st) (m_caps st).

Definition shift_hit (d : nat) (h : hit) : hit :=
  Hit (h_start h + d) (h_text h) (h_caps h).

Definition shift_seg (d : nat) (sg : seg) : seg :=
  match sg with
  | Raw c => Raw c
  | Found h => Found (shift_hit d h)
  end.

(** The blocks of the matches of a scan. *)
Definition blocks_of (k : block_kind) (segs : list seg) : list (str * str) :=
  flat_map
    (fun h =>
       if is_esql k || negb (startswith (group 1 h) (txt "-result"))
       then [(group 1 h,
              match group 2 h with [] => [] | _ => strip (group 2 h) end)]
       else [])
    (hits segs).

(** ** Notions used to state the entries of convert_console *)

(** The command line of _convert_single_language. *)
Definition converter_cmd (converter_lang : str) (complete : bool) : list str :=
  [txt "es-request-converter"; txt "--format"; converter_lang; txt "--print-response"] ++
  (if complete then [txt "--complete"] else []).

(** The entry of the errors that the second loop of convert_console writes
    for an error value: none for None and for an empty message. *)
Definition recorded_error (error : option str) : option str :=
  match error with
  | Some msg => if truthy msg then Some msg else None
  | None => None
  end.

(** Sample converters: one that fails without a message on its standard
    error, and one that is not installed. *)
Definition silent_failing_converter (cmd : list str) (input : str) : proc_result :=
  ExitedNonzero (txt "  ").

Definition absent_converter (cmd : list str) (input : str) : proc_result := NotFound.

(** ** The texts of a pattern

    [lang r w]: the pattern [r] can match the text [w], anchors aside (an
    anchor matches the empty text wherever it stands).  Every match that
    [rmatch] finds is such a text. *)
Inductive lang : regex -> str -> Prop :=
| lang_eps : lang Eps []
| lang_chr cl c : cmatch cl c = true -> lang (Chr cl) [c]
| lang_seq r1 r2 w1 w2 : lang r1 w1 -> lang r2 w2 -> lang (Seq r1 r2) (w1 ++ w2)
| lang_alt_l r1 r2 w : lang r1 w -> lang (Alt r1 r2) w
| lang_alt_r r1 r2 w : lang r2 w -> lang (Alt r1 r2) w
| lang_star_nil greedy r : lang (Star greedy r) []
| lang_star_more greedy r w1 w2 :
    lang r w1 -> lang (Star greedy r) w2 -> lang (Star greedy r) (w1 ++ w2)
| lang_group i r w : lang r w -> lang (Group i r) w
| lang_bol : lang Bol []
| lang_eol multiline : lang (Eol multiline) [].

(** The two patterns of strip_annotations: a marker <N> with the blanks
    before it, and a # with the rest of its line and the blanks before it. *)
Definition marker_pattern : regex :=
  seqs [Star true (Chr CSpace); Chr (CChar "<"); plus true (Chr CDigit); Chr (CChar ">")].

Definition comment_pattern : regex :=
  seqs [Star true (Chr CSpace); Chr (CChar "#"); Star true (Chr CDot); Eol true].

(** ** Notions used to state the traces of the two modes *)

(** The tab-set that create mode puts in the place of the block of a job. *)
Definition job_tabset (parent_filename : str) (languages : list str) (j : job) : str :=
  tabset_open ++
  flat_map render_tab (snippet_tabs parent_filename (j_num j) (j_kind j) languages) ++
  txt "::::".

(** The test of regenerate_from_snippets before it rewrites the include
    paths: the numbers of the console snippets are not 1, 2, ..., or the
    number of snippets with code is not the number of tab-sets. *)
Definition renumbers (d : gmap str str) (markdown_text : str) : bool :=
  let console_snippets := get_console_snippets d in
  negb (N_list_eqb (map fst console_snippets)
                   (map N.of_nat (seq 1 (length console_snippets))))
  || negb (length (read_console_data d console_snippets)
           =? count_tabsets_in_markdown markdown_text).

(** ** Notions used to state the round trip of a snippet file *)

(** A numbered list as write_snippet_file gets it from extract_code_blocks
    and parse_snippet_file: well-formed lines, no blanks around them. *)
Definition annotation_list (annotations : str) : Prop :=
  exists item items,
    annotations = render_list (item :: items) /\
    forallb valid_item (item :: items) = true /\
    strip annotations = annotations.

(** What follows the code in the pattern of parse_snippet_file. *)
Definition code_closing : regex := Seq (Chr (CChar nl)) (Seq (lit fence) Eps).

(** ** clean_language_snippets *)

(** A file name that ends in -{lang}.md for one of the languages to keep. *)
Definition should_keep (keep_languages : list str) (name : str) : bool :=
  existsb (fun lang => endswith name (txt "-" ++ lang ++ txt ".md")) keep_languages.

(** The loop of clean_language_snippets over the files example*.md. *)
Fixpoint clean_loop (keep_languages : list str) (names : list str) (deleted_count : nat)
    : io nat :=
  match names with
  | [] => ret deleted_count
  | name :: more =>
      if should_keep keep_languages name
      then clean_loop keep_languages more deleted_count
      else unlink name ;;; clean_loop keep_languages more (deleted_count + 1)
  end.

(** clean_language_snippets: removes the snippet files of all languages but
    those to keep and returns how many it removed; zero when there is no
    snippet directory. *)
Definition clean_language_snippets (keep_languages : list str) : io nat :=
  dir <- read_dir ;;
  match dir with
  | None => ret 0
  | Some d => clean_loop keep_languages (glob (txt "example") (txt ".md") d) 0
  end.

(** The default of keep_languages. *)
Definition KEEP_LANGUAGES : list str := [txt "console"; txt "esql"].

(** The files that clean_language_snippets removes. *)
Definition cleaned (keep_languages : list str) (name : str) : bool :=
  glob_match (txt "example") (txt ".md") name && negb (should_keep keep_languages name).

(** ** More sample inputs *)

(** A document without a fenced block. *)
Definition plain_doc : str := lines ["# Title"; "some text"; "1. a list"].

Definition plain_world : world := World None plain_doc [].

(** A directory whose only console snippet has no number in its name. *)
Definition unnumbered_dir : gmap str str :=
  list_to_map
    [ (txt "example-console.md", console_snippet "GET /");
      (txt "example1-curl.md", txt "old curl");
      (txt "notes.md", txt "keep me") ].

Definition unnumbered_world : world := World (Some unnumbered_dir) one_tabset_doc [].

Abbreviation unnumbered_run :=
  (regenerate_from_snippets sample_converter (txt "doc") (Some [txt "curl"]) unnumbered_world).

(** ** Notions used to state the renumbering of include paths *)

(** The pattern of renumber_includes, for the pattern of the parent name. *)
Definition include_pattern (parent : regex) (old_num : N) : regex :=
  seqs [ Group 1 (seqs [lit (txt "_snippets/"); parent; lit (txt "/example")]);
         lit (str_of_N old_num);
         Group 2 (seqs [Chr (CChar "-"); plus true (Chr CWord); lit (txt ".md")]) ].

(** A document name whose characters stand for themselves in a pattern,
    dots apart. *)
Definition plain_name (name : str) : bool :=
  forallb (fun c => ascii_eqb c "." || negb (is_special c)) name.

(** * Properties *)

(** ** The converter client *)

Section converter_facts.

Variable run_converter : list str -> str -> proc_result.

Lemma convert_single_language_lang lang content complete converter_lang :
  fst (fst (convert_single_language run_converter lang content complete converter_lang)) = lang.
Proof.
  unfold convert_single_language.
  destruct (run_converter _ _); reflexivity.
Qed.

(** The tasks that the first loop adds are the supported languages. *)
Lemma prepare_tasks_tasks content complete languages results errors tasks :
  snd (prepare_tasks content complete languages results errors tasks) =
  tasks ++ flat_map
    (fun lang =>
       match table_get LANGUAGE_MAP (lower lang) with
       | Some converter_lang => [(lang, content, complete, converter_lang)]
       | None => []
       end) languages.
Proof.
  revert results errors tasks.
  induction languages as [|lang more IH]; intros results errors tasks;
    cbn [prepare_tasks flat_map].
  - by rewrite app_nil_r.
  - destruct (table_get LANGUAGE_MAP (lower lang)) as [cl|]; rewrite IH.
    + by rewrite <- app_assoc.
    + reflexivity.
Qed.

Lemma prepare_tasks_none_supported content complete languages results errors tasks :
  existsb supported languages = false ->
  snd (prepare_tasks content complete languages results errors tasks) = tasks.
Proof.
  intros Hnone. rewrite prepare_tasks_tasks.
  induction languages as [|lang more IH]; cbn [existsb flat_map] in *.
  - apply app_nil_r.
  - apply orb_false_iff in Hnone as [Hl Hmore].
    unfold supported in Hl.
    destruct (table_get LANGUAGE_MAP (lower lang)); [discriminate|].
    cbn [app]. by apply IH.
Qed.

Lemma prepare_tasks_some_supported content complete languages results errors tasks :
  existsb supported languages = true ->
  0 < length (snd (prepare_tasks content complete languages results errors tasks)).
Proof.
  intros Hsome. rewrite prepare_tasks_tasks, length_app.
  induction languages as [|lang more IH]; cbn [existsb flat_map] in *; [discriminate|].
  unfold supported in Hsome at 1.
  destruct (table_get LANGUAGE_MAP (lower lang)); cbn [orb] in *.
  - rewrite length_app. cbn [length]. lia.
  - specialize (IH Hsome). cbn [app]. lia.
Qed.

(** The pool refuses to start exactly when there is no task. *)
Lemma max_workers_not_positive tasks :
  Qle_bool (max_workers tasks) 0 = (length tasks =? 0).
Proof.
  unfold max_workers, Qle_bool. simpl.
  destruct tasks as [|t tasks]; simpl; [reflexivity|].
  apply Z.leb_gt. lia.
Qed.

(** The keys of the results after the first loop: those it started with
    and the unsupported languages. *)
Lemma prepare_tasks_results content complete languages results errors tasks l :
  is_Some (fst (fst (prepare_tasks content complete languages results errors tasks)) !! l) <->
  is_Some (results !! l) \/ (In l languages /\ supported l = false).
Proof.
  revert results errors tasks.
  induction languages as [|lang more IH]; intros results errors tasks;
    cbn [prepare_tasks In].
  - tauto.
  - unfold supported at 1.
    destruct (table_get LANGUAGE_MAP (lower lang)) as [cl|] eqn:Hget; rewrite IH.
    + split; [intros [?|[? ?]]; auto|].
      intros [?|[[<-|?] Hs]]; auto.
      unfold supported in Hs. rewrite Hget in Hs. discriminate.
    + rewrite lookup_insert_is_Some.
      split.
      * intros [[<-|[_ ?]]|[? ?]]; auto.
        right. split; [by left|]. unfold supported. by rewrite Hget.
      * intros [?|[[<-|?] Hs]]; auto.
        destruct (decide (lang = l)) as [->|Hne]; auto.
Qed.

Lemma collect_results tasks results errors l :
  is_Some (fst (fold_left (collect run_converter) tasks (results, errors)) !! l) <->
  is_Some (results !! l) \/ In l (map (fun t => fst (fst (fst t))) tasks).
Proof.
  revert results errors.
  induction tasks as [|[[[lang content] complete] cl] more IH]; intros results errors; simpl.
  - tauto.
  - pose proof (convert_single_language_lang lang content complete cl) as Hl.
    destruct (convert_single_language run_converter lang content complete cl)
      as [[lang' code'] error]. simpl in Hl. subst lang'.
    rewrite IH, lookup_insert_is_Some.
    split.
    + intros [[<-|[_ ?]]|?]; auto.
    + intros [?|[<-|?]]; auto.
      destruct (decide (lang = l)) as [->|Hne]; auto.
Qed.

End converter_facts.

(** C8: convert_console returns (with one results entry per requested
    language) only when some requested language is supported; when none is,
    max_workers is zero and the call raises ValueError, whatever errors the
    first loop collected. *)
Theorem convert_console_returns_only_with_a_supported_language
    (run_converter : list str -> str -> proc_result)
    (content : str) (language : lang_arg) (complete : bool) :
  let languages := requested_languages language in
  (existsb supported languages = false ->
     Qeq (max_workers (snd (prepare_tasks content complete languages ∅ ∅ []))) 0 /\
     convert_console run_converter content language complete = Raise ValueError)
  /\
  (existsb supported languages = true ->
     exists results errors,
       convert_console run_converter content language complete = Ok (results, errors) /\
       forall l, is_Some (results !! l) <-> In l languages).
Proof.
  intros languages. unfold convert_console. fold languages.
  pose proof (prepare_tasks_results content complete languages ∅ ∅ []) as Hres.
  pose proof (prepare_tasks_tasks content complete languages ∅ ∅ []) as Htasks.
  split; intros Hsup.
  - pose proof (prepare_tasks_none_supported content complete languages ∅ ∅ [] Hsup) as Hnone.
    destruct (prepare_tasks content complete languages ∅ ∅ []) as [[results errors] tasks].
    cbn [snd] in Hnone. subst tasks. split; reflexivity.
  - pose proof (prepare_tasks_some_supported content complete languages ∅ ∅ [] Hsup) as Hsome.
    destruct (prepare_tasks content complete languages ∅ ∅ []) as [[results errors] tasks].
    cbn [fst snd] in Hsome, Hres, Htasks.
    rewrite max_workers_not_positive.
    destruct (Nat.eqb_spec (length tasks) 0) as [Hz|_]; [lia|].
    destruct (fold_left (collect run_converter) tasks (results, errors))
      as [results' errors'] eqn:Hfold.
    exists results', errors'. split; [reflexivity|].
    intros l.
    pose proof (collect_results run_converter tasks results errors l) as Hcol.
    rewrite Hfold in Hcol. cbn [fst] in Hcol. rewrite Hcol, Hres, Htasks.
    rewrite lookup_empty, in_map_iff.
    split.
    + intros [[Hbad|[Hin _]]|[t [Hl Ht]]]; [by destruct Hbad|done|].
      apply in_flat_map in Ht as [lang [Hlang Ht]].
      destruct (table_get LANGUAGE_MAP (lower lang)); cbn [In] in Ht; [|done].
      destruct Ht as [<-|[]]. cbn [fst] in Hl. by subst.
    + intros Hin. destruct (supported l) eqn:Hl; [right|by left; right].
      unfold supported in Hl.
      destruct (table_get LANGUAGE_MAP (lower l)) as [cl|] eqn:Hget; [|discriminate].
      exists (l, content, complete, cl). split; [reflexivity|].
      apply in_flat_map. exists l. split; [done|]. rewrite Hget. by left.
Qed.

(** C8 at the language list [cobol]: no language is supported and the call
    raises ValueError. *)
Lemma convert_console_returns_only_with_a_supported_language_witness :
  existsb supported [txt "cobol"] = false /\
  convert_console sample_converter (txt "GET /") (LangMany [txt "cobol"]) true =
    Raise ValueError.
Proof.
  split; [reflexivity|].
  apply (proj1 (convert_console_returns_only_with_a_supported_language
                  sample_converter (txt "GET /") (LangMany [txt "cobol"]) true)).
  reflexivity.
Defined.

(** C6, at the language list [cobol]: the call raises ValueError; it returns
    neither the unsupported-language error nor the console text. *)
Theorem convert_console_unsupported_alone_raises
    (run_converter : list str -> str -> proc_result) (content : str) (complete : bool) :
  convert_console run_converter content (LangMany [txt "cobol"]) complete = Raise ValueError
  /\ convert_console run_converter content (LangOne (txt "cobol")) complete = Raise ValueError.
Proof. split; reflexivity. Qed.

(** ** Actions on the world *)

(** A run whose result is known is the pair of that result and its world. *)
Lemma returned_pair {A B} (p : A * B) (a : A) : fst p = a -> p = (a, snd p).
Proof. intros <-. apply surjective_pairing. Qed.

Lemma bind_ok {A B} (m : io A) (f : A -> io B) w b w' :
  bind m f w = (Ok b, w') ->
  exists a w1, m w = (Ok a, w1) /\ f a w1 = (Ok b, w').
Proof.
  unfold bind. destruct (m w) as [[a|e] w1]; [eauto|discriminate].
Qed.

Lemma lift_ok {A} (r : result A) w a w' :
  lift r w = (Ok a, w') -> r = Ok a /\ w' = w.
Proof. unfold lift. intros [= -> ->]. done. Qed.

Lemma ret_ok {A} (x : A) w a w' :
  ret x w = (Ok a, w') -> a = x /\ w' = w.
Proof. unfold ret. intros [= -> ->]. done. Qed.

(** Inversion of a run that returned: binds, lifts and returns are taken
    apart until none is left among the hypotheses. *)
Ltac io_inv :=
  repeat match goal with
  | H : bind _ _ _ = (Ok _, _) |- _ =>
      let a := fresh "a" in let w := fresh "w" in
      let H1 := fresh "Hrun" in let H2 := fresh "Hrun" in
      apply bind_ok in H as (a & w & H1 & H2)
  | H : lift _ _ = (Ok _, _) |- _ =>
      let H1 := fresh "Hval" in
      apply lift_ok in H as [H1 ->]
  | H : ret _ _ = (Ok _, _) |- _ =>
      let H1 := fresh "Hval" in
      apply ret_ok in H as [H1 ->]
  end.

Lemma write_file_ok name content w u w' :
  write_file name content w = (Ok u, w') ->
  exists d, w_dir w = Some d /\ creatable name = true /\
    w' = World (Some (<[name := content]> d)) (w_doc w) (w_log w ++ [WroteSnippet name]).
Proof.
  unfold write_file. destruct (w_dir w) as [d|]; [|discriminate].
  destruct (creatable name); [|discriminate].
  intros [= _ <-]. eauto.
Qed.

Lemma write_snippet_file_ok n lang c a w u w' :
  write_snippet_file n lang c a w = (Ok u, w') ->
  exists d, w_dir w = Some d /\ creatable (snippet_filename n lang) = true /\
    w' = World (Some (<[snippet_filename n lang := snippet_content lang c a]> d))
               (w_doc w) (w_log w ++ [WroteSnippet (snippet_filename n lang)]).
Proof. apply write_file_ok. Qed.

Lemma flat_map_of_map {A B C} (f : B -> list C) (g : A -> B) (l : list A) :
  flat_map f (map g l) = flat_map (fun x => f (g x)) l.
Proof. induction l as [|x l IH]; cbn [map flat_map]; [done|by rewrite IH]. Qed.

Lemma snippets_written_map names :
  snippets_written (map WroteSnippet names) = names.
Proof.
  unfold snippets_written. rewrite flat_map_of_map.
  induction names as [|x names IH]; cbn [flat_map app]; [done|by rewrite IH].
Qed.

Lemma snippets_written_app l1 l2 :
  snippets_written (l1 ++ l2) = snippets_written l1 ++ snippets_written l2.
Proof. unfold snippets_written. apply flat_map_app. Qed.

(** The loop that writes the language snippets of one example. *)
Lemma write_languages_ok n converted_codes languages w u w' d :
  for_each languages (fun lang =>
    c <- lift (converted_code converted_codes lang) ;;
    write_snippet_file n lang c []) w = (Ok u, w') ->
  w_dir w = Some d ->
  w_doc w' = w_doc w /\
  w_log w' = w_log w ++ map (fun lang => WroteSnippet (snippet_filename n lang)) languages /\
  exists d', w_dir w' = Some d' /\
    forall name, is_Some (d' !! name) <->
      is_Some (d !! name) \/ In name (map (snippet_filename n) languages).
Proof.
  revert w d. induction languages as [|lang more IH]; intros w d Hrun Hd;
    cbn [for_each] in Hrun.
  - io_inv. cbn [map In]. rewrite app_nil_r. repeat split; eauto.
    exists d. split; [done|]. tauto.
  - io_inv.
    match goal with H : write_snippet_file _ _ _ _ _ = _ |- _ =>
      apply write_snippet_file_ok in H as (d1 & Hd1 & _ & ->) end.
    rewrite Hd in Hd1. injection Hd1 as <-.
    match goal with H : for_each _ _ _ = _ |- _ =>
      eapply IH in H as (Hdoc & Hlog & d' & Hd' & Hdom); [|reflexivity] end.
    cbn [w_doc w_log] in *. rewrite Hdoc, Hlog, <- app_assoc.
    repeat split. exists d'. split; [done|].
    intros name. rewrite Hdom, lookup_insert_is_Some. cbn [map In].
    destruct (decide (snippet_filename n lang = name)) as [->|Hne]; [tauto|].
    split; [intros [[?|[_ ?]]|?]|intros [?|[?|?]]]; tauto.
Qed.

Lemma fold_left_app_acc {A} (f : A -> str) (items : list A) (acc : str) :
  fold_left (fun tabs x => tabs ++ f x) items acc = acc ++ flat_map f items.
Proof.
  revert acc. induction items as [|x more IH]; intros acc; cbn [fold_left flat_map].
  - by rewrite app_nil_r.
  - by rewrite IH, <- app_assoc.
Qed.

Section run_facts.

Variable run_converter : list str -> str -> proc_result.

(** What a call of create_snippets_and_tabs that returns has done: the
    tab-set it returns, the document untouched, and the files written. *)
Lemma create_snippets_and_tabs_ok parent n code0 ann languages first kind w tabs errs w' :
  create_snippets_and_tabs run_converter parent n code0 ann languages first kind w
    = (Ok (tabs, errs), w') ->
  tabs = tabset_open ++
         flat_map render_tab (snippet_tabs parent n kind (languages_or_default languages)) ++
         txt "::::"
  /\ w_doc w' = w_doc w
  /\ w_log w' = w_log w ++
       map WroteSnippet (job_files (languages_or_default languages) (Job kind n first code0 ann)).
Proof.
  unfold create_snippets_and_tabs. intros Hrun.
  apply bind_ok in Hrun as (code_to_convert & w1 & Hfirst & Hrun).
  apply bind_ok in Hrun as ([converted_codes conversion_errors] & w2 & Hconv & Hrun).
  apply lift_ok in Hconv as [Hconv ->].
  apply bind_ok in Hrun as (u & w3 & Hlangs & Hrun).
  apply ret_ok in Hrun as [Hval ->]. apply pair_equal_spec in Hval as [-> ->].
  assert (exists d1, w_dir w1 = Some d1 /\ w_doc w1 = w_doc w /\
            w_log w1 = w_log w ++ map WroteSnippet
              ((if is_esql kind then [snippet_filename n (txt "esql")] else []) ++
               [snippet_filename n (txt "console")])) as (d1 & Hd1 & Hdoc1 & Hlog1).
  { destruct kind; io_inv;
      repeat match goal with H : write_snippet_file _ _ _ _ _ = _ |- _ =>
        apply write_snippet_file_ok in H as (? & ? & _ & ->) end;
      cbn [w_dir w_doc w_log is_esql app map]; eexists; repeat split.
    by rewrite <- app_assoc. }
  eapply write_languages_ok in Hlangs as (Hdoc3 & Hlog3 & _); [|exact Hd1].
  split; [|split].
  - rewrite fold_left_app_acc. unfold snippet_tabs.
    destruct kind; cbn [is_esql app flat_map]; rewrite flat_map_of_map;
      unfold render_tab, include_tab, include_body; cbn [t_label t_sync t_body];
      rewrite <- ?app_assoc; reflexivity.
  - congruence.
  - rewrite Hlog3, Hlog1, <- app_assoc. f_equal. unfold job_files.
    cbn [j_kind j_num]. rewrite !map_app, <- app_assoc. f_equal.
    cbn [map app]. f_equal. by rewrite map_map.
Qed.

(** The loop of process_file over the blocks of one kind. *)
Lemma run_jobs_ok parent languages jobs w tabs any_errors w' :
  run_jobs run_converter parent languages jobs w = (Ok (tabs, any_errors), w') ->
  tabs = map (fun j => tabset_open ++
                flat_map render_tab
                  (snippet_tabs parent (j_num j) (j_kind j) (languages_or_default languages)) ++
                txt "::::") jobs
  /\ w_doc w' = w_doc w
  /\ w_log w' = w_log w ++
       map WroteSnippet (flat_map (job_files (languages_or_default languages)) jobs).
Proof.
  revert w tabs any_errors. induction jobs as [|j more IH]; intros w tabs any_errors Hrun;
    cbn [run_jobs] in Hrun.
  - apply ret_ok in Hrun as [Hval ->]. apply pair_equal_spec in Hval as [-> ->].
    cbn [map flat_map]. by rewrite app_nil_r.
  - apply bind_ok in Hrun as ([tab errors] & w1 & Hjob & Hrun).
    apply bind_ok in Hrun as ([tabs' any'] & w2 & Hmore & Hrun).
    apply ret_ok in Hrun as [Hval ->]. apply pair_equal_spec in Hval as [-> ->].
    apply create_snippets_and_tabs_ok in Hjob as (-> & Hdoc1 & Hlog1).
    apply IH in Hmore as (-> & Hdoc2 & Hlog2).
    destruct j as [kind n first code0 ann]. cbn [j_num j_kind] in *.
    split; [reflexivity|]. split; [congruence|].
    rewrite Hlog2, Hlog1, <- app_assoc. f_equal.
    cbn [flat_map]. by rewrite map_app.
Qed.

End run_facts.

(** ** Example numbers in create mode *)

Lemma enumerated_jobs {A B} (mk : nat * A -> job) (f : nat -> B) (g : job -> B)
    (blocks : list A) (start : nat) :
  (forall i x, g (mk (i, x)) = f i) ->
  map g (map mk (combine (seq start (length blocks)) blocks)) =
  map f (seq start (length blocks)).
Proof.
  intros Hmk. revert start.
  induction blocks as [|x more IH]; intros start; cbn [length seq combine map].
  - reflexivity.
  - by rewrite Hmk, IH.
Qed.

Lemma enumerated_blocks {A B} (mk : nat * A -> job) (f : A -> B) (g : job -> B)
    (blocks : list A) (start : nat) :
  (forall i x, g (mk (i, x)) = f x) ->
  map g (map mk (combine (seq start (length blocks)) blocks)) = map f blocks.
Proof.
  intros Hmk. revert start.
  induction blocks as [|x more IH]; intros start; cbn [length seq combine map].
  - reflexivity.
  - by rewrite Hmk, IH.
Qed.

Lemma map_seq_shift (k start len : nat) :
  map (fun i => N.of_nat (k + i + 1)) (seq start len) = map N.of_nat (seq (k + start + 1) len).
Proof.
  revert start. induction len as [|len IH]; intros start; cbn [seq map]; [done|].
  f_equal. rewrite IH. by replace (k + S start + 1) with (S (k + start + 1)) by lia.
Qed.

Lemma console_jobs_nums console_blocks :
  map j_num (console_jobs console_blocks) = map N.of_nat (seq 1 (length console_blocks)).
Proof.
  unfold console_jobs, enumerate0.
  rewrite (enumerated_jobs _ (fun i => N.of_nat (0 + i + 1)) j_num).
  - apply map_seq_shift.
  - by intros i [c a].
Qed.

Lemma esql_jobs_nums console_blocks esql_blocks :
  map j_num (esql_jobs console_blocks esql_blocks) =
  map N.of_nat (seq (length console_blocks + 1) (length esql_blocks)).
Proof.
  unfold esql_jobs, enumerate0.
  rewrite (enumerated_jobs _ (fun i => N.of_nat (length console_blocks + i + 1)) j_num).
  - rewrite map_seq_shift. by rewrite Nat.add_0_r.
  - by intros i [c a].
Qed.

Lemma length_console_jobs console_blocks :
  length (console_jobs console_blocks) = length console_blocks.
Proof.
  unfold console_jobs, enumerate0.
  by rewrite length_map, length_combine, length_seq, Nat.min_id.
Qed.


(** ** Tab-sets *)

Section tab_facts.

Variable run_converter : list str -> str -> proc_result.

Lemma add_language_tab_raise converted_codes languages e :
  fold_left (add_language_tab converted_codes) languages (Raise e) = Raise e.
Proof. induction languages as [|lang more IH]; cbn [fold_left add_language_tab]; done. Qed.

Lemma add_language_tabs_ok converted_codes languages acc tabs :
  fold_left (add_language_tab converted_codes) languages (Ok acc) = Ok tabs ->
  tabs = acc ++
    flat_map (fun lang => build_language_tab lang (default [] (converted_codes !! lang)))
             languages.
Proof.
  revert acc. induction languages as [|lang more IH]; intros acc; cbn [fold_left flat_map].
  - intros [= <-]. by rewrite app_nil_r.
  - unfold add_language_tab at 2, converted_code.
    destruct (converted_codes !! lang) as [c|].
    + intros Hfold. apply IH in Hfold as ->. by rewrite <- app_assoc.
    + by rewrite add_language_tab_raise.
Qed.

Lemma build_language_tab_render lang c :
  build_language_tab lang c =
  [nl] ++ render_tab
    (Tab (lang_label lang) lang
         (inline_body (if str_eqb lang (txt "curl") then txt "bash" else lang)
                      (snd (snippet_code_inline lang c)) [])).
Proof.
  reflexivity.
Qed.

Lemma language_tabs_render (converted_codes : gmap str str) (languages : list str) :
  flat_map (fun lang => build_language_tab lang (default [] (converted_codes !! lang)))
           languages =
  flat_map (fun t => [nl] ++ render_tab t)
    (map (fun lang =>
            Tab (lang_label lang) lang
                (inline_body (if str_eqb lang (txt "curl") then txt "bash" else lang)
                   (snd (snippet_code_inline lang (default [] (converted_codes !! lang))))
                   []))
         languages).
Proof. by rewrite flat_map_of_map. Qed.

(** The inline tab-set of a call of wrap_in_tabs that returns. *)
Lemma wrap_in_tabs_ok code0 ann languages first kind tabs errs :
  wrap_in_tabs run_converter code0 ann languages first kind = Ok (tabs, errs) ->
  exists converted_codes,
    tabs = tabset_open ++
           render_inline (inline_tabs code0 ann kind (languages_or_default languages)
                                      converted_codes) ++
           [nl] ++ txt "::::".
Proof.
  unfold wrap_in_tabs.
  destruct kind; cbn [prepare_code_for_conversion is_esql];
    (destruct (convert_console _ _ _ _) as [[converted_codes conversion_errors]|]; [|done]);
    (destruct (fold_left _ _ _) as [tabs'|] eqn:Hfold; [|done]);
    intros [= <- <-]; exists converted_codes;
    apply add_language_tabs_ok in Hfold as ->;
    rewrite language_tabs_render;
    unfold inline_tabs, render_inline; cbn [app flat_map];
    match goal with |- context [flat_map ?f (map ?g ?l)] =>
      generalize (flat_map f (map g l)); intros more_tabs end;
    unfold render_tab, inline_body; cbn [t_label t_sync t_body truthy];
    repeat (rewrite <- app_assoc || rewrite <- app_comm_cons || rewrite app_nil_l);
    reflexivity.
Qed.

End tab_facts.

(** ** The scan of a text and the replacement of its matches *)

Lemma flat_map_filter {A B} (p : A -> bool) (f : A -> B) (l : list A) :
  flat_map (fun x => if p x then [f x] else []) l = map f (List.filter p l).
Proof.
  induction l as [|x l IH]; cbn [flat_map List.filter map]; [done|].
  destruct (p x); cbn [app map]; by rewrite IH.
Qed.

(** extract_code_blocks returns the blocks of the matches that
    replace_blocks replaces. *)
Lemma extract_code_blocks_hits markdown_text k :
  extract_code_blocks markdown_text k = map block_of_hit (replaced_hits k markdown_text).
Proof.
  unfold extract_code_blocks, replaced_hits.
  rewrite <- flat_map_filter. f_equal.
  destruct k; reflexivity.
Qed.

Lemma match_at_start r pos rest h :
  match_at r pos rest = Some h -> h_start h = pos.
Proof.
  unfold match_at. destruct (rmatch _ _ _); [|done]. by intros [= <-].
Qed.

Lemma match_at_text r pos rest h :
  match_at r pos rest = Some h -> h_text h = take (length (h_text h)) rest.
Proof.
  unfold match_at. destruct (rmatch _ _ _) as [st|]; [|done]. intros [= <-].
  cbn [h_text]. rewrite length_take.
  destruct (Nat.le_ge_cases (m_pos st - pos) (length rest)) as [Hle|Hge].
  - by rewrite Nat.min_l.
  - rewrite Nat.min_r by done. by rewrite !take_ge.
Qed.

(** Every match found from position [pos] on, with [skip] characters still
    to pass, starts at [pos + skip] or later. *)
Lemma segments_starts r rest : forall pos skip h,
  In h (hits (segments r pos rest skip)) -> pos + skip <= h_start h.
Proof.
  induction rest as [|c rest IH]; intros pos skip h.
  - destruct skip; cbn [segments hits flat_map]; [|done].
    destruct (match_at r pos []) as [h0|] eqn:Hm; [|done].
    cbn [flat_map app In]. intros [<-|[]].
    apply match_at_start in Hm. lia.
  - destruct skip as [|n]; cbn [segments].
    + destruct (match_at r pos (c :: rest)) as [h0|] eqn:Hm.
      * unfold hits. cbn [flat_map app In]. intros [<-|Hin].
        { apply match_at_start in Hm. lia. }
        destruct (length (h_text h0)) as [|n]; [cbn [flat_map app] in Hin|];
          apply IH in Hin; lia.
      * unfold hits. cbn [flat_map app]. intros Hin. apply IH in Hin. lia.
    + intros Hin. apply IH in Hin. lia.
Qed.

Lemma take_add {A} (m k : nat) (s : list A) :
  take (m + k) s = take m s ++ take k (drop m s).
Proof.
  revert s. induction m as [|m IH]; intros [|x s]; cbn [Nat.add take drop app]; try done.
  - by rewrite take_nil.
  - by rewrite IH.
Qed.

(** Passing [m] characters that no edit touches. *)
Lemma splice_skip pos m s edits :
  Forall (fun e => pos + m <= edit_start e) edits ->
  splice pos s edits = take m s ++ splice (pos + m) (drop m s) edits.
Proof.
  destruct edits as [|[[start len] replacement] more]; cbn [splice]; intros Hall.
  - by rewrite take_drop.
  - apply Forall_inv in Hall. unfold edit_start in Hall. cbn [fst] in Hall.
    replace (start - pos) with (m + (start - (pos + m))) by lia.
    rewrite take_add, <- app_assoc, drop_drop.
    do 5 f_equal. lia.
Qed.

Section replace_facts.

Variable keep_original : hit -> bool.

Lemma edits_of_starts r pos rest skip replacements :
  Forall (fun e => pos + skip <= edit_start e)
         (edits_of keep_original (segments r pos rest skip) replacements).
Proof.
  apply List.Forall_forall. intros [[start len] replacement] Hin.
  unfold edits_of in Hin. apply in_combine_l in Hin.
  apply in_map_iff in Hin as (h & Hspan & Hin).
  apply filter_In in Hin as [Hin _].
  apply segments_starts in Hin. unfold span in Hspan.
  injection Hspan as <- _. done.
Qed.

(** A replacement run that returns has spliced its replacements into the
    text, each at the span of its match, and left the rest as it was. *)
Lemma replace_hits_splice r rest : forall pos skip replacements out left_over,
  replace_hits keep_original (segments r pos rest skip) replacements = Ok (out, left_over) ->
  out = splice (pos + skip) (drop skip rest)
               (edits_of keep_original (segments r pos rest skip) replacements).
Proof.
  induction rest as [|c rest IH]; intros pos skip replacements out left_over.
  - destruct skip; cbn [segments]; [|by intros [= <- _]].
    destruct (match_at r pos []) as [h|] eqn:Hm; [|by intros [= <- _]].
    pose proof (match_at_text _ _ _ _ Hm) as Htext. rewrite take_nil in Htext.
    cbn [replace_hits]. unfold edits_of, hits. cbn [flat_map app List.filter].
    destruct (keep_original h); cbn [negb map combine].
    + cbn [group]. rewrite Htext. by intros [= <- _].
    + destruct replacements as [|rep more]; [done|]. intros [= <- _].
      cbn [combine splice]. unfold span. rewrite Htext.
      cbn [length]. rewrite !drop_nil, take_nil. by rewrite app_nil_r.
  - destruct skip as [|n]; cbn [segments].
    2:{ intros Hrun. apply IH in Hrun as ->. by rewrite Nat.add_succ_r. }
    rewrite Nat.add_0_r. cbn [drop].
    destruct (match_at r pos (c :: rest)) as [h|] eqn:Hm.
    2:{ cbn [replace_hits].
        destruct (replace_hits _ _ _) as [[out' left']|] eqn:Hrun; [|done].
        intros [= <- _]. apply IH in Hrun as ->.
        rewrite Nat.add_0_r. cbn [drop].
        unfold edits_of, hits. cbn [flat_map app].
        rewrite (splice_skip pos 1).
        - by rewrite Nat.add_1_r.
        - rewrite Nat.add_1_r.
          pose proof (edits_of_starts r (S pos) rest 0 replacements) as Hall.
          by rewrite Nat.add_0_r in Hall. }
    pose proof (match_at_text _ _ _ _ Hm) as Htext.
    pose proof (match_at_start _ _ _ _ Hm) as Hstart.
    assert (Htail : forall tail_replacements out' left',
      replace_hits keep_original
        (match length (h_text h) with
         | O => Raw c :: segments r (S pos) rest 0
         | S n => segments r (S pos) rest n
         end) tail_replacements = Ok (out', left') ->
      h_text h ++ out' =
      splice pos (c :: rest)
        (edits_of keep_original (match length (h_text h) with
                   | O => Raw c :: segments r (S pos) rest 0
                   | S n => segments r (S pos) rest n
                   end) tail_replacements)).
    { intros tail_replacements out' left'.
      destruct (length (h_text h)) as [|n] eqn:Hlen.
      - rewrite Htext. cbn [take app replace_hits].
        destruct (replace_hits _ _ _) as [[out'' left'']|] eqn:Hrun; [|done].
        intros [= <- _]. apply IH in Hrun as ->.
        rewrite Nat.add_0_r. cbn [drop].
        unfold edits_of, hits. cbn [flat_map app].
        rewrite (splice_skip pos 1).
        + by rewrite Nat.add_1_r.
        + rewrite Nat.add_1_r.
          pose proof (edits_of_starts r (S pos) rest 0 tail_replacements) as Hall.
          by rewrite Nat.add_0_r in Hall.
      - intros Hrun. apply IH in Hrun as ->.
        rewrite (splice_skip pos (S n)).
        + rewrite Htext. cbn [drop]. by rewrite Nat.add_succ_r.
        + rewrite Nat.add_succ_r. apply (edits_of_starts r (S pos) rest n). }
    cbn [replace_hits].
    unfold edits_of at 1, hits. cbn [flat_map app List.filter].
    fold (hits (match length (h_text h) with
                | O => Raw c :: segments r (S pos) rest 0
                | S n => segments r (S pos) rest n
                end)).
    destruct (keep_original h); cbn [negb].
    + destruct (replace_hits _ _ _) as [[out' left']|] eqn:Hrun; [|done].
      intros [= <- _]. cbn [group]. by apply Htail in Hrun.
    + destruct replacements as [|rep more_replacements]; [done|].
      destruct (replace_hits _ _ _) as [[out' left']|] eqn:Hrun; [|done].
      intros [= <- _]. cbn [map combine splice]. unfold span at 1.
      rewrite Hstart, Nat.sub_diag. cbn [take app Nat.add].
      f_equal. apply Htail in Hrun.
      fold (edits_of keep_original (match length (h_text h) with
                      | O => Raw c :: segments r (S pos) rest 0
                      | S n => segments r (S pos) rest n
                      end) more_replacements).
      rewrite (splice_skip pos (length (h_text h))) in Hrun.
      * rewrite <- Htext in Hrun. by apply app_inv_head in Hrun.
      * destruct (length (h_text h)) as [|n].
        -- unfold edits_of, hits. cbn [flat_map app].
           pose proof (edits_of_starts r (S pos) rest 0 more_replacements) as Hall.
           rewrite Nat.add_0_r in *.
           eapply Forall_impl; [exact Hall|]. cbn beta. intros; lia.
        -- rewrite Nat.add_succ_r. apply (edits_of_starts r (S pos) rest n).
Qed.

(** A replacement run draws one replacement for every match that is not
    kept: with enough of them it returns and hands back the others, with
    too few it raises StopIteration. *)
Lemma replace_hits_consumes segs : forall replacements,
  let needed := length (List.filter (fun h => negb (keep_original h)) (hits segs)) in
  (needed <= length replacements ->
     exists out, replace_hits keep_original segs replacements
                 = Ok (out, drop needed replacements))
  /\ (length replacements < needed ->
     replace_hits keep_original segs replacements = Raise StopIteration).
Proof.
  induction segs as [|[c|h] segs IH]; intros replacements; cbn zeta.
  - cbn [hits flat_map List.filter length replace_hits drop].
    split; [eauto|lia].
  - unfold hits. cbn [flat_map app replace_hits]. fold (hits segs).
    destruct (IH replacements) as [Hok Hbad]. split.
    + intros Hle. destruct (Hok Hle) as [out ->]. eauto.
    + intros Hlt. by rewrite (Hbad Hlt).
  - unfold hits. cbn [flat_map app replace_hits List.filter]. fold (hits segs).
    destruct (keep_original h); cbn [negb length].
    + destruct (IH replacements) as [Hok Hbad]. split.
      * intros Hle. destruct (Hok Hle) as [out ->]. eauto.
      * intros Hlt. by rewrite (Hbad Hlt).
    + destruct replacements as [|rep more]; cbn [length drop].
      * split; [lia|done].
      * destruct (IH more) as [Hok Hbad]. split.
        -- intros Hle. destruct Hok as [out ->]; [lia|]. eauto.
        -- intros Hlt. rewrite Hbad; [done|lia].
Qed.

End replace_facts.

(** One pass of replace_blocks with exactly one replacement per block
    extracted from the text it works on. *)
Lemma replace_pass_exact (k : block_kind) (markdown_text : str) (replacements : list str) :
  length replacements = length (extract_code_blocks markdown_text k) ->
  replace_hits (keeps_original k) (scan (block_pattern k) markdown_text) replacements =
  Ok (splice 0 markdown_text (combine (map span (replaced_hits k markdown_text)) replacements),
      []).
Proof.
  intros Hlen. rewrite extract_code_blocks_hits, length_map in Hlen.
  destruct (replace_hits_consumes (keeps_original k) (scan (block_pattern k) markdown_text)
              replacements) as [Hok _].
  cbn zeta in Hok. fold (re_finditer (block_pattern k) markdown_text) in Hok.
  fold (replaced_hits k markdown_text) in Hok.
  destruct Hok as [out Hrun]; [lia|].
  rewrite Hrun. rewrite drop_ge by lia.
  unfold scan in Hrun. apply replace_hits_splice in Hrun as ->.
  reflexivity.
Qed.

(** C10 (amended): the console pass of replace_blocks replaces the spans of
    exactly the matches whose blocks extract_code_blocks returns for the
    document (result blocks are in neither), the i-th span by the i-th
    replacement, and uses up one replacement per extracted block; the esql
    pass does the same for the esql blocks of the text that the console pass
    returns.  Everything outside the replaced spans is unchanged. *)
Theorem replace_blocks_follows_extraction
    (markdown_text : str) (console_replacements esql_replacements : list str) :
  length console_replacements = length (extract_code_blocks markdown_text Console) ->
  let text1 :=
    splice 0 markdown_text
      (combine (map span (replaced_hits Console markdown_text)) console_replacements) in
  length esql_replacements = length (extract_code_blocks text1 ESQL) ->
  extract_code_blocks markdown_text Console =
    map block_of_hit (replaced_hits Console markdown_text)
  /\ extract_code_blocks text1 ESQL = map block_of_hit (replaced_hits ESQL text1)
  /\ replace_console_blocks markdown_text console_replacements = Ok (text1, [])
  /\ replace_esql_blocks text1 esql_replacements =
       Ok (splice 0 text1 (combine (map span (replaced_hits ESQL text1)) esql_replacements), [])
  /\ replace_blocks markdown_text console_replacements esql_replacements =
       Ok (splice 0 text1 (combine (map span (replaced_hits ESQL text1)) esql_replacements)).
Proof.
  intros Hconsole text1 Hesql.
  pose proof (replace_pass_exact Console markdown_text console_replacements Hconsole) as Hc.
  pose proof (replace_pass_exact ESQL text1 esql_replacements Hesql) as He.
  fold text1 in Hc.
  split; [apply extract_code_blocks_hits|].
  split; [apply extract_code_blocks_hits|].
  split; [exact Hc|]. split; [exact He|].
  unfold replace_blocks, replace_console_blocks, replace_esql_blocks.
  change (replace_hits is_result_block) with (replace_hits (keeps_original Console)).
  rewrite Hc.
  change (replace_hits (fun _ => false)) with (replace_hits (keeps_original ESQL)).
  by rewrite He.
Qed.

(** With fewer replacements than extracted blocks a pass raises
    StopIteration. *)
Lemma replace_pass_exhausted (k : block_kind) (markdown_text : str) (replacements : list str) :
  length replacements < length (extract_code_blocks markdown_text k) ->
  replace_hits (keeps_original k) (scan (block_pattern k) markdown_text) replacements =
  Raise StopIteration.
Proof.
  intros Hlen. rewrite extract_code_blocks_hits, length_map in Hlen.
  by apply replace_hits_consumes.
Qed.

(** C7 (amended): a tab-set, in snippet mode and in inline mode, lists its
    tabs in this order: the ES|QL tab when the block is an esql block, the
    Console tab, then one tab per requested language in the order
    requested.  The keys are esql and console, and for a language tab the
    lower-case language identifier in snippet mode and the identifier as it
    was given in inline mode. *)
Theorem tab_sets_list_their_tabs_in_order
    (run_converter : list str -> str -> proc_result)
    (parent_filename : str) (example_num : N) (code0 annotations : str)
    (languages : option (list str)) (is_first_block : bool) (kind : block_kind) :
  let langs := languages_or_default languages in
  (forall w tabs errs w',
     create_snippets_and_tabs run_converter parent_filename example_num code0 annotations
       languages is_first_block kind w = (Ok (tabs, errs), w') ->
     tabs = tabset_open ++
            flat_map render_tab (snippet_tabs parent_filename example_num kind langs) ++
            txt "::::")
  /\ (forall tabs errs,
     wrap_in_tabs run_converter code0 annotations languages is_first_block kind
       = Ok (tabs, errs) ->
     exists converted_codes,
       tabs = tabset_open ++
              render_inline (inline_tabs code0 annotations kind langs converted_codes) ++
              [nl] ++ txt "::::")
  /\ tab_heads (snippet_tabs parent_filename example_num kind langs)
     = expected_heads lower kind langs
  /\ (forall converted_codes,
     tab_heads (inline_tabs code0 annotations kind langs converted_codes)
     = expected_heads (fun lang => lang) kind langs).
Proof.
  intros langs. split; [|split; [|split]].
  - intros w tabs errs w' Hrun.
    by apply create_snippets_and_tabs_ok in Hrun as (-> & _ & _).
  - intros tabs errs Hrun. by apply wrap_in_tabs_ok in Hrun.
  - unfold tab_heads, snippet_tabs, expected_heads.
    rewrite map_app. destruct kind; cbn [is_esql map app t_label t_sync];
      by rewrite map_map.
  - intros converted_codes. unfold tab_heads, inline_tabs, expected_heads.
    rewrite map_app. destruct kind; cbn [is_esql map app t_label t_sync];
      by rewrite map_map.
Qed.

(** ** Regeneration *)

Lemma glob_names (pre suf : str) (d : gmap str str) (name : str) :
  In name (glob pre suf d) <->
  is_Some (d !! name) /\ glob_match pre suf name = true.
Proof.
  unfold glob. rewrite filter_In, in_map_iff. split.
  - intros [[[name' content] [Hname Hin]] Hmatch]. cbn [fst] in Hname. subst name'.
    apply list_elem_of_In, elem_of_map_to_list in Hin. split; [eauto|done].
  - intros [[content Hsome] Hmatch]. split; [|done].
    exists (name, content). split; [done|].
    by apply list_elem_of_In, elem_of_map_to_list.
Qed.

Lemma unlink_ok name w u w' :
  unlink name w = (Ok u, w') ->
  exists d, w_dir w = Some d /\ is_Some (d !! name) /\
    w' = World (Some (delete name d)) (w_doc w) (w_log w ++ [Unlinked name]).
Proof.
  unfold unlink. destruct (w_dir w) as [d|]; [|done].
  destruct (d !! name) eqn:Hname; [|done].
  intros [= _ <-]. exists d. eauto.
Qed.

(** The cleaning loop removes the listed files and nothing else. *)
Lemma unlink_all_ok names : forall w u w' d,
  for_each names unlink w = (Ok u, w') ->
  w_dir w = Some d ->
  w_doc w' = w_doc w /\
  exists d', w_dir w' = Some d' /\
    forall name, is_Some (d' !! name) <-> is_Some (d !! name) /\ ~ In name names.
Proof.
  induction names as [|x names IH]; intros w u w' d Hrun Hd; cbn [for_each] in Hrun.
  - apply ret_ok in Hrun as [_ ->]. split; [done|]. exists d. split; [done|].
    intros name. cbn [In]. tauto.
  - apply bind_ok in Hrun as (u1 & w1 & Hun & Hrun).
    apply unlink_ok in Hun as (d1 & Hd1 & _ & ->).
    rewrite Hd in Hd1. injection Hd1 as <-.
    eapply IH in Hrun as (Hdoc & d' & Hd' & Hdom); [|reflexivity].
    split; [done|]. exists d'. split; [done|].
    intros name. rewrite Hdom, lookup_delete_is_Some. cbn [In].
    split; [intros [[? ?] ?]|intros [? ?]]; repeat split; auto; intros [?|?]; auto.
Qed.

Section regenerate_facts.

Variable run_converter : list str -> str -> proc_result.

(** One round of the regeneration loop adds the console snippet and the
    language snippets of its example number. *)
Lemma regenerate_snippet_ok target_langs n console_code annotations w e w' d :
  regenerate_snippet run_converter target_langs n console_code annotations w = (Ok e, w') ->
  w_dir w = Some d ->
  w_doc w' = w_doc w /\
  exists d', w_dir w' = Some d' /\
    forall name, is_Some (d' !! name) <->
      is_Some (d !! name) \/
      In name (map (snippet_filename n) (txt "console" :: target_langs)).
Proof.
  unfold regenerate_snippet. intros Hrun Hd.
  apply bind_ok in Hrun as (u & w1 & Hconsole & Hrun).
  apply bind_ok in Hrun as ([converted_codes conversion_errors] & w2 & Hconv & Hrun).
  apply lift_ok in Hconv as [_ ->].
  apply bind_ok in Hrun as (u' & w3 & Hlangs & Hrun).
  apply ret_ok in Hrun as [_ ->].
  apply write_snippet_file_ok in Hconsole as (d1 & Hd1 & _ & ->).
  rewrite Hd in Hd1. injection Hd1 as <-.
  eapply write_languages_ok in Hlangs as (Hdoc & _ & d' & Hd' & Hdom); [|reflexivity].
  split; [done|]. exists d'. split; [done|].
  intros name. rewrite Hdom, lookup_insert_is_Some. cbn [map In].
  destruct (decide (snippet_filename n (txt "console") = name)) as [->|Hne]; [tauto|].
  split; [intros [[?|[_ ?]]|?]|intros [?|[?|?]]]; tauto.
Qed.

(** The regeneration loop over the console snippets numbered from
    [start] on. *)
Lemma regenerate_loop_ok target_langs data : forall start w e w' d,
  for_each_flag (combine (map N.of_nat (seq start (length data))) data)
    (fun '(new_num, (console_code, annotations)) =>
       regenerate_snippet run_converter target_langs new_num console_code annotations) w
    = (Ok e, w') ->
  w_dir w = Some d ->
  w_doc w' = w_doc w /\
  exists d', w_dir w' = Some d' /\
    forall name, is_Some (d' !! name) <->
      is_Some (d !! name) \/
      In name (flat_map (fun n => map (snippet_filename (N.of_nat n))
                                      (txt "console" :: target_langs))
                        (seq start (length data))).
Proof.
  induction data as [|[console_code annotations] data IH]; intros start w e w' d Hrun Hd;
    cbn [length seq map combine for_each_flag] in Hrun.
  - apply ret_ok in Hrun as [_ ->]. split; [done|]. exists d. split; [done|].
    intros name. cbn [length seq flat_map In]. tauto.
  - apply bind_ok in Hrun as (e1 & w1 & Hone & Hrun).
    apply bind_ok in Hrun as (e2 & w2 & Hmore & Hrun).
    apply ret_ok in Hrun as [_ ->].
    eapply regenerate_snippet_ok in Hone as (Hdoc1 & d1 & Hd1 & Hdom1); [|exact Hd].
    eapply IH in Hmore as (Hdoc2 & d2 & Hd2 & Hdom2); [|exact Hd1].
    split; [congruence|]. exists d2. split; [done|].
    intros name. rewrite Hdom2, Hdom1. cbn [length seq flat_map].
    rewrite in_app_iff. tauto.
Qed.

End regenerate_facts.


(** ** The matcher *)

Lemma ascii_eqb_refl c : ascii_eqb c c = true.
Proof. apply Ascii.eqb_refl. Qed.

Lemma ascii_eqb_eq a b : ascii_eqb a b = true <-> a = b.
Proof. apply Ascii.eqb_eq. Qed.

Lemma startswith_app s rest : startswith (s ++ rest) s = true.
Proof.
  induction s as [|c s IH]; cbn [app startswith]; [done|].
  by rewrite ascii_eqb_refl.
Qed.

(** A literal matches the text it spells and nothing else. *)
Lemma rmatch_lit l : forall pos rest caps k,
  rmatch (lit l) (MState pos (l ++ rest) caps) k = k (MState (pos + length l) rest caps).
Proof.
  induction l as [|c l IH]; intros pos rest caps k; cbn [lit fold_right rmatch app length].
  - by rewrite Nat.add_0_r.
  - cbn [m_rest m_pos m_caps cmatch]. rewrite ascii_eqb_refl.
    fold (lit l). rewrite IH. by rewrite Nat.add_succ_r.
Qed.

Lemma rmatch_lit_fail l : forall st k,
  startswith (m_rest st) l = false -> rmatch (lit l) st k = None.
Proof.
  induction l as [|c l IH]; intros [pos rest caps] k; cbn [lit fold_right rmatch m_rest].
  - done.
  - destruct rest as [|x rest]; [done|]. cbn [startswith cmatch m_pos m_caps].
    destruct (ascii_eqb c x); cbn [andb]; [|done].
    fold (lit l). intros Hs. by apply IH.
Qed.

(** Two continuations that agree give the same match. *)
Lemma star_loop_ext (body : mstate -> cont -> option mstate) greedy :
  (forall st k1 k2, (forall st', k1 st' = k2 st') -> body st k1 = body st k2) ->
  forall fuel st k1 k2, (forall st', k1 st' = k2 st') ->
    star_loop body greedy fuel st k1 = star_loop body greedy fuel st k2.
Proof.
  intros Hbody. induction fuel as [|fuel IH]; intros st k1 k2 Hk; cbn [star_loop].
  - apply Hk.
  - rewrite (Hk st).
    rewrite (Hbody st _ (fun st' =>
      if m_pos st <? m_pos st' then star_loop body greedy fuel st' k2 else None)).
    + reflexivity.
    + intros st'. destruct (m_pos st <? m_pos st'); [by apply IH|done].
Qed.

Lemma rmatch_ext r : forall st k1 k2,
  (forall st', k1 st' = k2 st') -> rmatch r st k1 = rmatch r st k2.
Proof.
  induction r as [|cl|r1 IH1 r2 IH2|r1 IH1 r2 IH2|greedy r1 IH1|i r1 IH1| |ml];
    intros st k1 k2 Hk; cbn [rmatch].
  - apply Hk.
  - destruct (m_rest st); [done|]. destruct (cmatch cl a); [apply Hk|done].
  - apply IH1. intros st'. by apply IH2.
  - rewrite (IH1 st k1 k2 Hk), (IH2 st k1 k2 Hk). reflexivity.
  - by apply star_loop_ext.
  - apply IH1. intros st'. apply Hk.
  - destruct (m_pos st =? 0); [apply Hk|done].
  - destruct (m_rest st); [apply Hk|]. destruct (_ && _); [apply Hk|done].
Qed.

Lemma startswith_app_long p : forall s t,
  length p <= length s -> startswith (s ++ t) p = startswith s p.
Proof.
  induction p as [|x p IH]; intros s t Hlen; cbn [startswith]; [done|].
  destruct s as [|y s]; cbn [length] in Hlen; [lia|].
  cbn [app]. rewrite IH by lia. done.
Qed.

Lemma ltb_succ_add pos : (pos <? S pos) = true.
Proof. apply Nat.ltb_lt. lia. Qed.

Lemma rmatch_chr cl pos c rest caps (k : cont) :
  rmatch (Chr cl) (MState pos (c :: rest) caps) k =
  if cmatch cl c then k (MState (S pos) rest caps) else None.
Proof. reflexivity. Qed.

Lemma rmatch_chr_nil cl pos caps (k : cont) :
  rmatch (Chr cl) (MState pos [] caps) k = None.
Proof. reflexivity. Qed.

Lemma rmatch_seq r1 r2 st (k : cont) :
  rmatch (Seq r1 r2) st k = rmatch r1 st (fun st' => rmatch r2 st' k).
Proof. reflexivity. Qed.

Lemma rmatch_star greedy r st (k : cont) :
  rmatch (Star greedy r) st k =
  star_loop (rmatch r) greedy (S (length (m_rest st))) st k.
Proof. reflexivity. Qed.

Lemma rmatch_group i r st (k : cont) :
  rmatch (Group i r) st k =
  rmatch r st (fun st' => k (set_cap i (take (m_pos st' - m_pos st) (m_rest st)) st')).
Proof. reflexivity. Qed.

Lemma rmatch_eps st (k : cont) : rmatch Eps st k = k st.
Proof. reflexivity. Qed.

Lemma rmatch_alt r1 r2 st (k : cont) :
  rmatch (Alt r1 r2) st k =
  match rmatch r1 st k with Some res => Some res | None => rmatch r2 st k end.
Proof. reflexivity. Qed.

(** The lazy body of a block stops at the first closing fence. *)
Lemma lazy_body_stops body : forall pos caps fuel after (k : cont) r,
  fence_free body = true ->
  length body < fuel ->
  (forall st, closes_at (m_rest st) = false -> k st = None) ->
  k (MState (pos + length body) (nl :: fence ++ after) caps) = Some r ->
  star_loop (rmatch (Chr CAny)) false fuel
            (MState pos (body ++ nl :: fence ++ after) caps) k = Some r.
Proof.
  induction body as [|c body IH]; intros pos caps fuel after k r Hfree Hfuel Hfail Hend;
    (destruct fuel as [|fuel]; [cbn [length] in Hfuel; lia|]); cbn [star_loop app].
  - rewrite Nat.add_0_r in Hend. cbn [length app] in Hend. by rewrite Hend.
  - cbn [fence_free] in Hfree. apply andb_true_iff in Hfree as [Hhere Hfree].
    rewrite Hfail.
    2:{ cbn [m_rest]. unfold closes_at in *.
        change (c :: body ++ nl :: fence ++ after)
          with ((c :: body) ++ (nl :: fence) ++ after).
        rewrite app_assoc, startswith_app_long.
        - by apply negb_true_iff in Hhere.
        - rewrite length_app. cbn. lia. }
    rewrite rmatch_chr. cbn [cmatch m_pos]. rewrite ltb_succ_add.
    apply IH; [done|cbn [length] in Hfuel; lia|done|].
    cbn [length] in Hend. by rewrite Nat.add_succ_r in Hend.
Qed.

(** A greedy run of one class takes all of it when the match goes on from
    there. *)
Lemma greedy_class_all cl xs : forall pos caps fuel tail (k : cont) r,
  forallb (cmatch cl) xs = true ->
  stops cl tail = true ->
  length xs < fuel ->
  k (MState (pos + length xs) tail caps) = Some r ->
  star_loop (rmatch (Chr cl)) true fuel (MState pos (xs ++ tail) caps) k = Some r.
Proof.
  induction xs as [|x xs IH]; intros pos caps fuel tail k r Hall Hstop Hfuel Hend;
    (destruct fuel as [|fuel]; [cbn [length] in Hfuel; lia|]);
    cbn [star_loop app].
  - rewrite Nat.add_0_r in Hend. cbn [length] in Hend.
    destruct tail as [|c tail]; [by rewrite rmatch_chr_nil|].
    rewrite rmatch_chr.
    cbn [stops] in Hstop. apply negb_true_iff in Hstop. by rewrite Hstop.
  - cbn [forallb] in Hall. apply andb_true_iff in Hall as [Hx Hall].
    rewrite rmatch_chr, Hx. cbn [m_pos]. rewrite ltb_succ_add.
    rewrite (IH (S pos) caps fuel tail k r); [done|done|done|cbn [length] in Hfuel; lia|].
    cbn [length] in Hend. by rewrite Nat.add_succ_r in Hend.
Qed.

Lemma cmatch_no_nl c : cmatch no_nl c = negb (ascii_eqb c nl).
Proof. cbn [cmatch no_nl mem_char existsb]. by rewrite orb_false_r. Qed.

Lemma forallb_no_nl text :
  forallb (cmatch no_nl) text = forallb (fun c => negb (ascii_eqb c nl)) text.
Proof.
  induction text as [|c text IH]; cbn [forallb]; [done|].
  by rewrite cmatch_no_nl, IH.
Qed.

Ltac len := rewrite ?length_app; cbn [length]; lia.

(** A well-formed list line is matched whole. *)
Lemma numbered_item_matches item : forall pos caps tail (k : cont) r,
  valid_item item = true ->
  text_ends tail = true ->
  k (MState (pos + length (render_item item)) tail caps) = Some r ->
  rmatch numbered_item (MState pos (render_item item ++ tail) caps) k = Some r.
Proof.
  destruct item as [ds text]. intros pos caps tail k r Hvalid Htail Hend.
  unfold valid_item in Hvalid. cbn [fst snd] in Hvalid.
  apply andb_true_iff in Hvalid as [Hvalid Htext].
  apply andb_true_iff in Hvalid as [Hvalid Hsome].
  apply andb_true_iff in Hvalid as [Hds Hdigits].
  destruct ds as [|d ds]; [done|]. destruct text as [|t text]; [done|].
  cbn [forallb] in Hdigits, Htext.
  apply andb_true_iff in Hdigits as [Hd Hdigits].
  apply andb_true_iff in Htext as [Ht Htext].
  unfold render_item in *. cbn [fst snd] in *.
  unfold numbered_item, seqs, plus. cbn [fold_right app].
  rewrite !rmatch_seq, rmatch_chr. cbn [cmatch]. rewrite Hd.
  rewrite rmatch_star. rewrite <- app_assoc. cbn [app m_rest].
  erewrite greedy_class_all; [reflexivity|exact Hdigits|reflexivity|len|].
  rewrite !rmatch_seq, rmatch_chr. cbn [cmatch]. rewrite ascii_eqb_refl.
  rewrite !rmatch_seq, rmatch_chr. fold no_nl. rewrite cmatch_no_nl, Ht.
  rewrite rmatch_star. cbn [m_rest].
  erewrite greedy_class_all; [reflexivity| | |len|].
  - by rewrite forallb_no_nl.
  - destruct tail as [|c tail]; [done|]. cbn [stops text_ends] in *.
    rewrite cmatch_no_nl, Htail. done.
  - rewrite rmatch_eps, <- Hend. do 2 f_equal. len.
Qed.

Lemma digit_not_dot c : is_digit c = true -> ascii_eqb "."%char c = false.
Proof.
  intros Hd. destruct (ascii_eqb "."%char c) eqn:He; [|done].
  apply ascii_eqb_eq in He. subst c. discriminate.
Qed.

(** After the digits of a line that is no list line, the rest of the
    pattern of a list line fails. *)
Lemma digits_then_fail s : forall pos caps fuel (k : cont),
  item_rest_ok s = false ->
  star_loop (rmatch (Chr CDigit)) true fuel (MState pos s caps)
    (fun st => rmatch (Seq (Chr (CChar ".")) (Seq (plus true (Chr no_nl)) Eps)) st k) = None.
Proof.
  induction s as [|c s IH]; intros pos caps fuel k Hbad.
  - destruct fuel; cbn [star_loop]; by rewrite ?rmatch_seq, ?rmatch_chr_nil.
  - assert (rmatch (Seq (Chr (CChar ".")) (Seq (plus true (Chr no_nl)) Eps))
              (MState pos (c :: s) caps) k = None) as Hhere.
    { rewrite rmatch_seq, rmatch_chr. cbn [cmatch].
      cbn [item_rest_ok] in Hbad. destruct (is_digit c) eqn:Hd.
      - by rewrite digit_not_dot.
      - destruct (ascii_eqb "."%char c) eqn:Hdot; [|done].
        apply ascii_eqb_eq in Hdot. subst c.
        rewrite ascii_eqb_refl in Hbad. cbn [andb] in Hbad.
        unfold plus. rewrite !rmatch_seq.
        destruct s as [|c' s]; [by rewrite rmatch_chr_nil|].
        rewrite rmatch_chr, cmatch_no_nl. by rewrite Hbad. }
    destruct fuel as [|fuel]; cbn [star_loop]; [done|].
    rewrite rmatch_chr. cbn [cmatch m_pos].
    destruct (is_digit c) eqn:Hd; [|done].
    rewrite ltb_succ_add, IH; [done|].
    cbn [item_rest_ok] in Hbad. by rewrite Hd in Hbad.
Qed.

(** A text that begins with no list line is not matched as one. *)
Lemma numbered_item_fails s pos caps (k : cont) :
  starts_item s = false -> rmatch numbered_item (MState pos s caps) k = None.
Proof.
  intros Hbad. unfold numbered_item, seqs, plus. cbn [fold_right].
  rewrite !rmatch_seq.
  destruct s as [|c s]; [by rewrite rmatch_chr_nil|].
  rewrite rmatch_chr. cbn [cmatch starts_item] in *.
  destruct (is_digit c); [|done]. cbn [andb] in Hbad.
  rewrite rmatch_star. by apply digits_then_fail.
Qed.

Lemma length_more_lines_cons item items :
  length (more_lines (item :: items)) =
  S (length (render_item item) + length (more_lines items)).
Proof. unfold more_lines. cbn [flat_map length]. by rewrite length_app. Qed.

Lemma list_ends_text_ends rest : list_ends rest = true -> text_ends rest = true.
Proof.
  destruct rest as [|c s]; [done|]. cbn [list_ends text_ends].
  by intros [? _]%andb_true_iff.
Qed.

(** The greedy loop over the further lines of a list takes all of them. *)
Lemma list_tail_matches items : forall pos caps fuel rest (k : cont) r,
  forallb valid_item items = true ->
  list_ends rest = true ->
  length items < fuel ->
  k (MState (pos + length (more_lines items)) rest caps) = Some r ->
  star_loop (rmatch list_step) true fuel (MState pos (more_lines items ++ rest) caps) k
    = Some r.
Proof.
  induction items as [|item items IH]; intros pos caps fuel rest k r Hvalid Hends Hfuel Hend;
    (destruct fuel as [|fuel]; [cbn [length] in Hfuel; lia|]);
    cbn [star_loop more_lines flat_map app].
  - cbn [more_lines flat_map length] in Hend. rewrite Nat.add_0_r in Hend.
    unfold list_step. rewrite rmatch_seq.
    destruct rest as [|c s]; [by rewrite rmatch_chr_nil|].
    rewrite rmatch_chr. cbn [cmatch].
    destruct (ascii_eqb nl c); [|done].
    cbn [list_ends] in Hends. apply andb_true_iff in Hends as [_ Hs].
    apply negb_true_iff in Hs. by rewrite numbered_item_fails.
  - cbn [forallb] in Hvalid. apply andb_true_iff in Hvalid as [Hitem Hvalid].
    fold (more_lines items). unfold list_step at 1. rewrite rmatch_seq.
    rewrite rmatch_chr. cbn [cmatch]. rewrite ascii_eqb_refl.
    rewrite <- app_assoc.
    erewrite numbered_item_matches; [reflexivity|exact Hitem| |].
    + destruct items as [|item' items]; [|done].
      cbn [more_lines flat_map app]. by apply list_ends_text_ends.
    + cbn [m_pos].
      rewrite (proj2 (Nat.ltb_lt pos (S pos + length (render_item item)))) by lia.
      apply IH; [done|done|cbn [length] in Hfuel; lia|].
      rewrite <- Hend. do 2 f_equal.
      rewrite length_more_lines_cons. lia.
Qed.

Lemma render_list_cons item items :
  render_list (item :: items) = render_item item ++ more_lines items.
Proof.
  unfold render_list. revert item.
  induction items as [|item' items IH]; intros item.
  - cbn [map str_join]. by rewrite app_nil_r.
  - change (str_join nl (map render_item (item :: item' :: items)))
      with (render_item item ++ nl :: str_join nl (map render_item (item' :: items))).
    by rewrite IH.
Qed.

(** A well-formed numbered list is matched whole when what follows ends
    it; a text that begins with no list line is matched by no list. *)
Lemma numbered_list_matches item items pos caps rest (k : cont) r :
  forallb valid_item (item :: items) = true ->
  list_ends rest = true ->
  k (MState (pos + length (render_list (item :: items))) rest caps) = Some r ->
  rmatch numbered_list (MState pos (render_list (item :: items) ++ rest) caps) k = Some r.
Proof.
  intros Hvalid Hends Hend. rewrite render_list_cons in *.
  cbn [forallb] in Hvalid. apply andb_true_iff in Hvalid as [Hitem Hvalid].
  unfold numbered_list. rewrite rmatch_seq, <- app_assoc.
  erewrite numbered_item_matches; [reflexivity|exact Hitem| |].
  - destruct items as [|item' items]; [|done].
    cbn [more_lines flat_map app]. by apply list_ends_text_ends.
  - rewrite rmatch_star. fold list_step. cbn [m_rest].
    apply list_tail_matches; [done|done| |].
    + rewrite length_app.
      clear. induction items as [|i items IH]; [cbn; lia|].
      rewrite length_more_lines_cons. cbn [length]. lia.
    + rewrite <- Hend. do 2 f_equal. rewrite length_app. lia.
Qed.

Lemma numbered_list_fails s pos caps (k : cont) :
  starts_item s = false -> rmatch numbered_list (MState pos s caps) k = None.
Proof.
  intros Hbad. unfold numbered_list. rewrite rmatch_seq. by apply numbered_item_fails.
Qed.

(** ** Blocks and their annotations *)

Lemma block_pattern_closing k :
  block_pattern k =
  Seq (lit fence) (Seq (lit (kind_name k)) (Seq (Chr (CChar nl))
    (Seq (Group 1 (Star false (Chr CAny))) closing))).
Proof. reflexivity. Qed.

Lemma closing_fails st (k : cont) :
  closes_at (m_rest st) = false -> rmatch closing st k = None.
Proof.
  destruct st as [pos s caps]. unfold closing, seqs, closes_at.
  cbn [fold_right m_rest]. rewrite rmatch_seq.
  destruct s as [|c s]; [by rewrite rmatch_chr_nil|].
  rewrite rmatch_chr. cbn [cmatch startswith].
  destruct (ascii_eqb nl c); [|done]. cbn [andb]. intros Hs.
  rewrite rmatch_seq. by apply rmatch_lit_fail.
Qed.

(** The closing fence and the list after it. *)
Lemma closing_with_list item items rest pos caps :
  forallb valid_item (item :: items) = true ->
  list_ends rest = true ->
  rmatch closing
    (MState pos (nl :: fence ++ nl :: nl :: render_list (item :: items) ++ rest) caps) Some =
  Some (MState (pos + 6 + length (render_list (item :: items))) rest
               ((2, render_list (item :: items)) :: caps)).
Proof.
  intros Hvalid Hends.
  unfold closing, seqs, opt. cbn [fold_right].
  rewrite rmatch_seq, rmatch_chr. cbn [cmatch]. rewrite ascii_eqb_refl.
  rewrite rmatch_seq, rmatch_lit, rmatch_seq, rmatch_alt.
  rewrite !rmatch_seq, rmatch_chr. cbn [cmatch]. rewrite ascii_eqb_refl.
  rewrite !rmatch_seq, rmatch_chr. cbn [cmatch]. rewrite ascii_eqb_refl.
  rewrite !rmatch_seq, rmatch_group.
  erewrite numbered_list_matches; [reflexivity|exact Hvalid|exact Hends|].
  rewrite !rmatch_eps. unfold set_cap. cbn [m_pos m_rest m_caps].
  change (length fence) with 3.
  replace (_ - _) with (length (render_list (item :: items))) by lia.
  rewrite take_app_length. do 2 f_equal. lia.
Qed.

Lemma ascii_eqb_sym a b : ascii_eqb a b = ascii_eqb b a.
Proof. apply Ascii.eqb_sym. Qed.

(** The closing fence with no list after it. *)
Lemma closing_without_list after pos caps :
  starts_list after = false ->
  rmatch closing (MState pos (nl :: fence ++ after) caps) Some =
  Some (MState (pos + 4) after caps).
Proof.
  intros Hnone.
  unfold closing, seqs, opt. cbn [fold_right].
  rewrite rmatch_seq, rmatch_chr. cbn [cmatch]. rewrite ascii_eqb_refl.
  rewrite rmatch_seq, rmatch_lit, rmatch_seq, rmatch_alt.
  change (length fence) with 3.
  assert (rmatch
            (Seq (Chr (CChar nl)) (Seq (Chr (CChar nl)) (Seq (Group 2 numbered_list) Eps)))
            (MState (S pos + 3) after caps)
            (fun st' => rmatch Eps st' Some) = None) as ->.
  { rewrite rmatch_seq.
    destruct after as [|c1 after]; [by rewrite rmatch_chr_nil|].
    rewrite rmatch_chr. cbn [cmatch]. rewrite ascii_eqb_sym.
    destruct (ascii_eqb c1 nl) eqn:H1; [|done].
    rewrite rmatch_seq.
    destruct after as [|c2 after]; [by rewrite rmatch_chr_nil|].
    rewrite rmatch_chr. cbn [cmatch]. rewrite ascii_eqb_sym.
    destruct (ascii_eqb c2 nl) eqn:H2; [|done].
    cbn [starts_list] in Hnone. rewrite H1, H2 in Hnone. cbn [andb] in Hnone.
    rewrite rmatch_seq, rmatch_group. by apply numbered_list_fails. }
  rewrite !rmatch_eps. do 2 f_equal. lia.
Qed.

Ltac block_len :=
  unfold block_text;
  repeat first [rewrite length_app | progress cbn [length]];
  change (length fence) with 3; lia.

Ltac block_assoc :=
  unfold block_text; repeat first [rewrite <- app_assoc | rewrite <- app_comm_cons];
  reflexivity.

(** The pattern of a block at a block that a blank line and a numbered
    list follow: the match is the block and the list, group 1 the body and
    group 2 the list. *)
Lemma block_with_list_matches k body item items rest pos :
  fence_free body = true ->
  forallb valid_item (item :: items) = true ->
  list_ends rest = true ->
  match_at (block_pattern k) pos
    (block_text k body ++ nl :: nl :: render_list (item :: items) ++ rest) =
  Some (Hit pos (block_text k body ++ nl :: nl :: render_list (item :: items))
            [(2, render_list (item :: items)); (1, body)]).
Proof.
  intros Hfree Hvalid Hends.
  unfold match_at. rewrite block_pattern_closing.
  replace (block_text k body ++ nl :: nl :: render_list (item :: items) ++ rest)
    with (fence ++ kind_name k ++ nl :: body ++ nl :: fence ++
          nl :: nl :: render_list (item :: items) ++ rest)
    by block_assoc.
  rewrite rmatch_seq, rmatch_lit, rmatch_seq, rmatch_lit, rmatch_seq, rmatch_chr.
  cbn [cmatch]. rewrite ascii_eqb_refl.
  rewrite rmatch_seq, rmatch_group, rmatch_star. cbn [m_rest m_pos].
  rewrite (lazy_body_stops body _ _ _ (nl :: nl :: render_list (item :: items) ++ rest) _
             (MState (S (pos + length fence + length (kind_name k)) + length body + 6 +
                      length (render_list (item :: items)))
                     rest [(2, render_list (item :: items)); (1, body)])).
  - cbn [m_pos m_caps]. f_equal. f_equal.
    replace (_ - pos)
      with (length (block_text k body ++ nl :: nl :: render_list (item :: items)))
      by block_len.
    replace (fence ++ kind_name k ++ nl :: body ++ nl :: fence ++
             nl :: nl :: render_list (item :: items) ++ rest)
      with ((block_text k body ++ nl :: nl :: render_list (item :: items)) ++ rest)
      by block_assoc.
    apply take_app_length.
  - exact Hfree.
  - len.
  - intros st Hst. by apply closing_fails.
  - unfold set_cap. cbn [m_pos m_rest m_caps].
    rewrite closing_with_list by done.
    replace (_ - _) with (length body) by lia.
    by rewrite take_app_length.
Qed.

(** The pattern of a block at a block that no list follows. *)
Lemma block_without_list_matches k body after pos :
  fence_free body = true ->
  starts_list after = false ->
  match_at (block_pattern k) pos (block_text k body ++ after) =
  Some (Hit pos (block_text k body) [(1, body)]).
Proof.
  intros Hfree Hnone.
  unfold match_at. rewrite block_pattern_closing.
  replace (block_text k body ++ after)
    with (fence ++ kind_name k ++ nl :: body ++ nl :: fence ++ after)
    by block_assoc.
  rewrite rmatch_seq, rmatch_lit, rmatch_seq, rmatch_lit, rmatch_seq, rmatch_chr.
  cbn [cmatch]. rewrite ascii_eqb_refl.
  rewrite rmatch_seq, rmatch_group, rmatch_star. cbn [m_rest m_pos].
  rewrite (lazy_body_stops body _ _ _ after _
             (MState (S (pos + length fence + length (kind_name k)) + length body + 4)
                     after [(1, body)])).
  - cbn [m_pos m_caps]. f_equal. f_equal.
    replace (_ - pos) with (length (block_text k body))
      by block_len.
    replace (fence ++ kind_name k ++ nl :: body ++ nl :: fence ++ after)
      with (block_text k body ++ after)
      by block_assoc.
    apply take_app_length.
  - exact Hfree.
  - len.
  - intros st Hst. by apply closing_fails.
  - unfold set_cap. cbn [m_pos m_rest m_caps].
    rewrite closing_without_list by done.
    replace (_ - _) with (length body) by lia.
    by rewrite take_app_length.
Qed.

(** ** A match does not depend on where the text starts *)

Lemma star_loop_shift (body : mstate -> cont -> option mstate) greedy d :
  (forall st k1 k2, (forall st', k1 st' = k2 st') -> body st k1 = body st k2) ->
  (forall st k, body (shift d st) k = body st (fun st' => k (shift d st'))) ->
  forall fuel st k,
    star_loop body greedy fuel (shift d st) k =
    star_loop body greedy fuel st (fun st' => k (shift d st')).
Proof.
  intros Hext Hbody. induction fuel as [|fuel IH]; intros st k; cbn [star_loop]; [done|].
  rewrite Hbody.
  rewrite (Hext st _ (fun st' =>
    if m_pos st <? m_pos st'
    then star_loop body greedy fuel st' (fun st'' => k (shift d st'')) else None)).
  - reflexivity.
  - intros st'. cbn [shift m_pos].
    replace (m_pos st + d <? m_pos st' + d) with (m_pos st <? m_pos st').
    + destruct (m_pos st <? m_pos st'); [apply IH|done].
    + destruct (Nat.ltb_spec (m_pos st) (m_pos st')), (Nat.ltb_spec (m_pos st + d) (m_pos st' + d));
        (done || lia).
Qed.

Lemma rmatch_shift r : bol_free r = true -> forall d st k,
  rmatch r (shift d st) k = rmatch r st (fun st' => k (shift d st')).
Proof.
  induction r as [|cl|r1 IH1 r2 IH2|r1 IH1 r2 IH2|greedy r1 IH1|i r1 IH1| |ml];
    cbn [bol_free]; intros Hfree d st k.
  - reflexivity.
  - destruct st as [pos [|c rest] caps]; [done|].
    unfold shift. cbn [m_pos m_rest m_caps]. rewrite !rmatch_chr. reflexivity.
  - apply andb_true_iff in Hfree as [H1 H2].
    rewrite !rmatch_seq, IH1 by done. apply rmatch_ext. intros st'. by apply IH2.
  - apply andb_true_iff in Hfree as [H1 H2].
    rewrite !rmatch_alt, IH1, IH2 by done. reflexivity.
  - rewrite !rmatch_star. cbn [shift m_rest].
    apply (star_loop_shift (rmatch r1) greedy d).
    + intros. by apply rmatch_ext.
    + intros. by apply IH1.
  - rewrite !rmatch_group, IH1 by done. apply rmatch_ext. intros st'.
    unfold shift, set_cap. cbn [m_pos m_rest m_caps].
    by replace (m_pos st' + d - (m_pos st + d)) with (m_pos st' - m_pos st) by lia.
  - discriminate.
  - destruct st as [pos [|c rest] caps]; reflexivity.
Qed.

Lemma star_loop_map (body : mstate -> cont -> option mstate) greedy (f : mstate -> mstate) :
  (forall st k1 k2, (forall st', k1 st' = k2 st') -> body st k1 = body st k2) ->
  (forall st k, body st (fun st' => option_map f (k st')) = option_map f (body st k)) ->
  forall fuel st k,
    star_loop body greedy fuel st (fun st' => option_map f (k st')) =
    option_map f (star_loop body greedy fuel st k).
Proof.
  intros Hext Hbody. induction fuel as [|fuel IH]; intros st k; cbn [star_loop]; [done|].
  rewrite (Hext st _ (fun st' =>
    option_map f (if m_pos st <? m_pos st' then star_loop body greedy fuel st' k else None))).
  2:{ intros st'. destruct (m_pos st <? m_pos st'); [apply IH|done]. }
  rewrite Hbody.
  destruct greedy.
  - destruct (body st _); [done|]. reflexivity.
  - destruct (k st); [done|]. cbn [option_map]. reflexivity.
Qed.

(** What the continuation does to the final position can be done after
    the match. *)
Lemma rmatch_map r (f : mstate -> mstate) : forall st k,
  rmatch r st (fun st' => option_map f (k st')) = option_map f (rmatch r st k).
Proof.
  induction r as [|cl|r1 IH1 r2 IH2|r1 IH1 r2 IH2|greedy r1 IH1|i r1 IH1| |ml];
    intros st k.
  - reflexivity.
  - destruct st as [pos [|c rest] caps]; [done|].
    rewrite !rmatch_chr. by destruct (cmatch cl c).
  - rewrite !rmatch_seq. rewrite <- IH1. apply rmatch_ext. intros st'. apply IH2.
  - rewrite !rmatch_alt, IH1, IH2. by destruct (rmatch r1 st k).
  - rewrite !rmatch_star. apply star_loop_map.
    + intros. by apply rmatch_ext.
    + intros. apply IH1.
  - rewrite !rmatch_group. apply (IH1 st (fun st' => k (set_cap i _ st'))).
  - cbn [rmatch]. by destruct (m_pos st =? 0).
  - cbn [rmatch]. destruct (m_rest st); [done|]. by destruct (_ && _).
Qed.

Lemma match_at_shift r d pos rest :
  bol_free r = true ->
  match_at r (pos + d) rest = option_map (shift_hit d) (match_at r pos rest).
Proof.
  intros Hfree. unfold match_at.
  change (MState (pos + d) rest []) with (shift d (MState pos rest [])).
  rewrite rmatch_shift by done.
  change (fun st' => Some (shift d st')) with (fun st' => option_map (shift d) (Some st')).
  rewrite rmatch_map.
  destruct (rmatch r _ Some) as [st'|]; [|done].
  cbn [option_map shift m_pos m_caps]. unfold shift_hit. cbn [h_start h_text h_caps].
  by replace (m_pos st' + d - (pos + d)) with (m_pos st' - pos) by lia.
Qed.

Lemma segments_shift r d rest : bol_free r = true -> forall pos skip,
  segments r (pos + d) rest skip = map (shift_seg d) (segments r pos rest skip).
Proof.
  intros Hfree. induction rest as [|c rest IH]; intros pos skip.
  - destruct skip; cbn [segments map]; [|done].
    rewrite match_at_shift by done. by destruct (match_at r pos []).
  - destruct skip as [|n]; cbn [segments].
    + rewrite match_at_shift by done.
      destruct (match_at r pos (c :: rest)) as [h|]; cbn [option_map map shift_seg].
      * cbn [shift_hit h_text]. f_equal.
        destruct (length (h_text h)); cbn [map shift_seg]; [f_equal|]; apply (IH (S pos)).
      * f_equal. apply (IH (S pos)).
    + apply (IH (S pos)).
Qed.

Lemma extract_code_blocks_scan markdown_text k :
  extract_code_blocks markdown_text k = blocks_of k (scan (block_pattern k) markdown_text).
Proof. reflexivity. Qed.

Lemma blocks_of_shift k d segs : blocks_of k (map (shift_seg d) segs) = blocks_of k segs.
Proof.
  unfold blocks_of, hits.
  induction segs as [|[c|h] segs IH]; cbn [map shift_seg flat_map app]; [done|done|].
  rewrite IH. reflexivity.
Qed.

Lemma blocks_of_cons_found k h segs :
  blocks_of k (Found h :: segs) =
  (if is_esql k || negb (startswith (group 1 h) (txt "-result"))
   then [(group 1 h, match group 2 h with [] => [] | _ => strip (group 2 h) end)]
   else []) ++ blocks_of k segs.
Proof. reflexivity. Qed.

Lemma blocks_of_raw k pre segs : blocks_of k (map Raw pre ++ segs) = blocks_of k segs.
Proof.
  unfold blocks_of, hits. induction pre as [|c pre IH]; cbn [map app flat_map]; done.
Qed.

(** The blocks found from a position on are those of the text from there. *)
Lemma blocks_of_segments_from k pos rest :
  blocks_of k (segments (block_pattern k) pos rest 0) =
  extract_code_blocks rest k.
Proof.
  rewrite extract_code_blocks_scan. unfold scan.
  change pos with (0 + pos). rewrite segments_shift by (by destruct k).
  apply blocks_of_shift.
Qed.

Lemma block_pattern_needs_backtick k pos s :
  match s with [] => true | c :: _ => negb (ascii_eqb c "`") end = true ->
  match_at (block_pattern k) pos s = None.
Proof.
  intros Hs. unfold match_at. rewrite block_pattern_closing, rmatch_seq.
  rewrite rmatch_lit_fail; [done|]. cbn [m_rest].
  destruct s as [|c s]; [done|].
  change fence with ("`"%char :: txt "``"). cbn [startswith].
  rewrite ascii_eqb_sym. apply negb_true_iff in Hs. by rewrite Hs.
Qed.

(** A text without a backtick before a block is passed character by
    character. *)
Lemma segments_prefix k pre : forall pos s,
  no_backtick pre = true ->
  segments (block_pattern k) pos (pre ++ s) 0 =
  map Raw pre ++ segments (block_pattern k) (pos + length pre) s 0.
Proof.
  induction pre as [|c pre IH]; intros pos s Hpre; cbn [app map length].
  - by rewrite Nat.add_0_r.
  - cbn [no_backtick forallb] in Hpre. apply andb_true_iff in Hpre as [Hc Hpre].
    cbn [segments]. rewrite block_pattern_needs_backtick by done.
    f_equal. rewrite IH by done. by rewrite Nat.add_succ_r.
Qed.

Lemma segments_skip r xs : forall pos rest,
  segments r pos (xs ++ rest) (length xs) = segments r (pos + length xs) rest 0.
Proof.
  induction xs as [|x xs IH]; intros pos rest; cbn [app length].
  - by rewrite Nat.add_0_r.
  - cbn [segments]. rewrite IH. by rewrite Nat.add_succ_r.
Qed.

(** After a match the scan goes on behind it. *)
Lemma segments_found r pos matched rest h :
  match_at r pos (matched ++ rest) = Some h ->
  h_text h = matched ->
  matched <> [] ->
  segments r pos (matched ++ rest) 0 =
  Found h :: segments r (pos + length matched) rest 0.
Proof.
  intros Hm Htext Hne. destruct matched as [|m matched]; [done|].
  cbn [app segments]. cbn [app] in Hm. rewrite Hm, Htext. cbn [length].
  f_equal. rewrite segments_skip. by rewrite Nat.add_succ_r.
Qed.

Lemma render_list_not_empty item items :
  valid_item item = true -> exists c s, render_list (item :: items) = c :: s.
Proof.
  destruct item as [[|d ds] text]; [done|]. intros _.
  rewrite render_list_cons. unfold render_item. cbn [fst snd app]. eauto.
Qed.


(** ** The preflight check *)


(** ** The entries of convert_console *)

Lemma Ok_inj {A} (a b : A) : Ok a = Ok b -> a = b.
Proof. by intros [=]. Qed.

Section converter_entries.

Variable run_converter : list str -> str -> proc_result.
Variables (content : str) (complete : bool).

(** The first loop leaves for an unsupported language the console text and
    its error, and for a supported language what was there. *)
Lemma prepare_tasks_entries languages : forall results errors tasks l,
  let '(results', errors', _) := prepare_tasks content complete languages results errors tasks in
  match table_get LANGUAGE_MAP (lower l) with
  | None =>
      if bool_decide (l ∈ languages)
      then results' !! l = Some content /\
           errors' !! l = Some (txt "Unsupported language: " ++ l : str)
      else results' !! l = results !! l /\ errors' !! l = errors !! l
  | Some _ => results' !! l = results !! l /\ errors' !! l = errors !! l
  end.
Proof.
  induction languages as [|lang more IH]; intros results errors tasks l;
    cbn [prepare_tasks].
  - destruct (table_get LANGUAGE_MAP (lower l)); [done|].
    rewrite bool_decide_eq_false_2 by apply not_elem_of_nil. done.
  - destruct (table_get LANGUAGE_MAP (lower lang)) as [cl|] eqn:Hlang.
    + specialize (IH results errors (tasks ++ [(lang, content, complete, cl)]) l).
      destruct (prepare_tasks content complete more results errors _) as [[results' errors'] tasks'].
      destruct (table_get LANGUAGE_MAP (lower l)) as [cl'|] eqn:Hl; [done|].
      assert (lang <> l) as Hne by (intros ->; congruence).
      destruct (bool_decide_reflect (l ∈ more)) as [Hin|Hout].
      * rewrite bool_decide_eq_true_2 by (rewrite elem_of_cons; intuition congruence). done.
      * rewrite bool_decide_eq_false_2 by (rewrite elem_of_cons; intuition congruence). done.
    + specialize (IH (<[lang := content]> results)
                     (<[lang := txt "Unsupported language: " ++ lang]> errors) tasks l).
      destruct (prepare_tasks content complete more _ _ tasks) as [[results' errors'] tasks'].
      destruct (table_get LANGUAGE_MAP (lower l)) as [cl'|] eqn:Hl.
      * assert (lang <> l) as Hne by (intros ->; congruence).
        by rewrite !lookup_insert_ne in IH by done.
      * destruct (bool_decide_reflect (l ∈ more)) as [Hin|Hout].
        -- rewrite bool_decide_eq_true_2 by (rewrite elem_of_cons; intuition congruence). done.
        -- destruct (decide (lang = l)) as [->|Hne].
           ++ rewrite bool_decide_eq_true_2 by (rewrite elem_of_cons; intuition congruence).
              by rewrite !lookup_insert_eq in IH.
           ++ rewrite bool_decide_eq_false_2 by (rewrite elem_of_cons; intuition congruence).
              by rewrite !lookup_insert_ne in IH by done.
Qed.

(** The tasks of the supported languages among [languages]. *)
Lemma collect_entries languages : forall results errors l,
  let '(results', errors') :=
    fold_left (collect run_converter)
      (flat_map
         (fun lang =>
            match table_get LANGUAGE_MAP (lower lang) with
            | Some converter_lang => [(lang, content, complete, converter_lang)]
            | None => []
            end) languages)
      (results, errors) in
  match table_get LANGUAGE_MAP (lower l) with
  | Some converter_lang =>
      if bool_decide (l ∈ languages)
      then
        let '(_, code', error) :=
          convert_single_language run_converter l content complete converter_lang in
        results' !! l = Some code' /\
        errors' !! l = match recorded_error error with
                       | Some msg => Some msg
                       | None => errors !! l
                       end
      else results' !! l = results !! l /\ errors' !! l = errors !! l
  | None => results' !! l = results !! l /\ errors' !! l = errors !! l
  end.
Proof.
  induction languages as [|lang more IH]; intros results errors l; cbn [flat_map fold_left].
  - destruct (table_get LANGUAGE_MAP (lower l)); [|done].
    rewrite bool_decide_eq_false_2 by apply not_elem_of_nil. done.
  - destruct (table_get LANGUAGE_MAP (lower lang)) as [cl|] eqn:Hlang; cbn [app fold_left].
    + unfold collect at 2.
      pose proof (convert_single_language_lang run_converter lang content complete cl) as Hsame.
      destruct (convert_single_language run_converter lang content complete cl)
        as [[lang' code'] error] eqn:Hconv.
      cbn [fst] in Hsame. subst lang'.
      match goal with
      | |- context [fold_left _ _ (?r, ?e)] => specialize (IH r e l)
      end.
      destruct (fold_left _ _ _) as [results' errors'].
      destruct (table_get LANGUAGE_MAP (lower l)) as [cl'|] eqn:Hl.
      * destruct (decide (lang = l)) as [->|Hne].
        -- assert (cl' = cl) as -> by congruence.
           rewrite (bool_decide_eq_true_2 (l ∈ l :: more)) by (rewrite elem_of_cons; intuition congruence).
           rewrite Hconv.
           destruct (bool_decide_reflect (l ∈ more)) as [Hin|Hout].
           ++ rewrite Hconv in IH. destruct IH as [Hr He]. split; [done|].
              rewrite He. unfold recorded_error.
              destruct error as [msg|]; [|done].
              destruct (truthy msg); [done|done].
           ++ destruct IH as [Hr He]. rewrite Hr, He, lookup_insert_eq. split; [done|].
              unfold recorded_error. destruct error as [msg|]; [|done].
              destruct (truthy msg); [by rewrite lookup_insert_eq|done].
        -- destruct (bool_decide_reflect (l ∈ more)) as [Hin|Hout].
           ++ rewrite bool_decide_eq_true_2 by (rewrite elem_of_cons; intuition congruence).
              destruct (convert_single_language run_converter l content complete cl')
                as [[l' code''] error''].
              destruct IH as [Hr He]. split; [done|]. rewrite He.
              destruct (recorded_error error''); [done|].
              destruct error as [msg|]; [|done].
              destruct (truthy msg); [by rewrite lookup_insert_ne|done].
           ++ rewrite bool_decide_eq_false_2 by (rewrite elem_of_cons; intuition congruence).
              destruct IH as [Hr He]. rewrite Hr, He, lookup_insert_ne by done.
              split; [done|]. destruct error as [msg|]; [|done].
              destruct (truthy msg); [by rewrite lookup_insert_ne|done].
      * assert (lang <> l) as Hne by (intros ->; congruence).
        destruct IH as [Hr He]. rewrite Hr, He, lookup_insert_ne by done.
        split; [done|]. destruct error as [msg|]; [|done].
        destruct (truthy msg); [by rewrite lookup_insert_ne|done].
    + specialize (IH results errors l).
      destruct (fold_left _ _ _) as [results' errors'].
      destruct (table_get LANGUAGE_MAP (lower l)) as [cl'|] eqn:Hl; [|done].
      assert (lang <> l) as Hne by (intros ->; congruence).
      destruct (bool_decide_reflect (l ∈ more)) as [Hin|Hout].
      * rewrite bool_decide_eq_true_2 by (rewrite elem_of_cons; intuition congruence). done.
      * rewrite bool_decide_eq_false_2 by (rewrite elem_of_cons; intuition congruence). done.
Qed.

(** The entries of one requested language when convert_console returns. *)
Lemma convert_console_entry language results errors l :
  convert_console run_converter content language complete = Ok (results, errors) ->
  In l (requested_languages language) ->
  match table_get LANGUAGE_MAP (lower l) with
  | None =>
      results !! l = Some content /\
      errors !! l = Some (txt "Unsupported language: " ++ l : str)
  | Some converter_lang =>
      let '(_, code', error) :=
        convert_single_language run_converter l content complete converter_lang in
      results !! l = Some code' /\ errors !! l = recorded_error error
  end.
Proof.
  unfold convert_console. intros Hrun Hin.
  pose proof (prepare_tasks_entries (requested_languages language) ∅ ∅ [] l) as Hprep.
  pose proof (prepare_tasks_tasks content complete (requested_languages language) ∅ ∅ [])
    as Htasks.
  destruct (prepare_tasks content complete (requested_languages language) ∅ ∅ [])
    as [[results0 errors0] tasks].
  cbn [snd app] in Htasks. subst tasks.
  destruct (Qle_bool _ 0); [discriminate|].
  apply Ok_inj in Hrun.
  pose proof (collect_entries (requested_languages language) results0 errors0 l) as Hcol.
  rewrite Hrun in Hcol.
  destruct (table_get LANGUAGE_MAP (lower l)) as [cl|].
  - rewrite bool_decide_eq_true_2 in Hcol by (by apply list_elem_of_In).
    destruct (convert_single_language run_converter l content complete cl)
      as [[l' code'] error].
    destruct Hcol as [Hr He]. destruct Hprep as [_ He0].
    split; [done|]. rewrite He.
    destruct (recorded_error error); [done|]. by rewrite He0, lookup_empty.
  - rewrite bool_decide_eq_true_2 in Hprep by (by apply list_elem_of_In).
    destruct Hcol as [Hr He]. destruct Hprep as [Hr0 He0].
    split; congruence.
Qed.

(** convert_console returns when one requested language is supported. *)
Lemma convert_console_ok language :
  existsb supported (requested_languages language) = true ->
  exists results errors,
    convert_console run_converter content language complete = Ok (results, errors).
Proof.
  intros Hsup. unfold convert_console.
  pose proof (prepare_tasks_some_supported content complete (requested_languages language)
                ∅ ∅ [] Hsup) as Hsome.
  destruct (prepare_tasks content complete (requested_languages language) ∅ ∅ [])
    as [[results0 errors0] tasks].
  cbn [snd] in Hsome. rewrite max_workers_not_positive.
  destruct (Nat.eqb_spec (length tasks) 0) as [Hz|_]; [lia|].
  destruct (fold_left (collect run_converter) tasks (results0, errors0)) as [results errors].
  by exists results, errors.
Qed.

End converter_entries.

(** When convert_console returns, every requested language has its two
    entries: an unsupported language the console text as its code and the
    message Unsupported language with its name; a supported language the code
    and the error of its call of _convert_single_language, the error only
    when it is a message that is not empty. *)
Theorem convert_console_gives_every_language_its_entries
    (run_converter : list str -> str -> proc_result)
    (content : str) (language : lang_arg) (complete : bool)
    (results errors : gmap str str) (l : str) :
  convert_console run_converter content language complete = Ok (results, errors) ->
  In l (requested_languages language) ->
  match table_get LANGUAGE_MAP (lower l) with
  | None =>
      results !! l = Some content /\
      errors !! l = Some (txt "Unsupported language: " ++ l : str)
  | Some converter_lang =>
      let '(_, code', error) :=
        convert_single_language run_converter l content complete converter_lang in
      results !! l = Some code' /\ errors !! l = recorded_error error
  end.
Proof. apply convert_console_entry. Qed.

(** A converter that exits with a status other than zero and prints nothing
    but blanks on its standard error leaves no error: the message taken from
    the standard error is empty, convert_console does not record it, and the
    language has the console text as its code. *)
Theorem failure_with_blank_stderr_is_not_reported
    (run_converter : list str -> str -> proc_result)
    (content : str) (language : lang_arg) (complete : bool)
    (results errors : gmap str str) (l converter_lang stderr : str) :
  convert_console run_converter content language complete = Ok (results, errors) ->
  In l (requested_languages language) ->
  table_get LANGUAGE_MAP (lower l) = Some converter_lang ->
  run_converter (converter_cmd converter_lang complete) content = ExitedNonzero stderr ->
  strip stderr = [] ->
  results !! l = Some content /\ errors !! l = None.
Proof.
  intros Hrun Hin Hget Hexit Hblank.
  pose proof (convert_console_entry run_converter content complete language results errors l
                Hrun Hin) as Hentry.
  rewrite Hget in Hentry. unfold convert_single_language in Hentry.
  fold (converter_cmd converter_lang complete) in Hentry.
  rewrite Hexit, Hblank in Hentry. exact Hentry.
Qed.

(** A converter that is not installed leaves, for every supported language,
    the console text as its code and the message that names the package. *)
Theorem missing_converter_passes_the_console_text_through
    (run_converter : list str -> str -> proc_result)
    (content : str) (language : lang_arg) (complete : bool)
    (results errors : gmap str str) (l converter_lang : str) :
  convert_console run_converter content language complete = Ok (results, errors) ->
  In l (requested_languages language) ->
  table_get LANGUAGE_MAP (lower l) = Some converter_lang ->
  run_converter (converter_cmd converter_lang complete) content = NotFound ->
  results !! l = Some content /\
  errors !! l =
    Some (txt "es-request-converter not found (install: npm install -g @elastic/request-converter)"
            : str).
Proof.
  intros Hrun Hin Hget Hexit.
  pose proof (convert_console_entry run_converter content complete language results errors l
                Hrun Hin) as Hentry.
  rewrite Hget in Hentry. unfold convert_single_language in Hentry.
  fold (converter_cmd converter_lang complete) in Hentry.
  rewrite Hexit in Hentry. exact Hentry.
Qed.

(** ** What the matcher finds is a text of the pattern *)

Lemma star_loop_sound (r : regex) greedy :
  (forall st k res, rmatch r st k = Some res ->
     exists w st', lang r w /\ m_rest st = w ++ m_rest st' /\
                   m_pos st' = m_pos st + length w /\ k st' = Some res) ->
  forall fuel st k res,
    star_loop (rmatch r) greedy fuel st k = Some res ->
    exists w st', lang (Star greedy r) w /\ m_rest st = w ++ m_rest st' /\
                  m_pos st' = m_pos st + length w /\ k st' = Some res.
Proof.
  intros Hbody. induction fuel as [|fuel IH]; intros st k res Hrun; cbn [star_loop] in Hrun.
  - exists [], st. rewrite Nat.add_0_r. by repeat split; [constructor|..].
  - assert (rmatch r st (fun st' =>
              if m_pos st <? m_pos st' then star_loop (rmatch r) greedy fuel st' k else None)
            = Some res ->
            exists w st', lang (Star greedy r) w /\ m_rest st = w ++ m_rest st' /\
                          m_pos st' = m_pos st + length w /\ k st' = Some res) as Hagain.
    { intros Hr. apply Hbody in Hr as (w1 & st1 & Hw1 & Hrest1 & Hpos1 & Hk1).
      destruct (m_pos st <? m_pos st1); [|discriminate].
      apply IH in Hk1 as (w2 & st2 & Hw2 & Hrest2 & Hpos2 & Hk2).
      exists (w1 ++ w2), st2. split; [by constructor|].
      rewrite <- app_assoc, <- Hrest2, Hpos2, Hpos1, length_app.
      repeat split; [done|lia|done]. }
    assert (k st = Some res ->
            exists w st', lang (Star greedy r) w /\ m_rest st = w ++ m_rest st' /\
                          m_pos st' = m_pos st + length w /\ k st' = Some res) as Hstop.
    { intros Hk. exists [], st. rewrite Nat.add_0_r. by repeat split; [constructor|..]. }
    destruct greedy.
    + destruct (rmatch r st _) as [res'|] eqn:Hr; [|by apply Hstop].
      injection Hrun as ->. by apply Hagain.
    + destruct (k st) as [res'|] eqn:Hk; [|by apply Hagain].
      injection Hrun as ->. by apply Hstop.
Qed.

Lemma rmatch_sound r : forall st k res,
  rmatch r st k = Some res ->
  exists w st', lang r w /\ m_rest st = w ++ m_rest st' /\
                m_pos st' = m_pos st + length w /\ k st' = Some res.
Proof.
  induction r as [|cl|r1 IH1 r2 IH2|r1 IH1 r2 IH2|greedy r IH|i r IH| |multiline];
    intros st k res Hrun.
  - exists [], st. rewrite Nat.add_0_r. by repeat split; [constructor|..].
  - cbn [rmatch] in Hrun. destruct st as [pos [|c rest] caps]; cbn [m_rest] in *; [done|].
    destruct (cmatch cl c) eqn:Hc; [|done].
    exists [c], (MState (S pos) rest caps). cbn [m_rest m_pos app length].
    repeat split; [by constructor|lia|done].
  - rewrite rmatch_seq in Hrun.
    apply IH1 in Hrun as (w1 & st1 & Hw1 & Hrest1 & Hpos1 & Hrun).
    apply IH2 in Hrun as (w2 & st2 & Hw2 & Hrest2 & Hpos2 & Hrun).
    exists (w1 ++ w2), st2. split; [by constructor|].
    rewrite <- app_assoc, <- Hrest2, Hpos2, Hpos1, length_app.
    repeat split; [done|lia|done].
  - rewrite rmatch_alt in Hrun.
    destruct (rmatch r1 st k) as [res'|] eqn:Hr1.
    + injection Hrun as ->. apply IH1 in Hr1 as (w & st' & Hw & ?).
      exists w, st'. split; [by apply lang_alt_l|done].
    + apply IH2 in Hrun as (w & st' & Hw & ?).
      exists w, st'. split; [by apply lang_alt_r|done].
  - rewrite rmatch_star in Hrun. by eapply star_loop_sound.
  - rewrite rmatch_group in Hrun.
    apply IH in Hrun as (w & st' & Hw & Hrest & Hpos & Hrun).
    exists w, (set_cap i (take (m_pos st' - m_pos st) (m_rest st)) st').
    split; [by constructor|done].
  - cbn [rmatch] in Hrun. destruct (m_pos st =? 0); [|done].
    exists [], st. rewrite Nat.add_0_r. by repeat split; [constructor|..].
  - cbn [rmatch] in Hrun.
    assert (k st = Some res) as Hk.
    { destruct (m_rest st) as [|c rest]; [done|]. by destruct (_ && _). }
    exists [], st. rewrite Nat.add_0_r. by repeat split; [constructor|..].
Qed.

(** A match at a position is a text of the pattern at the start of the
    text from there on. *)
Lemma match_at_sound r pos rest h :
  match_at r pos rest = Some h ->
  exists rest', lang r (h_text h) /\ rest = h_text h ++ rest'.
Proof.
  unfold match_at. intros Hm.
  destruct (rmatch r (MState pos rest []) Some) as [st'|] eqn:Hrun; [|done].
  injection Hm as <-. cbn [h_text].
  apply rmatch_sound in Hrun as (w & st1 & Hw & Hrest & Hpos & Hk).
  injection Hk as ->. cbn [m_rest m_pos] in *.
  exists (m_rest st'). rewrite Hpos, Hrest.
  replace (pos + length w - pos) with (length w) by lia.
  by rewrite take_app_length.
Qed.

(** The text of a literal pattern is the literal. *)
Lemma lang_lit p : forall w, lang (lit p) w -> w = p.
Proof.
  induction p as [|c p IH]; intros w Hw; cbn [lit fold_right] in Hw.
  - by inversion Hw.
  - inversion Hw as [| |? ? w1 w2 Hc Hp| | | | | | |]; subst.
    inversion Hc as [|? ? Hcc| | | | | | | |]; subst.
    cbn [cmatch] in Hcc. apply ascii_eqb_eq in Hcc as ->.
    cbn [app]. f_equal. by apply IH.
Qed.

(** A scan with a pattern that matches nowhere passes the text character by
    character. *)
Lemma segments_no_match r (bad : str -> bool) :
  (forall pos rest, bad rest = false -> match_at r pos rest = None) ->
  (forall c s, bad (c :: s) = false -> bad s = false) ->
  forall s pos, bad s = false -> segments r pos s 0 = map Raw s.
Proof.
  intros Hnone Htail. induction s as [|c s IH]; intros pos Hs; cbn [segments map].
  - by rewrite Hnone.
  - rewrite Hnone by done. f_equal. apply IH. by eapply Htail.
Qed.

Lemma re_sub_no_match r tpl (bad : str -> bool) :
  (forall pos rest, bad rest = false -> match_at r pos rest = None) ->
  (forall c s, bad (c :: s) = false -> bad s = false) ->
  forall s, bad s = false -> re_sub r tpl s = s.
Proof.
  intros Hnone Htail s Hs. unfold re_sub, scan.
  rewrite (segments_no_match r bad Hnone Htail) by done.
  induction s as [|c s IH]; cbn [map flat_map app]; [done|].
  f_equal. apply IH. by eapply Htail.
Qed.

Lemma re_finditer_no_match r (bad : str -> bool) :
  (forall pos rest, bad rest = false -> match_at r pos rest = None) ->
  (forall c s, bad (c :: s) = false -> bad s = false) ->
  forall s, bad s = false -> re_finditer r s = [].
Proof.
  intros Hnone Htail s Hs. unfold re_finditer, scan.
  rewrite (segments_no_match r bad Hnone Htail) by done.
  unfold hits. clear Hs. induction s as [|c s IH]; cbn [map flat_map app]; done.
Qed.

Lemma re_search_no_match r (bad : str -> bool) :
  (forall pos rest, bad rest = false -> match_at r pos rest = None) ->
  (forall c s, bad (c :: s) = false -> bad s = false) ->
  forall s, bad s = false -> re_search r s = None.
Proof.
  intros Hnone Htail s. unfold re_search. generalize 0.
  induction s as [|c s IH]; intros pos Hs; cbn [search_from].
  - by rewrite Hnone.
  - rewrite Hnone by done. apply IH. by eapply Htail.
Qed.

(** A pattern all of whose texts hold a character matches nowhere in a text
    without it. *)
Lemma match_at_needs_char r c pos rest :
  (forall w, lang r w -> In c w) ->
  mem_char c rest = false ->
  match_at r pos rest = None.
Proof.
  intros Hneeds Hfree. destruct (match_at r pos rest) as [h|] eqn:Hm; [|done].
  apply match_at_sound in Hm as (rest' & Hw & ->).
  apply Hneeds in Hw. exfalso.
  unfold mem_char in Hfree. rewrite existsb_app in Hfree.
  apply orb_false_iff in Hfree as [Hfree _].
  assert (existsb (ascii_eqb c) (h_text h) = true) as Htrue.
  { apply existsb_exists. exists c. split; [done|apply ascii_eqb_refl]. }
  congruence.
Qed.

Lemma mem_char_tail c x s : mem_char c (x :: s) = false -> mem_char c s = false.
Proof. unfold mem_char. cbn [existsb]. by intros [_ ?]%orb_false_iff. Qed.

(** A pattern all of whose texts hold the text [p] matches nowhere in a
    text that does not contain [p]. *)
Lemma contains_mid p : forall a b, contains (a ++ p ++ b) p = true.
Proof.
  induction a as [|x a IH]; intros b; cbn [app].
  - destruct (p ++ b) as [|y s] eqn:Hpb; cbn [contains].
    + destruct p; [done|done].
    + rewrite <- Hpb, startswith_app. done.
  - cbn [contains]. rewrite IH. apply orb_true_r.
Qed.

Lemma contains_tail p x s : contains (x :: s) p = false -> contains s p = false.
Proof. cbn [contains]. by intros [_ ?]%orb_false_iff. Qed.

Lemma match_at_needs_text r p pos rest :
  (forall w, lang r w -> exists a b, w = a ++ p ++ b) ->
  contains rest p = false ->
  match_at r pos rest = None.
Proof.
  intros Hneeds Hfree. destruct (match_at r pos rest) as [h|] eqn:Hm; [|done].
  apply match_at_sound in Hm as (rest' & Hw & ->).
  apply Hneeds in Hw as (a & b & Heq).
  rewrite Heq, <- !app_assoc, contains_mid in Hfree. done.
Qed.

(** ** The formatters and strip_annotations *)

Lemma lang_seq_inv r1 r2 w :
  lang (Seq r1 r2) w -> exists w1 w2, w = w1 ++ w2 /\ lang r1 w1 /\ lang r2 w2.
Proof. inversion 1; subst; eauto. Qed.

Lemma lang_chr_inv cl w :
  lang (Chr cl) w -> exists c, w = [c] /\ cmatch cl c = true.
Proof. inversion 1; subst; eauto. Qed.

Lemma cmatch_char x c : cmatch (CChar x) c = true -> c = x.
Proof. cbn [cmatch]. by intros ->%ascii_eqb_eq. Qed.

Lemma lang_eps_inv w : lang Eps w -> w = [].
Proof. by inversion 1. Qed.

Lemma lang_eol_inv multiline w : lang (Eol multiline) w -> w = [].
Proof. by inversion 1. Qed.

Lemma lang_group_inv i r w : lang (Group i r) w -> lang r w.
Proof. by inversion 1. Qed.

(** Takes a text of a sequence apart. *)
Ltac lang_inv :=
  repeat match goal with
  | H : lang (Seq _ _) _ |- _ =>
      let w1 := fresh "w" in let w2 := fresh "w" in
      apply lang_seq_inv in H as (w1 & w2 & -> & ? & H)
  | H : lang (Chr (CChar _)) _ |- _ =>
      let c := fresh "c" in apply lang_chr_inv in H as (c & -> & ->%cmatch_char)
  | H : lang (Chr _) _ |- _ =>
      let c := fresh "c" in apply lang_chr_inv in H as (c & -> & H)
  | H : lang Eps _ |- _ => apply lang_eps_inv in H as ->
  | H : lang (Eol _) _ |- _ => apply lang_eol_inv in H as ->
  | H : lang (Group _ _) _ |- _ => apply lang_group_inv in H
  | H : lang (lit _) _ |- _ => apply lang_lit in H as ->
  end.

Lemma strip_annotations_patterns code0 :
  strip_annotations code0 = re_sub comment_pattern [] (re_sub marker_pattern [] code0).
Proof. reflexivity. Qed.

(** The four formatters that only rewrite the endpoint leave a code without
    the endpoint as it is. *)
Theorem formatters_keep_code_without_the_endpoint (code0 : str) :
  contains code0 localhost = false ->
  format_python code0 = code0 /\ format_ruby code0 = code0
  /\ format_javascript code0 = code0 /\ format_php code0 = code0.
Proof.
  intros Hfree.
  assert (forall r tpl,
            (forall w, lang r w -> exists a b, w = a ++ localhost ++ b) ->
            re_sub r tpl code0 = code0) as Hsame.
  { intros r tpl Hneeds.
    apply (re_sub_no_match r tpl (fun s => contains s localhost)); [| |done].
    - intros pos rest Hrest. by apply (match_at_needs_text r localhost).
    - intros c s. apply contains_tail. }
  split_and!.
  - apply Hsame. intros w Hw. apply lang_lit in Hw as ->.
    exists (txt "hosts=[" ++ [dq]), ([dq] ++ txt "]"). rewrite <- app_assoc. reflexivity.
  - apply Hsame. intros w Hw. cbn [seqs fold_right] in Hw. lang_inv.
    match goal with
    | |- exists a b, ?x ++ ?y ++ ?z ++ localhost ++ ?b0 = _ => exists (x ++ y ++ z), b0
    end.
    rewrite <- !app_assoc. reflexivity.
  - apply Hsame. intros w Hw. cbn [seqs fold_right] in Hw. lang_inv.
    match goal with
    | |- exists a b, ?x ++ ?y ++ _ ++ [] = _ =>
        exists (x ++ y ++ txt "[" ++ [dq]), ([dq] ++ txt "]")
    end.
    rewrite <- !app_assoc. reflexivity.
  - apply Hsame. intros w Hw. apply lang_lit in Hw as ->.
    exists (txt "->setHosts([" ++ [dq]), ([dq] ++ txt "])"). rewrite <- app_assoc. reflexivity.
Qed.

(** format_curl leaves a code as it is when the code has no double quote
    and no blank before a hyphen. *)
Theorem format_curl_keeps_code_without_quotes_and_flags (code0 : str) :
  mem_char dq code0 = false ->
  contains code0 (txt " -") = false ->
  format_curl code0 = code0.
Proof.
  intros Hquote Hflag. unfold format_curl.
  assert (forall r tpl, (forall w, lang r w -> In dq w) -> re_sub r tpl code0 = code0)
    as Hsame.
  { intros r tpl Hneeds.
    apply (re_sub_no_match r tpl (mem_char dq)); [|apply mem_char_tail|done].
    intros pos rest Hrest. by apply (match_at_needs_char r dq). }
  rewrite (Hsame (lit (dq :: localhost))).
  2:{ intros w Hw. apply lang_lit in Hw as ->. by left. }
  rewrite (Hsame (seqs (Group 1 _ :: _))).
  2:{ intros w Hw. cbn [seqs fold_right plus] in Hw. lang_inv.
      rewrite !in_app_iff. cbn [In]. intuition. }
  apply (re_sub_no_match _ _ (fun s => contains s (txt " -"))); [| |done].
  - intros pos rest Hrest. apply (match_at_needs_text _ (txt " -")); [|done].
    intros w Hw. cbn [seqs fold_right] in Hw. lang_inv.
    by eexists [], [_; _].
  - intros c s. apply contains_tail.
Qed.

(** strip_annotations leaves a code without < and without # as it is. *)
Theorem strip_annotations_keeps_plain_code (code0 : str) :
  mem_char "<" code0 = false ->
  mem_char "#" code0 = false ->
  strip_annotations code0 = code0.
Proof.
  intros Hmarker Hcomment. rewrite strip_annotations_patterns.
  rewrite (re_sub_no_match marker_pattern [] (mem_char "<")); [| |apply mem_char_tail|done].
  2:{ intros pos rest Hrest. apply (match_at_needs_char _ "<"%char); [|done].
      intros w Hw. cbn [marker_pattern seqs fold_right] in Hw. lang_inv.
      rewrite in_app_iff. right. by left. }
  apply (re_sub_no_match comment_pattern [] (mem_char "#")); [|apply mem_char_tail|done].
  intros pos rest Hrest. apply (match_at_needs_char _ "#"%char); [|done].
  intros w Hw. cbn [comment_pattern seqs fold_right] in Hw. lang_inv.
  rewrite in_app_iff. right. by left.
Qed.

(** *** No comment is left *)

(** A text up to its first line feed. *)
Lemma line_split tail :
  exists xs tail', tail = xs ++ tail' /\ forallb (cmatch CDot) xs = true /\
                   stops CDot tail' = true.
Proof.
  induction tail as [|c tail (xs & tail' & -> & Hxs & Hstop)].
  - by exists [], [].
  - destruct (cmatch CDot c) eqn:Hc.
    + exists (c :: xs), tail'. cbn [forallb app]. by rewrite Hc, Hxs.
    + exists [], (c :: xs ++ tail'). cbn [stops forallb app]. by rewrite Hc.
Qed.

(** The comment pattern matches wherever a # stands. *)
Lemma comment_matches pos tail :
  exists h, match_at comment_pattern pos ("#"%char :: tail) = Some h.
Proof.
  unfold match_at, comment_pattern. cbn [seqs fold_right].
  rewrite rmatch_seq, rmatch_star. cbn [m_rest length star_loop].
  rewrite rmatch_chr. cbn [cmatch]. change (is_space "#") with false. cbn iota.
  rewrite rmatch_seq, rmatch_chr. cbn [cmatch]. rewrite ascii_eqb_refl.
  rewrite rmatch_seq, rmatch_star. cbn [m_rest].
  destruct (line_split tail) as (xs & tail' & -> & Hxs & Hstop).
  erewrite greedy_class_all; [eauto|done|done|rewrite length_app; lia|].
  rewrite rmatch_seq. cbn [rmatch m_rest].
  destruct tail' as [|c tail']; [reflexivity|].
  cbn [stops cmatch] in Hstop. apply negb_true_iff, negb_false_iff in Hstop.
  rewrite Hstop. reflexivity.
Qed.

(** A match of the comment pattern is not empty. *)
Lemma comment_match_not_empty pos rest h :
  match_at comment_pattern pos rest = Some h -> h_text h <> [].
Proof.
  intros Hm. apply match_at_sound in Hm as (rest' & Hw & _).
  cbn [comment_pattern seqs fold_right] in Hw. lang_inv.
  intros Hnil. apply (f_equal (@length ascii)) in Hnil.
  rewrite !length_app in Hnil. cbn [length] in Hnil. lia.
Qed.

(** The scan with the comment pattern passes no # on. *)
Lemma comment_scan_passes_no_hash rest : forall pos skip,
  Forall (fun sg => match sg with Raw c => ascii_eqb c "#" = false | Found _ => True end)
         (segments comment_pattern pos rest skip).
Proof.
  induction rest as [|c rest IH]; intros pos [|skip]; cbn [segments].
  - destruct (match_at comment_pattern pos []); by repeat constructor.
  - constructor.
  - destruct (match_at comment_pattern pos (c :: rest)) as [h|] eqn:Hm.
    + constructor; [done|].
      pose proof (comment_match_not_empty _ _ _ Hm) as Hne.
      destruct (h_text h) as [|x text]; [done|]. cbn [length]. apply IH.
    + constructor; [|apply IH].
      destruct (ascii_eqb c "#") eqn:Hc; [|done].
      apply ascii_eqb_eq in Hc as ->.
      destruct (comment_matches pos rest) as [h Hh]. congruence.
  - apply IH.
Qed.

(** strip_annotations leaves no # in the code: every # goes with the rest
    of its line and the blanks before it, line feeds among them. *)
Theorem strip_annotations_leaves_no_hash (code0 : str) :
  mem_char "#" (strip_annotations code0) = false.
Proof.
  rewrite strip_annotations_patterns. unfold re_sub, scan.
  pose proof (comment_scan_passes_no_hash
                (flat_map (fun sg => match sg with Raw c => [c] | Found h => expand [] h end)
                          (segments marker_pattern 0 code0 0)) 0 0) as Hall.
  induction Hall as [|sg segs Hsg Hall IH]; [done|].
  cbn [flat_map]. unfold mem_char in *. rewrite existsb_app, IH, orb_false_r.
  destruct sg as [c|h]; [|done]. cbn [existsb].
  rewrite orb_false_r. unfold ascii_eqb in *. by rewrite Ascii.eqb_sym.
Qed.

(** ** Texts without a fence *)

Lemma no_backtick_mem_char s : no_backtick s = true -> mem_char "`" s = false.
Proof.
  unfold no_backtick, mem_char. induction s as [|c s IH]; cbn [forallb existsb]; [done|].
  intros [Hc Hs]%andb_true_iff. rewrite IH by done.
  apply negb_true_iff in Hc. unfold ascii_eqb in *. by rewrite Ascii.eqb_sym, Hc.
Qed.

Lemma block_pattern_needs_fence k w : lang (block_pattern k) w -> In "`"%char w.
Proof.
  intros Hw. rewrite block_pattern_closing in Hw. lang_inv.
  rewrite in_app_iff. left. by left.
Qed.

Lemma scan_without_fence k (markdown_text : str) :
  no_backtick markdown_text = true ->
  scan (block_pattern k) markdown_text = map Raw markdown_text.
Proof.
  intros Hfree%no_backtick_mem_char.
  apply (segments_no_match _ (mem_char "`")); [|apply mem_char_tail|done].
  intros pos rest Hrest. apply (match_at_needs_char _ "`"%char); [|done].
  apply block_pattern_needs_fence.
Qed.

Lemma hits_raw (s : str) : hits (map Raw s) = [].
Proof. induction s as [|c s IH]; [done|]. exact IH. Qed.

Lemma text_without_fences_blocks (markdown_text : str) :
  no_backtick markdown_text = true ->
  extract_code_blocks markdown_text Console = []
  /\ extract_code_blocks markdown_text ESQL = [].
Proof.
  intros Hfree. unfold extract_code_blocks, re_finditer.
  by rewrite !scan_without_fence, hits_raw.
Qed.

(** In a text without a backtick extract_code_blocks finds no block of
    either kind, and replace_blocks returns the text as it is, whatever
    replacements it is given. *)
Theorem text_without_fences_has_no_blocks (markdown_text : str)
    (console_replacements esql_replacements : list str) :
  no_backtick markdown_text = true ->
  extract_code_blocks markdown_text Console = []
  /\ extract_code_blocks markdown_text ESQL = []
  /\ replace_blocks markdown_text console_replacements esql_replacements = Ok markdown_text.
Proof.
  intros Hfree.
  assert (forall keep (s : str) iter, replace_hits keep (map Raw s) iter = Ok (s, iter))
    as Hraw.
  { intros keep s iter. induction s as [|c s IH]; [done|].
    cbn [map replace_hits]. by rewrite IH. }
  destruct (text_without_fences_blocks markdown_text Hfree) as [Hconsole Hesql].
  split_and!; [done|done|].
  unfold replace_blocks, replace_console_blocks, replace_esql_blocks.
  by rewrite scan_without_fence, Hraw, scan_without_fence, Hraw.
Qed.

(** A snippet file without a backtick has no code: parse_snippet_file
    returns two empty texts. *)
Theorem snippet_without_fence_parses_to_nothing (content : str) :
  no_backtick content = true ->
  parse_snippet_file content = ([], []).
Proof.
  intros Hfree%no_backtick_mem_char. unfold parse_snippet_file.
  rewrite (re_search_no_match _ (mem_char "`")); [done| |apply mem_char_tail|done].
  intros pos rest Hrest. apply (match_at_needs_char _ "`"%char); [|done].
  intros w Hw. cbn [snippet_code_pattern seqs fold_right] in Hw. lang_inv.
  rewrite in_app_iff. left. by left.
Qed.

(** *** Directive nesting adds no fence *)

Lemma forallb_rev {A} (p : A -> bool) (l : list A) : forallb p (rev l) = forallb p l.
Proof.
  induction l as [|x l IH]; [done|]. cbn [rev forallb].
  rewrite forallb_app, IH. cbn [forallb]. by rewrite andb_true_r, andb_comm.
Qed.

Lemma forallb_lstrip (p : ascii -> bool) s : forallb p s = true -> forallb p (lstrip s) = true.
Proof.
  induction s as [|c s IH]; [done|]. cbn [lstrip].
  destruct (is_space c); [|done]. cbn [forallb]. intros [_ ?]%andb_true_iff. by apply IH.
Qed.

Lemma forallb_strip (p : ascii -> bool) s : forallb p s = true -> forallb p (strip s) = true.
Proof.
  intros Hs. unfold strip, rstrip. rewrite forallb_rev. apply forallb_lstrip.
  rewrite forallb_rev. by apply forallb_lstrip.
Qed.

Lemma forallb_take {A} (p : A -> bool) n (l : list A) :
  forallb p l = true -> forallb p (take n l) = true.
Proof.
  revert n. induction l as [|x l IH]; intros [|n]; cbn [take forallb]; try done.
  intros [-> ?]%andb_true_iff. by apply IH.
Qed.

Lemma forallb_split_on (p : ascii -> bool) s :
  forallb p s = true -> Forall (fun line => forallb p line = true) (split_on nl s).
Proof.
  induction s as [|c s IH]; cbn [split_on forallb].
  - by repeat constructor.
  - intros [Hc Hs]%andb_true_iff. specialize (IH Hs).
    destruct (split_on nl s) as [|cur more].
    + repeat constructor. cbn [forallb]. by rewrite Hc.
    + inversion IH as [|? ? Hcur Hmore]; subst.
      destruct (ascii_eqb c nl); repeat constructor; try done.
      cbn [forallb]. by rewrite Hc.
Qed.

Lemma forallb_str_join (p : ascii -> bool) parts :
  p nl = true ->
  Forall (fun line => forallb p line = true) parts ->
  forallb p (str_join nl parts) = true.
Proof.
  intros Hnl. induction 1 as [|line more Hline Hmore IH]; [done|].
  cbn [str_join]. destruct more as [|line' more]; [done|].
  rewrite forallb_app. cbn [forallb]. by rewrite Hline, Hnl, IH.
Qed.

Lemma increment_directive_delimiters_adds_no_fence text levels :
  no_backtick text = true ->
  no_backtick (increment_directive_delimiters text levels) = true.
Proof.
  intros Htext. unfold increment_directive_delimiters, no_backtick.
  apply forallb_str_join; [done|].
  apply Forall_map. eapply Forall_impl; [by apply forallb_split_on|].
  intros line Hline. cbn beta in *.
  assert (forallb (fun c => negb (ascii_eqb c "`")) (repeat ":"%char levels) = true) as Hcolons.
  { induction levels as [|n IH]; [done|]. cbn [repeat forallb]. by rewrite IH. }
  unfold increment_line.
  destruct (is_some (re_match directive_open line)).
  - by rewrite forallb_app, Hcolons, Hline.
  - destruct (is_some (re_match directive_close (strip line))); [|done].
    rewrite !forallb_app, Hcolons, forallb_take, forallb_strip by done. done.
Qed.

(** In create mode a document without a backtick and without a tab that
    has_language_tabs finds is reported as having no blocks; nothing is
    written, the directives of the document keep their colons. *)
Theorem create_mode_without_fences_changes_nothing
    (run_converter : list str -> str -> proc_result)
    (parent_filename : str) (languages : option (list str)) (w : world) :
  no_backtick (w_doc w) = true ->
  has_language_tabs (w_doc w) languages = None ->
  process_file run_converter parent_filename languages false w = (Ok NoBlocksFound, w).
Proof.
  intros Hfree Htabs. unfold process_file, bind, read_doc. cbn [w_doc]. rewrite Htabs.
  pose proof (increment_directive_delimiters_adds_no_fence (w_doc w) 1 Hfree) as Hinc.
  destruct (text_without_fences_blocks (increment_directive_delimiters (w_doc w) 1) Hinc)
    as [-> ->].
  reflexivity.
Qed.

(** ** Directive nesting *)

Lemma lang_bol_inv w : lang Bol w -> w = [].
Proof. by inversion 1. Qed.

Lemma lang_star_char greedy c w :
  lang (Star greedy (Chr (CChar c))) w -> w = repeat c (length w).
Proof.
  remember (Star greedy (Chr (CChar c))) as r eqn:Hr. intros Hw.
  induction Hw as [| | | | | |g r' w1 w2 Hw1 _ Hw2 IH| | |]; try discriminate; [done|].
  injection Hr as -> ->. specialize (IH eq_refl).
  apply lang_chr_inv in Hw1 as (x & -> & ->%cmatch_char).
  cbn [app length repeat]. by rewrite <- IH.
Qed.

Lemma lang_alts rs : forall r w,
  lang (alts r rs) w -> lang r w \/ exists r', In r' rs /\ lang r' w.
Proof.
  unfold alts. induction rs as [|r1 rs IH]; intros r w Hw; cbn [fold_left] in Hw; [by left|].
  apply IH in Hw as [Hw|(r' & Hin & Hw)].
  - inversion Hw; subst; [by left|]. right. exists r1. split; [by left|done].
  - right. exists r'. split; [by right|done].
Qed.

Lemma forallb_repeat {A} (p : A -> bool) x n : p x = true -> forallb p (repeat x n) = true.
Proof. intros Hx. induction n as [|n IH]; [done|]. cbn [repeat forallb]. by rewrite Hx, IH. Qed.

(** A line that opens a directive: one colon or more, the name of a
    directive in braces, and anything after it. *)
Lemma directive_open_sound line :
  is_some (re_match directive_open line) = true ->
  exists m d rest,
    line = repeat ":"%char (S m) ++ "{"%char :: d ++ "}"%char :: rest /\ In d directives.
Proof.
  unfold re_match. destruct (match_at directive_open 0 line) as [h|] eqn:Hm; [intros _|done].
  apply match_at_sound in Hm as (rest & Hw & ->).
  cbn [directive_open seqs fold_right plus] in Hw.
  apply lang_seq_inv in Hw as (w0 & w1 & -> & ->%lang_bol_inv & Hw).
  apply lang_seq_inv in Hw as (colons & w2 & -> & Hcolons%lang_group_inv & Hw).
  apply lang_seq_inv in Hcolons as (c1 & more & -> & Hc1 & Hmore%lang_star_char).
  apply lang_chr_inv in Hc1 as (x & -> & ->%cmatch_char).
  apply lang_seq_inv in Hw as (w3 & w4 & -> & Hbrace & Hw).
  apply lang_chr_inv in Hbrace as (y & -> & ->%cmatch_char).
  apply lang_seq_inv in Hw as (d & w5 & -> & Hd%lang_group_inv & Hw).
  apply lang_seq_inv in Hw as (w6 & w7 & -> & Hclose & ->%lang_eps_inv).
  apply lang_chr_inv in Hclose as (z & -> & ->%cmatch_char).
  exists (length more), d, rest. split.
  - rewrite Hmore at 1. cbn [app repeat]. rewrite <- !app_assoc. cbn [app].
    by rewrite <- !app_assoc.
  - apply lang_alts in Hd as [Hd|(r' & Hin & Hd)].
    + apply lang_lit in Hd as ->. by left.
    + apply in_map_iff in Hin as (name & <- & Hin). apply lang_lit in Hd as ->. by right.
Qed.

Lemma rmatch_bol rest caps (k : cont) :
  rmatch Bol (MState 0 rest caps) k = k (MState 0 rest caps).
Proof. reflexivity. Qed.

Lemma directive_open_complete m d rest :
  In d directives ->
  is_some (re_match directive_open (repeat ":"%char (S m) ++ "{"%char :: d ++ "}"%char :: rest))
    = true.
Proof.
  intros Hd. unfold re_match, match_at.
  cbn [directive_open seqs fold_right plus repeat app].
  rewrite rmatch_seq, rmatch_bol.
  rewrite rmatch_seq, rmatch_group. unfold plus. rewrite rmatch_seq, rmatch_chr. cbn [cmatch]. rewrite ascii_eqb_refl.
  rewrite rmatch_star. cbn [m_rest].
  match goal with
  | |- is_some match star_loop _ _ _ _ ?k with _ => _ end = true =>
      assert (exists r, k (MState (1 + length (repeat ":"%char m))
                                  ("{"%char :: d ++ "}"%char :: rest) []) = Some r) as [r Hk]
  end.
  { cbn [directives In] in Hd.
    repeat (destruct Hd as [<-|Hd]; [vm_compute; eauto|]). done. }
  erewrite greedy_class_all; [done| | | |exact Hk].
  - apply forallb_repeat. apply ascii_eqb_refl.
  - reflexivity.
  - rewrite length_app. lia.
Qed.

(** Colons before a line that opens a directive leave it one. *)
Lemma directive_open_more_colons n line :
  is_some (re_match directive_open line) = true ->
  is_some (re_match directive_open (repeat ":"%char n ++ line)) = true.
Proof.
  intros (m & d & rest & -> & Hd)%directive_open_sound.
  rewrite app_assoc, <- repeat_app.
  replace (n + S m) with (S (n + m)) by lia.
  by apply directive_open_complete.
Qed.

(** *** Closing lines *)

Lemma lstrip_head s c t : lstrip s = c :: t -> is_space c = false.
Proof.
  induction s as [|x s IH]; cbn [lstrip]; [done|].
  destruct (is_space x) eqn:Hx; [done|]. by intros [= <- _].
Qed.

Lemma lstrip_blanks ws s :
  forallb is_space ws = true ->
  match s with [] => true | c :: _ => negb (is_space c) end = true ->
  lstrip (ws ++ s) = s.
Proof.
  intros Hws Hs. induction ws as [|x ws IH]; cbn [app lstrip].
  - destruct s as [|c s]; [done|]. cbn [lstrip]. apply negb_true_iff in Hs. by rewrite Hs.
  - cbn [forallb] in Hws. apply andb_true_iff in Hws as [-> Hws]. by apply IH.
Qed.

Lemma lstrip_split s :
  s = take (length s - length (lstrip s)) s ++ lstrip s /\
  forallb is_space (take (length s - length (lstrip s)) s) = true.
Proof.
  induction s as [|c s [IH1 IH2]]; [done|]. cbn [lstrip].
  destruct (is_space c) eqn:Hc.
  - assert (length (lstrip s) <= length s) as Hle.
    { rewrite IH1 at 2. rewrite length_app. lia. }
    cbn [length]. replace (S (length s) - length (lstrip s))
      with (S (length s - length (lstrip s))) by lia.
    cbn [take app forallb]. rewrite Hc, IH2. split; [|done]. f_equal. exact IH1.
  - by rewrite Nat.sub_diag.
Qed.

Lemma strip_last s a c : strip s = a ++ [c] -> is_space c = false.
Proof.
  unfold strip, rstrip. intros Hs. apply (f_equal (@rev ascii)) in Hs.
  rewrite rev_involutive, rev_app_distr in Hs. cbn [rev app] in Hs.
  by apply lstrip_head in Hs.
Qed.

Lemma strip_colons ws n :
  forallb is_space ws = true ->
  strip (ws ++ repeat ":"%char (S n)) = repeat ":"%char (S n).
Proof.
  intros Hws. unfold strip, rstrip. rewrite lstrip_blanks by done.
  replace (rev (repeat ":"%char (S n))) with (repeat ":"%char (S n)).
  - cbn [repeat lstrip]. change (is_space ":") with false. cbn iota.
    change (":"%char :: repeat ":"%char n) with (repeat ":"%char (S n)).
    induction (S n) as [|k IH]; [done|]. cbn [repeat rev]. rewrite IH.
    clear. induction k as [|k IH]; [done|]. cbn [repeat app]. by rewrite IH.
  - induction (S n) as [|k IH]; [done|]. cbn [repeat rev]. rewrite <- IH.
    clear. induction k as [|k IH]; [done|]. cbn [repeat app]. by rewrite <- IH.
Qed.

(** A text that closes a directive: three colons or more and nothing else,
    but for one line feed at the end. *)
Lemma directive_close_sound s :
  is_some (re_match directive_close s) = true ->
  exists m tail, s = repeat ":"%char (3 + m) ++ tail /\ (tail = [] \/ tail = [nl]).
Proof.
  unfold re_match, match_at.
  destruct (rmatch directive_close (MState 0 s []) Some) as [res|] eqn:Hrun; [intros _|done].
  cbn [directive_close seqs fold_right] in Hrun.
  rewrite rmatch_seq, rmatch_bol, rmatch_seq in Hrun.
  apply rmatch_sound in Hrun as (w & st' & Hw & Hrest & _ & Hk).
  cbn [m_rest] in Hrest. subst s.
  apply lang_group_inv, lang_seq_inv in Hw as (w1 & w2 & -> & ->%lang_lit & Hw2%lang_star_char).
  exists (length w2), (m_rest st'). split.
  - rewrite Hw2 at 1. by rewrite <- app_assoc.
  - rewrite rmatch_seq in Hk. cbn [rmatch] in Hk.
    destruct (m_rest st') as [|c [|c' rest]]; [by left| |].
    + destruct (ascii_eqb c nl) eqn:Hc; [|done]. apply ascii_eqb_eq in Hc as ->. by right.
    + by rewrite andb_false_r in Hk.
Qed.

Lemma directive_close_complete m :
  is_some (re_match directive_close (repeat ":"%char (3 + m))) = true.
Proof.
  unfold re_match, match_at. cbn [directive_close seqs fold_right].
  rewrite rmatch_seq, rmatch_bol, rmatch_seq, rmatch_group, rmatch_seq.
  change (repeat ":"%char (3 + m)) with (txt ":::" ++ repeat ":"%char m).
  rewrite rmatch_lit, rmatch_star. cbn [m_rest].
  rewrite <- (app_nil_r (repeat ":"%char m)) at 2.
  erewrite greedy_class_all; [done| | | |reflexivity].
  - apply forallb_repeat. apply ascii_eqb_refl.
  - reflexivity.
  - lia.
Qed.

(** A line of blanks and colons opens no directive. *)
Lemma blanks_and_colons_open_nothing ws n :
  forallb is_space ws = true ->
  is_some (re_match directive_open (ws ++ repeat ":"%char n)) = false.
Proof.
  intros Hws. destruct (is_some _) eqn:Hopen; [|done].
  apply directive_open_sound in Hopen as (m & d & rest & Heq & _).
  assert (In "{"%char (ws ++ repeat ":"%char n)) as Hin.
  { rewrite Heq, in_app_iff. right. by left. }
  apply in_app_iff in Hin as [Hin|Hin].
  - rewrite forallb_forall in Hws. by apply Hws in Hin.
  - by apply repeat_spec in Hin.
Qed.

(** Two rounds on one line add up. *)
Lemma increment_line_twice a b line :
  increment_line (repeat ":"%char b) (increment_line (repeat ":"%char a) line) =
  increment_line (repeat ":"%char (b + a)) line.
Proof.
  unfold increment_line at 2 3.
  destruct (is_some (re_match directive_open line)) eqn:Hopen.
  - unfold increment_line. rewrite directive_open_more_colons by done.
    by rewrite repeat_app, <- app_assoc.
  - destruct (is_some (re_match directive_close (strip line))) eqn:Hclose.
    + apply directive_close_sound in Hclose as (m & tail & Hstrip & Htail).
      assert (tail = []) as ->.
      { destruct Htail as [->| ->]; [done|].
        apply strip_last in Hstrip. discriminate Hstrip. }
      rewrite app_nil_r in Hstrip. rewrite Hstrip.
      destruct (lstrip_split line) as [_ Hws].
      set (ws := take (length line - length (lstrip line)) line) in *.
      rewrite <- !repeat_app.
      unfold increment_line.
      rewrite blanks_and_colons_open_nothing by done.
      replace (a + (3 + m)) with (S (a + 2 + m)) by lia.
      rewrite strip_colons by done.
      replace (S (a + 2 + m)) with (3 + (a + m)) by lia.
      rewrite directive_close_complete.
      replace (3 + (a + m)) with (S (a + 2 + m)) by lia.
      rewrite lstrip_blanks by done.
      rewrite length_app, Nat.add_sub, take_app_length.
      rewrite <- repeat_app. do 2 f_equal. lia.
    + unfold increment_line. by rewrite Hopen, Hclose.
Qed.

(** *** Lines *)

Lemma split_on_not_nil sep s : split_on sep s <> [].
Proof.
  destruct s as [|c s]; cbn [split_on]; [done|].
  destruct (split_on sep s); [done|]. by destruct (ascii_eqb c sep).
Qed.

Lemma split_on_lines s :
  Forall (fun line => forallb (fun c => negb (ascii_eqb c nl)) line = true) (split_on nl s).
Proof.
  induction s as [|c s IH]; cbn [split_on]; [by repeat constructor|].
  destruct (split_on nl s) as [|cur more] eqn:Hsplit; [by apply split_on_not_nil in Hsplit|].
  inversion IH as [|? ? Hcur Hmore]; subst.
  destruct (ascii_eqb c nl) eqn:Hc; repeat constructor; try done.
  cbn [forallb]. by rewrite Hc.
Qed.

(** Splitting what was joined gives the lines back. *)
Lemma split_on_join lines :
  lines <> [] ->
  Forall (fun line => forallb (fun c => negb (ascii_eqb c nl)) line = true) lines ->
  split_on nl (str_join nl lines) = lines.
Proof.
  intros Hne Hall. induction Hall as [|line more Hline Hmore IH]; [done|]. clear Hne.
  destruct more as [|line' more].
  - cbn [str_join]. clear IH Hmore.
    induction line as [|c line IH]; [done|].
    cbn [forallb] in Hline. apply andb_true_iff in Hline as [Hc Hline].
    cbn [split_on]. rewrite IH by done. apply negb_true_iff in Hc. by rewrite Hc.
  - specialize (IH ltac:(done)).
    change (str_join nl (line :: line' :: more))
      with (line ++ nl :: str_join nl (line' :: more)).
    induction line as [|c line IHline]; cbn [app split_on].
    + rewrite IH. by rewrite ascii_eqb_refl.
    + cbn [forallb] in Hline. apply andb_true_iff in Hline as [Hc Hline].
      rewrite IHline by done. apply negb_true_iff in Hc. by rewrite Hc.
Qed.

Lemma increment_line_keeps (p : ascii -> bool) n line :
  p ":"%char = true ->
  forallb p line = true ->
  forallb p (increment_line (repeat ":"%char n) line) = true.
Proof.
  intros Hcolon Hline. unfold increment_line.
  destruct (is_some (re_match directive_open line)).
  - by rewrite forallb_app, forallb_repeat, Hline.
  - destruct (is_some (re_match directive_close (strip line))); [|done].
    by rewrite !forallb_app, forallb_repeat, forallb_take, forallb_strip.
Qed.

(** Nesting levels add up: raising a text by [a] levels and then by [b]
    is raising it by [b + a] levels. *)
Theorem increment_directive_delimiters_adds_levels (text : str) (a b : nat) :
  increment_directive_delimiters (increment_directive_delimiters text a) b =
  increment_directive_delimiters text (b + a).
Proof.
  unfold increment_directive_delimiters.
  rewrite split_on_join.
  - rewrite map_map. f_equal. apply map_ext. intros line. apply increment_line_twice.
  - intros Hnil%map_eq_nil. by apply split_on_not_nil in Hnil.
  - apply Forall_map. eapply Forall_impl; [apply split_on_lines|].
    intros line Hline. by apply increment_line_keeps.
Qed.

(** ** The traces of the two modes *)

Lemma unlink_all_log names : forall w u w',
  for_each names unlink w = (Ok u, w') ->
  w_log w' = w_log w ++ map Unlinked names.
Proof.
  induction names as [|x names IH]; intros w u w' Hrun; cbn [for_each] in Hrun.
  - apply ret_ok in Hrun as [_ ->]. by rewrite app_nil_r.
  - apply bind_ok in Hrun as (u1 & w1 & Hun & Hrun).
    apply unlink_ok in Hun as (d1 & Hd1 & _ & ->).
    apply IH in Hrun as ->. cbn [w_log map]. by rewrite <- app_assoc.
Qed.

Section trace_facts.

Variable run_converter : list str -> str -> proc_result.

Lemma regenerate_snippet_log target_langs n console_code annotations w e w' :
  regenerate_snippet run_converter target_langs n console_code annotations w = (Ok e, w') ->
  w_log w' = w_log w ++
    map WroteSnippet (map (snippet_filename n) (txt "console" :: target_langs)).
Proof.
  unfold regenerate_snippet. intros Hrun.
  apply bind_ok in Hrun as (u & w1 & Hconsole & Hrun).
  apply bind_ok in Hrun as ([converted_codes conversion_errors] & w2 & Hconv & Hrun).
  apply lift_ok in Hconv as [_ ->].
  apply bind_ok in Hrun as (u' & w3 & Hlangs & Hrun).
  apply ret_ok in Hrun as [_ ->].
  apply write_snippet_file_ok in Hconsole as (d1 & Hd1 & _ & ->).
  eapply write_languages_ok in Hlangs as (_ & Hlog & _); [|reflexivity].
  rewrite Hlog. cbn [w_log map]. by rewrite <- app_assoc, map_map.
Qed.

Lemma regenerate_loop_log target_langs data : forall start w e w',
  for_each_flag (combine (map N.of_nat (seq start (length data))) data)
    (fun '(new_num, (console_code, annotations)) =>
       regenerate_snippet run_converter target_langs new_num console_code annotations) w
    = (Ok e, w') ->
  w_log w' = w_log w ++
    map WroteSnippet
      (flat_map (fun n => map (snippet_filename (N.of_nat n)) (txt "console" :: target_langs))
                (seq start (length data))).
Proof.
  induction data as [|[console_code annotations] data IH]; intros start w e w' Hrun;
    cbn [length seq map combine for_each_flag] in Hrun.
  - apply ret_ok in Hrun as [_ ->]. cbn [length seq flat_map map]. by rewrite app_nil_r.
  - apply bind_ok in Hrun as (e1 & w1 & Hone & Hrun).
    apply bind_ok in Hrun as (e2 & w2 & Hmore & Hrun).
    apply ret_ok in Hrun as [_ ->].
    apply regenerate_snippet_log in Hone. apply IH in Hmore.
    rewrite Hmore, Hone. cbn [length seq flat_map]. by rewrite map_app, <- app_assoc.
Qed.


End trace_facts.

(** *** Create mode *)

Section create_facts.

Variable run_converter : list str -> str -> proc_result.

(** The files of the directory after one block: those that were there and
    the snippet files of the block. *)
Lemma create_snippets_and_tabs_files parent n code0 ann languages first kind w tabs errs w' d :
  create_snippets_and_tabs run_converter parent n code0 ann languages first kind w
    = (Ok (tabs, errs), w') ->
  w_dir w = Some d ->
  exists d', w_dir w' = Some d' /\
    forall name, is_Some (d' !! name) <->
      is_Some (d !! name) \/
      In name (job_files (languages_or_default languages) (Job kind n first code0 ann)).
Proof.
  unfold create_snippets_and_tabs. intros Hrun Hd.
  apply bind_ok in Hrun as (code_to_convert & w1 & Hfirst & Hrun).
  apply bind_ok in Hrun as ([converted_codes conversion_errors] & w2 & Hconv & Hrun).
  apply lift_ok in Hconv as [_ ->].
  apply bind_ok in Hrun as (u & w3 & Hlangs & Hrun).
  apply ret_ok in Hrun as [_ ->].
  unfold job_files. cbn [j_kind j_num].
  destruct kind; cbn [is_esql app].
  - apply bind_ok in Hfirst as (u1 & w4 & Hconsole & Hfirst).
    apply ret_ok in Hfirst as [_ ->].
    apply write_snippet_file_ok in Hconsole as (d1 & Hd1 & _ & ->).
    rewrite Hd in Hd1. injection Hd1 as <-.
    eapply write_languages_ok in Hlangs as (_ & _ & d' & Hd' & Hdom); [|reflexivity].
    exists d'. split; [done|]. intros name.
    rewrite Hdom, lookup_insert_is_Some. cbn [In].
    destruct (decide (snippet_filename n (txt "console") = name)) as [->|Hne]; [tauto|].
    split; [intros [[?|[_ ?]]|?]|intros [?|[?|?]]]; tauto.
  - apply bind_ok in Hfirst as (u1 & w4 & Hesql & Hfirst).
    apply bind_ok in Hfirst as (u2 & w5 & Hconsole & Hfirst).
    apply ret_ok in Hfirst as [_ ->].
    apply write_snippet_file_ok in Hesql as (d1 & Hd1 & _ & ->).
    rewrite Hd in Hd1. injection Hd1 as <-.
    apply write_snippet_file_ok in Hconsole as (d2 & Hd2 & _ & ->).
    cbn [w_dir] in Hd2. injection Hd2 as <-.
    eapply write_languages_ok in Hlangs as (_ & _ & d' & Hd' & Hdom); [|reflexivity].
    exists d'. split; [done|]. intros name.
    rewrite Hdom, !lookup_insert_is_Some. cbn [In].
    destruct (decide (snippet_filename n (txt "console") = name)) as [->|Hne1]; [tauto|].
    destruct (decide (snippet_filename n (txt "esql") = name)) as [->|Hne2]; [tauto|].
    split; [intros [[?|[_ [?|[_ ?]]]]|?]|intros [?|[?|[?|?]]]]; tauto.
Qed.

Lemma run_jobs_files parent languages jobs : forall w tabs any_errors w' d,
  run_jobs run_converter parent languages jobs w = (Ok (tabs, any_errors), w') ->
  w_dir w = Some d ->
  exists d', w_dir w' = Some d' /\
    forall name, is_Some (d' !! name) <->
      is_Some (d !! name) \/
      In name (flat_map (job_files (languages_or_default languages)) jobs).
Proof.
  induction jobs as [|j jobs IH]; intros w tabs any_errors w' d Hrun Hd; cbn [run_jobs] in Hrun.
  - apply ret_ok in Hrun as [_ ->]. exists d. split; [done|]. cbn [flat_map In]. tauto.
  - apply bind_ok in Hrun as ([tab errs] & w1 & Hone & Hrun).
    apply bind_ok in Hrun as ([tabs' errs'] & w2 & Hmore & Hrun).
    apply ret_ok in Hrun as [_ ->].
    eapply create_snippets_and_tabs_files in Hone as (d1 & Hd1 & Hdom1); [|exact Hd].
    eapply IH in Hmore as (d2 & Hd2 & Hdom2); [|exact Hd1].
    exists d2. split; [done|]. intros name.
    rewrite Hdom2, Hdom1. cbn [flat_map]. rewrite in_app_iff.
    destruct j. tauto.
Qed.

(** A create-mode run that completes: it makes the snippet directory only
    when there is none, writes the snippet files block by block, and writes
    the document once, as its last action; it removes no file, so the
    directory holds afterwards the files it held and the snippet files of
    the blocks.  The document written is the text with its nesting raised, in
    which replace_blocks has put the tab-sets of the blocks. *)
Theorem create_mode_writes_snippets_then_the_document
    (parent_filename : str) (languages : option (list str)) (w w' : world) (ok : bool) :
  process_file run_converter parent_filename languages false w = (Ok (Completed ok), w') ->
  let langs := languages_or_default languages in
  let markdown_text := increment_directive_delimiters (w_doc w) 1 in
  let console_blocks := extract_code_blocks markdown_text Console in
  let esql_blocks := extract_code_blocks markdown_text ESQL in
  let jobs := console_jobs console_blocks ++ esql_jobs console_blocks esql_blocks in
  w_log w' =
    w_log w ++ (if is_some (w_dir w) then [] else [MadeDir]) ++
    map WroteSnippet (flat_map (job_files langs) jobs) ++ [WroteDoc]
  /\ replace_blocks markdown_text
       (map (job_tabset parent_filename langs) (console_jobs console_blocks))
       (map (job_tabset parent_filename langs) (esql_jobs console_blocks esql_blocks))
     = Ok (w_doc w')
  /\ exists d', w_dir w' = Some d' /\
       forall name, is_Some (d' !! name) <->
         is_Some (default ∅ (w_dir w) !! name) \/ In name (flat_map (job_files langs) jobs).
Proof.
  intros Hrun langs markdown_text console_blocks esql_blocks jobs.
  unfold process_file in Hrun. cbn [negb] in Hrun.
  apply bind_ok in Hrun as (md & w0 & Hread & Hrun).
  apply ret_ok in Hread as [-> ->].
  destruct (has_language_tabs (w_doc w) languages) as [found|].
  { apply ret_ok in Hrun as [Hval _]. discriminate. }
  fold markdown_text console_blocks esql_blocks in Hrun.
  assert (Hbody :
    (dir <- read_dir ;;
     (if is_some dir then ret tt else mkdir) ;;;
     cs <- run_jobs run_converter parent_filename languages (console_jobs console_blocks) ;;
     es <- run_jobs run_converter parent_filename languages
             (esql_jobs console_blocks esql_blocks) ;;
     updated <- lift (replace_blocks markdown_text (fst cs) (fst es)) ;;
     write_doc updated ;;;
     ret (Completed (negb (snd cs || snd es)))) w = (Ok (Completed ok), w')).
  { destruct console_blocks, esql_blocks; try exact Hrun.
    apply ret_ok in Hrun as [Hval _]. discriminate. }
  clear Hrun.
  apply bind_ok in Hbody as (dir & w1 & Hdir & Hbody).
  apply ret_ok in Hdir as [-> ->].
  apply bind_ok in Hbody as (u & w1 & Hmk & Hbody).
  apply bind_ok in Hbody as ([ctabs cerr] & w2 & Hcs & Hbody).
  apply bind_ok in Hbody as ([etabs eerr] & w3 & Hes & Hbody).
  apply bind_ok in Hbody as (updated & w4 & Hrep & Hbody).
  apply lift_ok in Hrep as [Hrep ->].
  apply bind_ok in Hbody as (u' & w5 & Hwrite & Hbody).
  apply ret_ok in Hbody as [_ ->].
  assert (w_log w1 = w_log w ++ (if is_some (w_dir w) then [] else [MadeDir])
          /\ w_dir w1 = Some (default ∅ (w_dir w))) as [Hlog1 Hd1].
  { destruct (w_dir w) as [d|] eqn:Hd; cbn [is_some] in *.
    - apply ret_ok in Hmk as [_ ->]. by rewrite app_nil_r.
    - unfold mkdir in Hmk. by injection Hmk as _ <-. }
  pose proof (run_jobs_files _ _ _ _ _ _ _ _ Hcs Hd1) as (d2 & Hd2 & Hdom2).
  pose proof (run_jobs_files _ _ _ _ _ _ _ _ Hes Hd2) as (d3 & Hd3 & Hdom3).
  apply run_jobs_ok in Hcs as (Hctabs & _ & Hlog2).
  apply run_jobs_ok in Hes as (Hetabs & _ & Hlog3).
  cbn [fst] in Hrep. subst ctabs etabs.
  unfold write_doc in Hwrite. injection Hwrite as _ <-. cbn [w_log w_doc w_dir].
  split_and!.
  - rewrite Hlog3, Hlog2, Hlog1. unfold jobs.
    by rewrite flat_map_app, map_app, <- !app_assoc.
  - exact Hrep.
  - exists d3. split; [done|]. intros name.
    rewrite Hdom3, Hdom2. unfold jobs. rewrite flat_map_app, in_app_iff. tauto.
Qed.

End create_facts.

(** ** Snippet files are read back as they were written *)

Lemma rmatch_alt_l r1 r2 st (k : cont) r :
  rmatch r1 st k = Some r -> rmatch (Alt r1 r2) st k = Some r.
Proof. intros H. by rewrite rmatch_alt, H. Qed.

Lemma rmatch_alt_r r1 r2 st (k : cont) :
  rmatch r1 st k = None -> rmatch (Alt r1 r2) st k = rmatch r2 st k.
Proof. intros H. by rewrite rmatch_alt, H. Qed.

Lemma search_from_cons r pos c s :
  search_from r pos (c :: s) =
  match match_at r pos (c :: s) with
  | Some h => Some h
  | None => search_from r (S pos) s
  end.
Proof. reflexivity. Qed.

Lemma search_from_here r pos rest h :
  match_at r pos rest = Some h -> search_from r pos rest = Some h.
Proof. intros Hm. destruct rest; cbn [search_from]; by rewrite Hm. Qed.

(** A body without a backtick holds no closing fence. *)
Lemma no_backtick_fence_free body : no_backtick body = true -> fence_free body = true.
Proof.
  induction body as [|c body IH]; [done|].
  intros Hbody. pose proof Hbody as Hall.
  cbn [no_backtick forallb] in Hbody. apply andb_true_iff in Hbody as [Hc Hbody].
  cbn [fence_free]. rewrite IH by done. rewrite andb_true_r.
  apply negb_true_iff. unfold closes_at.
  change (nl :: fence) with (nl :: "`"%char :: txt "``").
  cbn [app startswith].
  destruct (ascii_eqb nl c); [|done]. cbn [andb].
  destruct body as [|c' body]; cbn [app]; [done|].
  cbn [forallb] in Hbody. apply andb_true_iff in Hbody as [Hc' _].
  apply negb_true_iff in Hc'. unfold ascii_eqb in *. by rewrite Ascii.eqb_sym, Hc'.
Qed.

Lemma code_closing_fails st (k : cont) :
  closes_at (m_rest st) = false -> rmatch code_closing st k = None.
Proof.
  destruct st as [pos s caps]. unfold code_closing, closes_at. cbn [m_rest].
  rewrite rmatch_seq.
  destruct s as [|c s]; [by rewrite rmatch_chr_nil|].
  rewrite rmatch_chr. cbn [cmatch startswith].
  destruct (ascii_eqb nl c); [|done]. cbn [andb]. intros Hs.
  rewrite rmatch_seq. by apply rmatch_lit_fail.
Qed.

(** The pattern of the code of a snippet matches a block from its start. *)
Lemma snippet_code_matches k body after pos :
  fence_free body = true ->
  match_at snippet_code_pattern pos (block_text k body ++ after) =
  Some (Hit pos (block_text k body) [(1, body)]).
Proof.
  intros Hfree. unfold match_at, snippet_code_pattern. cbn [seqs fold_right].
  fold code_closing.
  replace (block_text k body ++ after)
    with (fence ++ kind_name k ++ nl :: body ++ nl :: fence ++ after)
    by block_assoc.
  rewrite rmatch_seq, rmatch_lit, rmatch_seq.
  assert (forall (kc : cont) caps r,
            kc (MState (pos + length fence + length (kind_name k))
                       (nl :: body ++ nl :: fence ++ after) caps) = Some r ->
            rmatch (Alt (lit (txt "console")) (lit (txt "esql")))
                   (MState (pos + length fence)
                           (kind_name k ++ nl :: body ++ nl :: fence ++ after) caps) kc
            = Some r) as Hkind.
  { intros kc caps r Hkc. destruct k.
    - apply rmatch_alt_l. change (kind_name Console) with (txt "console").
      by rewrite rmatch_lit.
    - rewrite rmatch_alt_r by (by apply rmatch_lit_fail).
      change (kind_name ESQL) with (txt "esql"). by rewrite rmatch_lit. }
  rewrite (Hkind _ _ (MState (S (pos + length fence + length (kind_name k)) + length body + 4)
                              after [(1, body)])).
  - cbn [m_pos m_caps]. f_equal. f_equal.
    replace (_ - pos) with (length (block_text k body)) by block_len.
    replace (fence ++ kind_name k ++ nl :: body ++ nl :: fence ++ after)
      with (block_text k body ++ after) by block_assoc.
    apply take_app_length.
  - rewrite rmatch_seq, rmatch_chr. cbn [cmatch]. rewrite ascii_eqb_refl.
    rewrite rmatch_seq, rmatch_group, rmatch_star. cbn [m_rest m_pos].
    apply lazy_body_stops.
    + exact Hfree.
    + len.
    + intros st Hst. by apply code_closing_fails.
    + unfold set_cap, code_closing. cbn [m_pos m_rest m_caps].
      rewrite rmatch_seq, rmatch_chr. cbn [cmatch]. rewrite ascii_eqb_refl.
      rewrite rmatch_seq, rmatch_lit. cbn [rmatch].
      replace (_ - _) with (length body) by lia.
      rewrite take_app_length. do 2 f_equal. change (length fence) with 3. lia.
Qed.

(** *** The annotations of a snippet file *)

Lemma annotations_need_fence pos s :
  startswith s fence = false -> match_at snippet_annotations_pattern pos s = None.
Proof.
  intros Hs. unfold match_at, snippet_annotations_pattern. cbn [seqs fold_right].
  rewrite rmatch_seq. by rewrite rmatch_lit_fail.
Qed.

Lemma annotations_search_prefix pre : forall pos s,
  no_backtick pre = true ->
  search_from snippet_annotations_pattern pos (pre ++ s) =
  search_from snippet_annotations_pattern (pos + length pre) s.
Proof.
  induction pre as [|c pre IH]; intros pos s Hpre; cbn [app length].
  - by rewrite Nat.add_0_r.
  - cbn [no_backtick forallb] in Hpre. apply andb_true_iff in Hpre as [Hc Hpre].
    rewrite search_from_cons, annotations_need_fence.
    + rewrite IH by done. by rewrite Nat.add_succ_r.
    + change fence with ("`"%char :: txt "``"). cbn [startswith].
      apply negb_true_iff in Hc. unfold ascii_eqb in *. by rewrite Ascii.eqb_sym, Hc.
Qed.

(** The name of a kind begins with a letter and has no backtick. *)
Lemma kind_name_head k :
  exists c s, kind_name k = c :: s /\ ascii_eqb nl c = false /\ ascii_eqb "`" c = false /\
              no_backtick (kind_name k) = true.
Proof. destruct k; by eexists _, _. Qed.

(** The pattern of the annotations matches nowhere in the opening fence. *)
Lemma annotations_search_opening k pos s :
  search_from snippet_annotations_pattern pos (fence ++ kind_name k ++ s) =
  search_from snippet_annotations_pattern (pos + 3) (kind_name k ++ s).
Proof.
  destruct (kind_name_head k) as (c & name & Hname & Hnl & Htick & _).
  rewrite Hname. change fence with ("`"%char :: "`"%char :: "`"%char :: []). cbn [app].
  rewrite search_from_cons.
  assert (match_at snippet_annotations_pattern pos
            ("`"%char :: "`"%char :: "`"%char :: c :: name ++ s) = None) as ->.
  { unfold match_at, snippet_annotations_pattern. cbn [seqs fold_right].
    change ("`"%char :: "`"%char :: "`"%char :: c :: name ++ s)
      with (fence ++ c :: name ++ s).
    rewrite rmatch_seq, rmatch_lit, rmatch_seq, rmatch_chr. cbn [cmatch]. by rewrite Hnl. }
  rewrite search_from_cons, annotations_need_fence.
  2:{ change fence with ("`"%char :: "`"%char :: "`"%char :: []). cbn [startswith].
      rewrite !ascii_eqb_refl, Htick. done. }
  rewrite search_from_cons, annotations_need_fence.
  2:{ change fence with ("`"%char :: "`"%char :: "`"%char :: []). cbn [startswith].
      rewrite !ascii_eqb_refl, Htick. done. }
  do 2 f_equal. lia.
Qed.

(** At a closing fence that a blank line and a numbered list follow, the
    pattern of the annotations matches and its group is the list. *)
Lemma annotations_match item items pos :
  forallb valid_item (item :: items) = true ->
  exists h,
    match_at snippet_annotations_pattern pos
      (fence ++ nl :: nl :: render_list (item :: items) ++ [nl]) = Some h /\
    group 1 h = render_list (item :: items).
Proof.
  intros Hvalid. unfold match_at, snippet_annotations_pattern. cbn [seqs fold_right].
  rewrite rmatch_seq, rmatch_lit, rmatch_seq, rmatch_chr. cbn [cmatch]. rewrite ascii_eqb_refl.
  rewrite rmatch_seq, rmatch_chr. cbn [cmatch]. rewrite ascii_eqb_refl.
  rewrite rmatch_seq, rmatch_group. cbn [m_rest m_pos].
  erewrite numbered_list_matches; [|exact Hvalid|reflexivity|reflexivity].
  eexists. split; [reflexivity|].
  cbn [group cap_lookup h_caps set_cap m_caps m_pos Nat.eqb].
  replace (_ - _) with (length (render_list (item :: items))) by lia.
  by rewrite take_app_length.
Qed.

Lemma annotations_search_end pos :
  search_from snippet_annotations_pattern pos (fence ++ [nl]) = None.
Proof. vm_compute. reflexivity. Qed.

Lemma snippet_code_kind k code0 : snippet_code (kind_name k) code0 = (kind_name k, code0).
Proof. by destruct k. Qed.

(** A console or esql snippet file that write_snippet_file writes is read
    back by parse_snippet_file as the code and the annotations it was
    written with, when the code has no backtick and the annotations are empty
    or a numbered list. *)
Theorem snippet_files_are_read_back (k : block_kind) (code0 annotations : str) :
  no_backtick code0 = true ->
  annotations = [] \/ annotation_list annotations ->
  parse_snippet_file (snippet_content (kind_name k) code0 annotations) = (code0, annotations).
Proof.
  intros Hcode Hann. unfold snippet_content. rewrite snippet_code_kind.
  set (after := if truthy annotations then [nl] ++ annotations ++ [nl] else []).
  assert (fence ++ kind_name k ++ [nl] ++ code0 ++ [nl] ++ fence ++ [nl] ++ after
          = block_text k code0 ++ nl :: after) as Hblock by block_assoc.
  unfold parse_snippet_file, re_search.
  rewrite Hblock at 1.
  rewrite (search_from_here _ _ _ _ (snippet_code_matches k code0 (nl :: after) 0
                                       (no_backtick_fence_free code0 Hcode))).
  cbn [group cap_lookup h_caps Nat.eqb]. f_equal.
  rewrite annotations_search_opening.
  replace (kind_name k ++ [nl] ++ code0 ++ [nl] ++ fence ++ [nl] ++ after)
    with ((kind_name k ++ nl :: code0 ++ [nl]) ++ fence ++ nl :: after)
    by (rewrite <- !app_assoc; cbn [app]; by rewrite <- !app_assoc).
  rewrite annotations_search_prefix.
  2:{ destruct (kind_name_head k) as (_ & _ & _ & _ & _ & Hkind).
      unfold no_backtick in *. rewrite forallb_app. cbn [forallb].
      by rewrite Hkind, forallb_app, Hcode. }
  destruct Hann as [->|(item & items & Hlist & Hvalid & Hstrip)].
  - unfold after. cbn [truthy]. by rewrite annotations_search_end.
  - assert (truthy annotations = true) as Htruthy.
    { destruct (render_list_not_empty item items) as (c & s & Hc).
      - cbn [forallb] in Hvalid. by apply andb_true_iff in Hvalid as [? _].
      - by rewrite Hlist, Hc. }
    unfold after. rewrite Htruthy, Hlist. cbn [app].
    destruct (annotations_match item items
                (0 + 3 + length (kind_name k ++ nl :: code0 ++ [nl])) Hvalid)
      as (h & Hm & Hgroup).
    rewrite (search_from_here _ _ _ _ Hm). cbn [group] in Hgroup.
    rewrite Hgroup. by rewrite <- Hlist.
Qed.

(** ** Example numbers in file names *)

Lemma is_digit_of_N (n : N) : (n < 10)%N -> is_digit (ascii_of_N (48 + n)) = true.
Proof.
  intros Hn. unfold is_digit, between, code, nat_of_ascii.
  rewrite N_ascii_embedding by lia.
  apply andb_true_iff. split; apply Nat.leb_le; lia.
Qed.

Lemma N_of_digit (n : N) : (n < 10)%N -> (N_of_ascii (ascii_of_N (48 + n)) - 48 = n)%N.
Proof. intros Hn. rewrite N_ascii_embedding by lia. lia. Qed.

(** The digits that [digits_go] puts before [acc] are the decimal digits
    of the number. *)
Lemma digits_go_spec fuel : forall n acc,
  (n < 2 ^ N.of_nat (S fuel))%N ->
  exists ds,
    digits_go (S fuel) n acc = ds ++ acc /\ ds <> [] /\ forallb is_digit ds = true /\
    forall a,
      fold_left (fun acc c => (10 * acc + (N_of_ascii c - 48))%N) ds a
      = (a * 10 ^ N.of_nat (length ds) + n)%N.
Proof.
  assert (forall n, (n < 10)%N -> forall acc,
            exists ds,
              ascii_of_N (48 + n mod 10) :: acc = ds ++ acc /\ ds <> [] /\
              forallb is_digit ds = true /\
              forall a,
                fold_left (fun acc c => (10 * acc + (N_of_ascii c - 48))%N) ds a
                = (a * 10 ^ N.of_nat (length ds) + n)%N) as Hsmall.
  { intros n Hn acc. exists [ascii_of_N (48 + n mod 10)].
    rewrite N.mod_small by done. split; [done|]. split; [done|]. split.
    - cbn [forallb]. by rewrite is_digit_of_N.
    - intros a. cbn [fold_left length]. rewrite N_of_digit by done.
      change (N.of_nat 1) with 1%N. lia. }
  induction fuel as [|fuel IH]; intros n acc Hn.
  - change (2 ^ N.of_nat 1)%N with 2%N in Hn.
    cbn [digits_go]. assert (n < 10)%N as Hlt by lia.
    apply N.ltb_lt in Hlt as Hb. rewrite Hb. by apply Hsmall.
  - change (digits_go (S (S fuel)) n acc)
      with (if (n <? 10)%N then ascii_of_N (48 + n mod 10) :: acc
            else digits_go (S fuel) (n / 10) (ascii_of_N (48 + n mod 10) :: acc)).
    destruct (n <? 10)%N eqn:Hb.
    + apply N.ltb_lt in Hb. by apply Hsmall.
    + apply N.ltb_ge in Hb.
      assert (n / 10 < 2 ^ N.of_nat (S fuel))%N as Hdiv.
      { apply N.Div0.div_lt_upper_bound.
        rewrite Nat2N.inj_succ, N.pow_succ_r' in Hn. lia. }
      destruct (IH (n / 10)%N (ascii_of_N (48 + n mod 10) :: acc) Hdiv)
        as (ds & Hds & Hne & Hdigits & Hval).
      exists (ds ++ [ascii_of_N (48 + n mod 10)]).
      split; [by rewrite Hds, <- app_assoc|].
      split; [by destruct ds|].
      assert (n mod 10 < 10)%N as Hmod by (apply N.mod_lt; lia).
      split.
      * rewrite forallb_app, Hdigits. cbn [forallb]. by rewrite is_digit_of_N.
      * intros a. rewrite fold_left_app, Hval. cbn [fold_left].
        rewrite N_of_digit by done.
        rewrite length_app. cbn [length]. rewrite Nat.add_1_r, Nat2N.inj_succ, N.pow_succ_r'.
        pose proof (N.div_mod n 10 ltac:(lia)) as Hn10. lia.
Qed.

Lemma str_of_N_spec (n : N) :
  str_of_N n <> [] /\ forallb is_digit (str_of_N n) = true /\ int_of_digits (str_of_N n) = n.
Proof.
  unfold str_of_N, int_of_digits.
  destruct (digits_go_spec (N.to_nat (N.log2 n)) n []) as (ds & Hds & Hne & Hdigits & Hval).
  - rewrite Nat2N.inj_succ, N2Nat.id.
    destruct (N.eq_dec n 0%N) as [->|Hpos]; [done|].
    apply N.log2_spec. lia.
  - rewrite Hds, app_nil_r. split; [done|]. split; [done|]. rewrite Hval. lia.
Qed.

(** The name of a console snippet is read as a console snippet with its
    number. *)
Lemma console_name_matches (n : N) :
  exists h,
    re_match console_name_pattern (snippet_filename n (txt "console")) = Some h /\
    group 1 h = str_of_N n.
Proof.
  destruct (str_of_N_spec n) as (Hne & Hdigits & _).
  unfold re_match, match_at, console_name_pattern, snippet_filename.
  cbn [seqs fold_right]. unfold plus.
  destruct (str_of_N n) as [|d ds]; [done|]. cbn [forallb] in Hdigits.
  apply andb_true_iff in Hdigits as [Hd Hds].
  rewrite rmatch_seq, rmatch_lit, rmatch_seq, rmatch_group, rmatch_seq. cbn [app].
  rewrite rmatch_chr. cbn [cmatch]. rewrite Hd.
  rewrite rmatch_star. cbn [m_rest m_pos].
  change (txt "-" ++ txt "console" ++ txt ".md") with (txt "-console.md" ++ []).
  erewrite greedy_class_all; [|exact Hds|reflexivity|rewrite length_app; lia|].
  2:{ unfold set_cap. cbn [m_pos m_rest m_caps].
      rewrite rmatch_seq, rmatch_lit. reflexivity. }
  eexists. split; [reflexivity|].
  cbn [group cap_lookup h_caps Nat.eqb].
  replace (_ - _) with (length (d :: ds)) by (cbn [length]; lia).
  change (d :: ds ++ txt "-console.md" ++ []) with ((d :: ds) ++ txt "-console.md" ++ []).
  by rewrite take_app_length.
Qed.

Lemma console_name_glob (n : N) :
  glob_match (txt "example") (txt "-console.md") (snippet_filename n (txt "console")) = true.
Proof.
  unfold glob_match, snippet_filename.
  rewrite startswith_app. cbn [andb].
  apply andb_true_iff. split.
  - unfold endswith.
    change (txt "-" ++ txt "console" ++ txt ".md") with (txt "-console.md").
    rewrite !rev_app_distr, <- !app_assoc. apply startswith_app.
  - apply Nat.leb_le. rewrite !length_app. cbn [length txt].
    change (length (txt "example")) with 7. change (length (txt "-console.md")) with 11.
    change (length (txt "-")) with 1. change (length (txt "console")) with 7.
    change (length (txt ".md")) with 3. lia.
Qed.

(** *** The sorted list of console snippets *)

Lemma insert_by_num_In x l y : In y (insert_by_num x l) <-> y = x \/ In y l.
Proof.
  induction l as [|z l IH]; cbn [insert_by_num In]; [intuition congruence|].
  destruct (fst x <=? fst z)%N; cbn [In]; [intuition congruence|].
  rewrite IH. intuition congruence.
Qed.

Lemma sort_by_num_In l y : In y (sort_by_num l) <-> In y l.
Proof.
  induction l as [|x l IH]; [done|]. cbn [sort_by_num fold_right In].
  rewrite insert_by_num_In. fold (sort_by_num l). rewrite IH. intuition congruence.
Qed.

Lemma insert_by_num_sorted x l :
  StronglySorted (fun a b => (fst a <= fst b)%N) l ->
  StronglySorted (fun a b => (fst a <= fst b)%N) (insert_by_num x l).
Proof.
  induction 1 as [|z l Hl IH Hz]; cbn [insert_by_num]; [by repeat constructor|].
  destruct (fst x <=? fst z)%N eqn:Hle.
  - apply N.leb_le in Hle. constructor; [by constructor|].
    constructor; [done|]. eapply Forall_impl; [exact Hz|]. cbn beta. intros. lia.
  - apply N.leb_gt in Hle. constructor; [done|].
    apply Forall_forall. intros y Hy%list_elem_of_In. apply (proj1 (insert_by_num_In _ _ _)) in Hy.
    destruct Hy as [->|Hy]; [lia|].
    rewrite Forall_forall in Hz. apply Hz. by apply list_elem_of_In.
Qed.

Lemma sort_by_num_sorted l : StronglySorted (fun a b => (fst a <= fst b)%N) (sort_by_num l).
Proof.
  induction l as [|x l IH]; [constructor|]. by apply insert_by_num_sorted.
Qed.

(** get_console_snippets lists the console snippets in ascending order of
    their numbers; every entry names a file of the directory with the number
    that its name carries, and a file that write_snippet_file wrote as the
    console snippet of example n is listed with the number n. *)
Theorem get_console_snippets_lists_the_numbered_snippets (d : gmap str str) :
  StronglySorted (fun a b => (fst a <= fst b)%N) (get_console_snippets d)
  /\ (forall m name, In (m, name) (get_console_snippets d) ->
        is_Some (d !! name) /\
        exists h, re_match console_name_pattern name = Some h /\
                  m = int_of_digits (group 1 h))
  /\ (forall n, is_Some (d !! snippet_filename n (txt "console")) ->
        In (n, snippet_filename n (txt "console")) (get_console_snippets d)).
Proof.
  unfold get_console_snippets. split_and!.
  - apply sort_by_num_sorted.
  - intros m name Hin. apply (proj1 (sort_by_num_In _ _)) in Hin.
    apply in_flat_map in Hin as (name' & Hglob & Hin).
    apply glob_names in Hglob as [Hsome _].
    destruct (re_match console_name_pattern name') as [h|] eqn:Hm; [|done].
    destruct Hin as [[= <- <-]|[]]. split; [done|]. by exists h.
  - intros n Hsome. apply sort_by_num_In, in_flat_map.
    exists (snippet_filename n (txt "console")). split.
    + apply glob_names. split; [done|apply console_name_glob].
    + destruct (console_name_matches n) as (h & -> & Hgroup).
      rewrite Hgroup. left. f_equal. apply str_of_N_spec.
Qed.

(** *** Console snippets without a number *)

(** has_console_snippets counts every file example*-console.md, but
    get_console_snippets lists only those with a number after example.  In a
    directory whose console snippets all lack the number, a regeneration that
    returns has removed every example*.md file and written none, and reports
    success. *)
Theorem regenerate_without_numbered_snippets_removes_all
    (run_converter : list str -> str -> proc_result)
    (parent_filename : str) (languages : option (list str)) (w w' : world) (r : report)
    (d : gmap str str) :
  w_dir w = Some d ->
  has_console_snippets (Some d) = true ->
  get_console_snippets d = [] ->
  regenerate_from_snippets run_converter parent_filename languages w = (Ok r, w') ->
  r = Completed true
  /\ exists d', w_dir w' = Some d' /\
       forall name, is_Some (d' !! name) <->
         is_Some (d !! name) /\ glob_match (txt "example") (txt ".md") name = false.
Proof.
  intros Hd Hhas Hnone Hrun. unfold regenerate_from_snippets in Hrun.
  apply bind_ok in Hrun as (dir & w0 & Hdir & Hrun).
  apply ret_ok in Hdir as [-> ->].
  rewrite Hd, Hhas in Hrun. cbn [negb default from_option id] in Hrun.
  rewrite Hnone in Hrun. cbn [read_console_data flat_map length enumerate1 seq map combine]
    in Hrun.
  apply bind_ok in Hrun as (u1 & w1 & Hclean & Hrun).
  apply bind_ok in Hrun as (markdown_text & w2 & Hread & Hrun).
  apply ret_ok in Hread as [-> ->].
  apply bind_ok in Hrun as (any_errors & w3 & Hloop & Hrun).
  cbn [for_each_flag] in Hloop. apply ret_ok in Hloop as [-> ->].
  apply bind_ok in Hrun as (u2 & w4 & Hdoc & Hrun).
  apply ret_ok in Hrun as [Hr ->].
  split; [exact Hr|].
  eapply unlink_all_ok in Hclean as (_ & d1 & Hd1 & Hdom1); [|exact Hd].
  assert (w_dir w4 = w_dir w1) as Hsame.
  { destruct (_ || _).
    - apply bind_ok in Hdoc as (updated & w5 & Hren & Hdoc).
      apply lift_ok in Hren as [_ ->].
      unfold write_doc in Hdoc. by injection Hdoc as _ <-.
    - by apply ret_ok in Hdoc as [_ ->]. }
  exists d1. rewrite Hsame. split; [done|].
  intros name. rewrite Hdom1, glob_names.
  destruct (glob_match (txt "example") (txt ".md") name); intuition congruence.
Qed.

(** ** clean_language_snippets *)

Lemma clean_loop_ok keep_languages names : forall w d deleted_count,
  w_dir w = Some d ->
  NoDup names ->
  (forall name, In name names -> is_Some (d !! name)) ->
  exists w' d',
    clean_loop keep_languages names deleted_count w =
      (Ok (deleted_count +
           length (List.filter (fun name => negb (should_keep keep_languages name)) names)),
       w')
    /\ w_dir w' = Some d' /\ w_doc w' = w_doc w
    /\ w_log w' = w_log w ++
         map Unlinked (List.filter (fun name => negb (should_keep keep_languages name)) names)
    /\ forall name,
         d' !! name =
         if bool_decide (name ∈ names) && negb (should_keep keep_languages name)
         then None else d !! name.
Proof.
  induction names as [|x names IH]; intros w d deleted_count Hd Hnodup Hpresent.
  - exists w, d. cbn [clean_loop List.filter length map]. unfold ret.
    rewrite Nat.add_0_r, app_nil_r. split_and!; done.
  - apply NoDup_cons in Hnodup as [Hfresh Hnodup].
    cbn [clean_loop List.filter].
    destruct (should_keep keep_languages x) eqn:Hkeep; cbn [negb].
    + destruct (IH w d deleted_count Hd Hnodup) as (w' & d' & Hrun & Hd' & Hdoc & Hlog & Hdom).
      { intros name Hin. apply Hpresent. by right. }
      exists w', d'. split_and!; try done.
      intros name. rewrite Hdom.
      destruct (decide (name = x)) as [->|Hne].
      * rewrite Hkeep, !andb_false_r. done.
      * destruct (bool_decide_reflect (name ∈ names)) as [Hin|Hout].
        -- rewrite (bool_decide_eq_true_2 (name ∈ x :: names))
             by (rewrite elem_of_cons; auto). done.
        -- rewrite (bool_decide_eq_false_2 (name ∈ x :: names))
             by (rewrite elem_of_cons; intuition). done.
    + destruct (Hpresent x ltac:(by left)) as [content Hx].
      unfold bind at 1. unfold unlink at 1. rewrite Hd, Hx.
      destruct (IH (World (Some (delete x d)) (w_doc w) (w_log w ++ [Unlinked x]))
                   (delete x d) (deleted_count + 1) eq_refl Hnodup)
        as (w' & d' & Hrun & Hd' & Hdoc & Hlog & Hdom).
      { intros name Hin. rewrite lookup_delete_is_Some. split.
        - intros ->. by apply Hfresh, list_elem_of_In.
        - apply Hpresent. by right. }
      exists w', d'. rewrite Hrun. cbn [length map]. split_and!.
      * do 2 f_equal. lia.
      * done.
      * done.
      * rewrite Hlog. cbn [w_log]. by rewrite <- app_assoc.
      * intros name. rewrite Hdom.
        destruct (decide (name = x)) as [->|Hne].
        -- rewrite (bool_decide_eq_true_2 (x ∈ x :: names)) by (rewrite elem_of_cons; auto).
           rewrite Hkeep, lookup_delete_eq. cbn [negb andb].
           by destruct (bool_decide (x ∈ names)).
        -- rewrite lookup_delete_ne by done.
           destruct (bool_decide_reflect (name ∈ names)) as [Hin|Hout].
           ++ rewrite (bool_decide_eq_true_2 (name ∈ x :: names))
                by (rewrite elem_of_cons; auto). done.
           ++ rewrite (bool_decide_eq_false_2 (name ∈ x :: names))
                by (rewrite elem_of_cons; intuition). done.
Qed.

Lemma glob_NoDup (pre suf : str) (d : gmap str str) : NoDup (glob pre suf d).
Proof.
  unfold glob. apply NoDup_ListNoDup, List.NoDup_filter, NoDup_ListNoDup.
  apply NoDup_fst_map_to_list.
Qed.

(** clean_language_snippets always returns.  Without a snippet directory it
    returns zero and does nothing.  With one, it removes exactly the files
    example*.md whose names do not end in -{lang}.md for a language to keep,
    leaves every other file with its content, does not touch the document,
    and returns the number of files it removed. *)
Theorem clean_language_snippets_removes_the_other_languages
    (keep_languages : list str) (w : world) :
  match w_dir w with
  | None => clean_language_snippets keep_languages w = (Ok 0, w)
  | Some d =>
      exists w' d',
        clean_language_snippets keep_languages w =
          (Ok (length (List.filter (cleaned keep_languages) (map fst (map_to_list d)))), w')
        /\ w_dir w' = Some d' /\ w_doc w' = w_doc w
        /\ w_log w' = w_log w ++
             map Unlinked (List.filter (cleaned keep_languages) (map fst (map_to_list d)))
        /\ forall name,
             d' !! name = if cleaned keep_languages name then None else d !! name
  end.
Proof.
  unfold clean_language_snippets, bind, read_dir.
  destruct (w_dir w) as [d|] eqn:Hd; [|done].
  destruct (clean_loop_ok keep_languages (glob (txt "example") (txt ".md") d) w d 0 Hd
              (glob_NoDup _ _ d))
    as (w' & d' & Hrun & Hd' & Hdoc & Hlog & Hdom).
  { intros name Hin. by apply glob_names in Hin as [? _]. }
  assert (List.filter (fun name => negb (should_keep keep_languages name))
                      (glob (txt "example") (txt ".md") d)
          = List.filter (cleaned keep_languages) (map fst (map_to_list d))) as Hfilter.
  { unfold glob, cleaned. generalize (map fst (map_to_list d)). intros names.
    induction names as [|x names IH]; [done|]. cbn [List.filter].
    destruct (glob_match (txt "example") (txt ".md") x); cbn [List.filter andb]; [|done].
    destruct (should_keep keep_languages x); cbn [negb]; by rewrite IH. }
  exists w', d'. rewrite Hrun, Hlog, Hfilter. split_and!; try done.
  intros name. rewrite Hdom. unfold cleaned.
  destruct (should_keep keep_languages name); [by rewrite !andb_false_r|].
  rewrite !andb_true_r.
  destruct (bool_decide_reflect (name ∈ glob (txt "example") (txt ".md") d)) as [Hin|Hout].
  - apply list_elem_of_In, glob_names in Hin as [_ ->]. done.
  - destruct (glob_match (txt "example") (txt ".md") name) eqn:Hglob; [|done].
    destruct (d !! name) as [content|] eqn:Hname; [|done].
    exfalso. apply Hout, list_elem_of_In, glob_names. eauto.
Qed.

(** ** The renumbering of include paths *)

(** The pattern of the parent name matches the parent name. *)
Lemma name_pattern_matches parent : forall r pos rest caps (k : cont),
  name_pattern parent = Some r ->
  rmatch r (MState pos (parent ++ rest) caps) k = k (MState (pos + length parent) rest caps).
Proof.
  induction parent as [|c parent IH]; intros r pos rest caps k Hr; cbn [name_pattern] in Hr.
  - injection Hr as <-. rewrite rmatch_eps. cbn [app length]. by rewrite Nat.add_0_r.
  - destruct (name_pattern parent) as [r'|] eqn:Hr'; [|done].
    cbn [app length]. rewrite Nat.add_succ_r.
    destruct (ascii_eqb c ".") eqn:Hdot.
    + injection Hr as <-. apply ascii_eqb_eq in Hdot as ->.
      rewrite rmatch_seq, rmatch_chr.
      change (cmatch CDot ".") with true. cbn match. by rewrite (IH r').
    + destruct (is_special c); [done|]. injection Hr as <-.
      rewrite rmatch_seq, rmatch_chr. cbn [cmatch]. rewrite ascii_eqb_refl.
      by rewrite (IH r').
Qed.

(** The include pattern matches the path of a snippet file of the number,
    with the text up to the number and the text after it as its groups. *)
Lemma include_pattern_matches parent r old_num lang post pos :
  name_pattern parent = Some r ->
  lang <> [] ->
  forallb is_word lang = true ->
  exists h,
    match_at (include_pattern r old_num) pos
      (txt "_snippets/" ++ parent ++ txt "/example" ++ str_of_N old_num ++
       "-"%char :: lang ++ txt ".md" ++ post) = Some h
    /\ h_text h = txt "_snippets/" ++ parent ++ txt "/example" ++ str_of_N old_num ++
                  "-"%char :: lang ++ txt ".md"
    /\ group 1 h = txt "_snippets/" ++ parent ++ txt "/example"
    /\ group 2 h = "-"%char :: lang ++ txt ".md".
Proof.
  intros Hr Hne Hword. unfold match_at, include_pattern. cbn [seqs fold_right]. unfold plus.
  destruct lang as [|c lang]; [done|]. cbn [forallb] in Hword.
  apply andb_true_iff in Hword as [Hc Hword].
  rewrite rmatch_seq, rmatch_group, rmatch_seq, rmatch_lit.
  rewrite rmatch_seq, (name_pattern_matches parent r) by done.
  rewrite rmatch_seq, rmatch_lit, rmatch_eps.
  unfold set_cap. cbn [m_pos m_rest m_caps].
  rewrite rmatch_seq, rmatch_lit.
  rewrite rmatch_seq, rmatch_group, rmatch_seq, rmatch_chr. cbn [cmatch].
  rewrite ascii_eqb_refl.
  cbn [app]. rewrite rmatch_seq, rmatch_seq, rmatch_chr. cbn [cmatch]. rewrite Hc.
  rewrite rmatch_star. cbn [m_rest m_pos].
  erewrite greedy_class_all; [|exact Hword|reflexivity|rewrite length_app; lia|].
  2:{ rewrite rmatch_seq, rmatch_lit, rmatch_eps. unfold set_cap.
      cbn [m_pos m_rest m_caps]. rewrite rmatch_eps. reflexivity. }
  eexists. split; [reflexivity|].
  cbn [h_text group cap_lookup h_caps Nat.eqb m_pos m_caps].
  set (p1 := txt "_snippets/" ++ parent ++ txt "/example").
  set (t2 := "-"%char :: c :: lang ++ txt ".md").
  change (length (txt "_snippets/")) with 10.
  change (length (txt "/example")) with 8.
  change (length (txt ".md")) with 3.
  split_and!.
  - replace (_ - pos) with (length (p1 ++ str_of_N old_num ++ t2)).
    2:{ unfold p1, t2. rewrite !length_app. cbn [length]. rewrite !length_app.
        cbn [length txt]. change (length (txt "_snippets/")) with 10.
        change (length (txt "/example")) with 8. change (length (txt ".md")) with 3. lia. }
    replace (txt "_snippets/" ++ parent ++ txt "/example" ++ str_of_N old_num ++
             "-"%char :: c :: lang ++ txt ".md" ++ post)
      with ((p1 ++ str_of_N old_num ++ t2) ++ post).
    2:{ unfold p1, t2. rewrite <- !app_assoc. cbn [app]. by rewrite <- !app_assoc. }
    rewrite take_app_length. unfold p1, t2. by rewrite <- !app_assoc.
  - replace (_ - pos) with (length p1).
    2:{ unfold p1. rewrite !length_app. change (length (txt "_snippets/")) with 10.
        change (length (txt "/example")) with 8. lia. }
    replace (txt "_snippets/" ++ parent ++ txt "/example" ++ str_of_N old_num ++
             "-"%char :: c :: lang ++ txt ".md" ++ post)
      with (p1 ++ str_of_N old_num ++ "-"%char :: c :: lang ++ txt ".md" ++ post).
    2:{ unfold p1. by rewrite <- !app_assoc. }
    by rewrite take_app_length.
  - replace (_ - _) with (length t2).
    2:{ unfold t2. cbn [length]. rewrite length_app.
        change (length (txt ".md")) with 3. lia. }
    change ("-"%char :: c :: lang ++ txt ".md" ++ post) with
      (("-"%char :: c :: lang) ++ txt ".md" ++ post).
    rewrite app_assoc. change (("-"%char :: c :: lang) ++ txt ".md") with t2.
    by rewrite take_app_length.
Qed.

Lemma plain_name_pattern name : plain_name name = true -> exists r, name_pattern name = Some r.
Proof.
  induction name as [|c name IH]; intros Hname; cbn [name_pattern]; [by eexists|].
  cbn [plain_name forallb] in Hname. apply andb_true_iff in Hname as [Hc Hname].
  destruct (IH Hname) as [r ->].
  destruct (ascii_eqb c "."); [by eexists|].
  cbn [orb] in Hc. apply negb_true_iff in Hc as ->. by eexists.
Qed.

(** The include pattern matches only where the text _snippets/ begins. *)
Lemma include_pattern_needs_prefix r old_num pos rest :
  startswith rest (txt "_snippets/") = false ->
  match_at (include_pattern r old_num) pos rest = None.
Proof.
  intros Hs. unfold match_at, include_pattern. cbn [seqs fold_right].
  rewrite rmatch_seq, rmatch_group, rmatch_seq. by rewrite rmatch_lit_fail.
Qed.

Lemma include_pattern_needs_underscore r old_num pos rest :
  mem_char "_" rest = false -> match_at (include_pattern r old_num) pos rest = None.
Proof.
  intros Hfree. apply include_pattern_needs_prefix.
  destruct rest as [|c rest]; [done|].
  unfold mem_char in Hfree. cbn [existsb] in Hfree.
  apply orb_false_iff in Hfree as [Hc _].
  change (txt "_snippets/") with ("_"%char :: txt "snippets/"). cbn [startswith].
  by rewrite Hc.
Qed.

Lemma segments_before_underscore r old_num pre : forall pos s,
  mem_char "_" pre = false ->
  segments (include_pattern r old_num) pos (pre ++ s) 0 =
  map Raw pre ++ segments (include_pattern r old_num) (pos + length pre) s 0.
Proof.
  induction pre as [|c pre IH]; intros pos s Hfree; cbn [app length map].
  - by rewrite Nat.add_0_r.
  - unfold mem_char in Hfree. cbn [existsb] in Hfree.
    apply orb_false_iff in Hfree as [Hc Hfree].
    cbn [segments]. rewrite include_pattern_needs_prefix.
    + rewrite IH by done. by rewrite Nat.add_succ_r.
    + change (txt "_snippets/") with ("_"%char :: txt "snippets/"). cbn [startswith].
      by rewrite Hc.
Qed.

Lemma sub_raw tpl (s : str) :
  flat_map (fun sg => match sg with Raw c => [c] | Found h => expand tpl h end) (map Raw s) = s.
Proof. induction s as [|c s IH]; cbn [map flat_map app]; [done|]. by rewrite IH. Qed.

Lemma mem_char_app c (a b : str) : mem_char c (a ++ b) = mem_char c a || mem_char c b.
Proof. apply existsb_app. Qed.

(** renumber_includes rewrites the include directive that
    build_include_directive wrote for a snippet of the old number into the
    directive for the new number, and leaves the text around it as it is,
    when the document name is plain, the language is one word and the text
    around the directive has no underscore. *)
Theorem renumber_includes_rewrites_the_directive
    (parent_filename : str) (old_num new_num : N) (lang pre post : str) :
  plain_name parent_filename = true ->
  lang <> [] ->
  forallb is_word lang = true ->
  mem_char "_" pre = false ->
  mem_char "_" post = false ->
  renumber_includes parent_filename old_num new_num
    (pre ++ build_include_directive (txt "_snippets") parent_filename old_num lang ++ post)
  = Ok (pre ++ build_include_directive (txt "_snippets") parent_filename new_num lang ++ post).
Proof.
  intros Hname Hne Hword Hpre Hpost.
  destruct (plain_name_pattern _ Hname) as [r Hr].
  unfold renumber_includes. rewrite Hr. f_equal.
  fold (include_pattern r old_num).
  assert (forall n,
            pre ++ build_include_directive (txt "_snippets") parent_filename n lang ++ post
            = (pre ++ txt ":::{include} ") ++
              (txt "_snippets/" ++ parent_filename ++ txt "/example" ++ str_of_N n ++
               "-"%char :: lang ++ txt ".md") ++
              (nl :: txt ":::" ++ post)) as Hshape.
  { intros n. unfold build_include_directive, snippet_filename.
    rewrite <- !app_assoc. cbn [app]. rewrite <- !app_assoc. reflexivity. }
  rewrite !Hshape.
  set (path := txt "_snippets/" ++ parent_filename ++ txt "/example" ++ str_of_N old_num ++
               "-"%char :: lang ++ txt ".md").
  assert (mem_char "_" (pre ++ txt ":::{include} ") = false) as Hpre'
    by (by rewrite mem_char_app, Hpre).
  assert (mem_char "_" (nl :: txt ":::" ++ post) = false) as Hpost'.
  { change (nl :: txt ":::" ++ post) with ((nl :: txt ":::") ++ post).
    by rewrite mem_char_app, Hpost. }
  revert Hpre' Hpost'.
  generalize (pre ++ txt ":::{include} "). generalize (nl :: txt ":::" ++ post).
  intros post' pre' Hpre' Hpost'.
  destruct (include_pattern_matches parent_filename r old_num lang post'
              (0 + length pre') Hr Hne Hword)
    as (h & Hm & Htext & Hg1 & Hg2).
  fold path in Htext.
  assert (txt "_snippets/" ++ parent_filename ++ txt "/example" ++ str_of_N old_num ++
          "-"%char :: lang ++ txt ".md" ++ post' = path ++ post') as Hflat.
  { unfold path. rewrite <- !app_assoc. cbn [app]. by rewrite <- !app_assoc. }
  rewrite Hflat in Hm.
  unfold re_sub, scan.
  rewrite segments_before_underscore by done.
  rewrite (segments_found _ _ path post' h Hm Htext) by done.
  rewrite (segments_no_match _ (mem_char "_")).
  2:{ intros pos rest Hrest. by apply include_pattern_needs_underscore. }
  2:{ intros c s. apply mem_char_tail. }
  2:{ done. }
  rewrite flat_map_app, sub_raw. cbn [flat_map]. rewrite sub_raw.
  unfold expand. cbn [flat_map]. rewrite Hg1, Hg2, app_nil_r.
  rewrite <- !app_assoc. cbn [app]. by rewrite <- !app_assoc.
Qed.

(** ** has_language_tabs *)

Lemma cmatch_brace c : cmatch (CCharI "{") c = true -> c = "{"%char.
Proof. destruct c as [[] [] [] [] [] [] [] []]; vm_compute; congruence. Qed.

(** A text of a literal that ignores case holds every character of the
    literal that has one case only. *)
Lemma lang_lit_i_needs p x :
  In x p ->
  (forall c, cmatch (CCharI x) c = true -> c = x) ->
  forall w, lang (lit_i p) w -> In x w.
Proof.
  intros Hin Hone. induction p as [|c p IH]; [done|]. intros w Hw.
  cbn [lit_i fold_right] in Hw. apply lang_seq_inv in Hw as (w1 & w2 & -> & Hc & Hp).
  apply lang_chr_inv in Hc as (c' & -> & Hc). cbn [app].
  destruct Hin as [->|Hin].
  - left. by apply Hone.
  - right. by apply IH.
Qed.

Lemma tab_pattern_needs_brace label sync w : lang (tab_pattern label sync) w -> In "{"%char w.
Proof.
  intros Hw. unfold tab_pattern in Hw. cbn [seqs fold_right plus] in Hw.
  apply lang_seq_inv in Hw as (w1 & w2 & -> & _ & Hw).
  apply lang_seq_inv in Hw as (w3 & w4 & -> & _ & Hw).
  apply lang_seq_inv in Hw as (w5 & w6 & -> & Hitem & _).
  rewrite !in_app_iff. right. right. left.
  apply (lang_lit_i_needs (txt "{tab-item}") "{"%char); [by left|apply cmatch_brace|done].
Qed.

(** A document without an opening brace has no language tabs: create mode
    does not refuse it. *)
Theorem document_without_braces_has_no_language_tabs
    (markdown_text : str) (languages : option (list str)) :
  mem_char "{" markdown_text = false ->
  has_language_tabs markdown_text languages = None.
Proof.
  intros Hfree.
  assert (forall label sync, re_search (tab_pattern label sync) markdown_text = None) as Hnone.
  { intros label sync.
    apply (re_search_no_match _ (mem_char "{")); [|apply mem_char_tail|done].
    intros pos rest Hrest. apply (match_at_needs_char _ "{"%char); [|done].
    apply tab_pattern_needs_brace. }
  unfold has_language_tabs. cbv zeta. rewrite Hnone. cbn [is_some].
  induction (languages_or_default languages) as [|lang langs IH]; [done|].
  cbn [find]. by rewrite Hnone.
Qed.

(** * The properties at sample inputs *)

(** Closed statements are settled by evaluation; an equality of directories
    is decided, which compares the entries and not the form of the maps. *)
Ltac evaluate := vm_compute; reflexivity.
Ltac evaluate_dir :=
  match goal with |- ?P => apply (bool_decide_unpack P) end; vm_compute; exact I.
(** C1, at the snippets 1, 3 and 4 and the language list [cobol]: the run
    removes every snippet file, writes example1-console.md and raises
    ValueError in convert_console; the snippets 3 and 4 are lost, no language
    snippet is written and the document is not updated. *)
Theorem regenerate_with_unsupported_languages_loses_snippets
    (run_converter : list str -> str -> proc_result) :
  let run := regenerate_from_snippets run_converter (txt "doc") (Some [txt "cobol"]) gap_world in
  fst run = Raise ValueError
  /\ w_dir (snd run) = Some {[ txt "example1-console.md" := console_snippet "GET /a" ]}
  /\ w_doc (snd run) = gap_doc.
Proof. cbv zeta. split_and!; [evaluate | evaluate_dir | evaluate]. Qed.

(** With a supported language the same directory is renumbered as the
    specification describes: the snippets 1, 3 and 4 become 1, 2 and 3, and
    the include paths of 3 and 4 become those of 2 and 3. *)
Lemma regenerate_renumbers_the_gap :
  let run := regenerate_from_snippets sample_converter (txt "doc") (Some [txt "curl"]) gap_world in
  fst run = Ok (Completed true)
  /\ w_dir (snd run) =
     Some (list_to_map
       [ (txt "example1-console.md", console_snippet "GET /a");
         (txt "example1-curl.md", lines ["```bash"; "# curl complete"; "GET /a"; "```"; ""]);
         (txt "example2-console.md", console_snippet "GET /b");
         (txt "example2-curl.md", lines ["```bash"; "# curl"; "GET /b"; "```"; ""]);
         (txt "example3-console.md", console_snippet "GET /c");
         (txt "example3-curl.md", lines ["```bash"; "# curl"; "GET /c"; "```"; ""]) ])
  /\ w_doc (snd run) =
     lines [ "::::{tab-set}"; ":::{include} _snippets/doc/example1-console.md"; "::::";
             "::::{tab-set}"; ":::{include} _snippets/doc/example2-console.md";
             ":::{include} _snippets/doc/example2-curl.md"; "::::";
             "::::{tab-set}"; ":::{include} _snippets/doc/example3-console.md"; "::::" ].
Proof. cbv zeta. split_and!; [evaluate | evaluate_dir | evaluate]. Qed.

(** A second defect behind C1: a console snippet without code is left out
    of the files but not of the renumbering of the document.  With the
    snippets 1, 3 (empty body) and 4 the files are numbered 1 and 2, the
    snippet 4 is now example2, and the document includes example3 for it, a
    file that does not exist. *)
Lemma regenerate_miscounts_an_empty_snippet :
  let run := regenerate_from_snippets sample_converter (txt "doc") (Some [txt "curl"])
               gap_world_empty_body in
  fst run = Ok (Completed true)
  /\ w_dir (snd run) =
     Some (list_to_map
       [ (txt "example1-console.md", console_snippet "GET /a");
         (txt "example1-curl.md", lines ["```bash"; "# curl complete"; "GET /a"; "```"; ""]);
         (txt "example2-console.md", console_snippet "GET /c");
         (txt "example2-curl.md", lines ["```bash"; "# curl"; "GET /c"; "```"; ""]) ])
  /\ w_doc (snd run) =
     lines [ "::::{tab-set}"; ":::{include} _snippets/doc/example1-console.md"; "::::";
             "::::{tab-set}"; ":::{include} _snippets/doc/example2-console.md";
             ":::{include} _snippets/doc/example2-curl.md"; "::::";
             "::::{tab-set}"; ":::{include} _snippets/doc/example3-console.md"; "::::" ].
Proof. cbv zeta. split_and!; [evaluate | evaluate_dir | evaluate]. Qed.

(** C2, at a console snippet whose annotation list is the line [1. ]: the
    first run writes the annotation as [1.], which is no list line any more,
    so the second run drops it; the console snippet after the second run is
    not the one after the first run. *)
Theorem regenerate_twice_changes_a_blank_annotation :
  let run := regenerate_from_snippets sample_converter (txt "doc") (Some [txt "curl"]) in
  let first := run blank_annotation_world in
  let second := run (snd first) in
  fst first = Ok (Completed true)
  /\ fst second = Ok (Completed true)
  /\ default ∅ (w_dir (snd first)) !! txt "example1-console.md" =
     Some (lines ["```console"; "GET /"; "```"; ""; "1."; ""])
  /\ default ∅ (w_dir (snd second)) !! txt "example1-console.md" =
     Some (lines ["```console"; "GET /"; "```"; ""]).
Proof. cbv zeta. split_and!; evaluate. Qed.

(** C4, at the language list [js] and a document with the JavaScript tab
    that the tool writes for js: has_language_tabs looks for the label Js and
    finds no tab, and the run goes on: it nests the existing tab-set one
    level deeper, replaces the console block and overwrites example1-js.md. *)
Theorem javascript_tab_is_not_recognised :
  let run := process_file sample_converter (txt "doc") (Some [txt "js"]) false js_world in
  has_language_tabs js_doc (Some [txt "js"]) = None
  /\ fst run = Ok (Completed true)
  /\ w_doc (snd run) =
     lines [ ":::::{tab-set}"; "::::{tab-item} JavaScript"; ":sync: js"; "";
             ":::{include} _snippets/doc/example1-js.md"; "::::"; ""; ":::::"; "";
             "::::{tab-set}"; ":group: api-examples"; "";
             ":::{tab-item} Console"; ":sync: console"; "";
             ":::{include} _snippets/doc/example1-console.md"; ":::"; "";
             ":::{tab-item} JavaScript"; ":sync: js"; "";
             ":::{include} _snippets/doc/example1-js.md"; ":::"; ""; "::::" ]
  /\ default ∅ (w_dir (snd run)) !! txt "example1-js.md" =
     Some (lines ["```js"; "# JavaScript complete"; "GET /new"; "```"; ""]).
Proof. cbv zeta. split_and!; evaluate. Qed.

(** The same document is recognised when the language is asked for as
    javascript or when python is, with a Python tab in the document. *)
Lemma other_tabs_are_recognised :
  has_language_tabs
    (lines [":::{tab-item} Python"; ":sync: python"; ""]) (Some [txt "python"])
    = Some (txt "python")
  /\ has_language_tabs
       (lines [":::{tab-item} JavaScript"; ":sync: javascript"; ""]) (Some [txt "javascript"])
     = Some (txt "javascript")
  /\ has_language_tabs
       (lines [":::{tab-item} ES|QL"; ":sync: esql"; ""]) (Some [txt "python"])
     = Some (txt "esql").
Proof. cbv zeta. split_and!; evaluate. Qed.




(** C7, the counterexample: for the requested language Python the tab of
    a snippet-mode tab-set has the key python, not the identifier as
    requested; the tab of an inline tab-set has the key Python. *)
Lemma snippet_mode_keys_are_lower_case :
  fst (create_snippets_and_tabs sample_converter (txt "doc") 1 (txt "GET /") []
         (Some [txt "Python"]) true Console empty_dir_world)
    = Ok (lines [ "::::{tab-set}"; ":group: api-examples"; "";
                  ":::{tab-item} Console"; ":sync: console"; "";
                  ":::{include} _snippets/doc/example1-console.md"; ":::"; "";
                  ":::{tab-item} Python"; ":sync: python"; "";
                  ":::{include} _snippets/doc/example1-Python.md"; ":::"; "";
                  "::::" ], ∅)
  /\ wrap_in_tabs sample_converter (txt "GET /") [] (Some [txt "Python"]) true Console
    = Ok (lines [ "::::{tab-set}"; ":group: api-examples"; "";
                  ":::{tab-item} Console"; ":sync: console";
                  "```console"; "GET /"; "```"; ":::"; "";
                  ":::{tab-item} Python"; ":sync: Python";
                  "```Python"; "# Python complete"; "GET /"; "```"; ":::"; "";
                  "::::" ], ∅).
Proof. split; evaluate. Qed.

(** C7 at a console block and the language curl in snippet mode: the run
    returns a tab-set, and it is the Console tab followed by the curl tab. *)
Lemma tab_sets_list_their_tabs_in_order_witness :
  exists tabs errs,
    fst (create_snippets_and_tabs sample_converter (txt "doc") 1 (txt "GET /") []
           (Some [txt "curl"]) true Console empty_dir_world) = Ok (tabs, errs)
    /\ tabs = tabset_open ++
              flat_map render_tab (snippet_tabs (txt "doc") 1 Console [txt "curl"]) ++
              txt "::::".
Proof.
  assert (exists tabs errs,
            fst (create_snippets_and_tabs sample_converter (txt "doc") 1 (txt "GET /") []
                   (Some [txt "curl"]) true Console empty_dir_world) = Ok (tabs, errs))
    as (tabs & errs & Hrun) by (eexists _, _; evaluate).
  exists tabs, errs. split; [exact Hrun|].
  apply (proj1 (tab_sets_list_their_tabs_in_order
                  sample_converter (txt "doc") 1 (txt "GET /") [] (Some [txt "curl"]) true Console)
               empty_dir_world tabs errs
               (snd (create_snippets_and_tabs sample_converter (txt "doc") 1 (txt "GET /") []
                       (Some [txt "curl"]) true Console empty_dir_world))).
  exact (returned_pair _ _ Hrun).
Defined.



(** C10, the counterexample: in [nested_doc] each kind has one extracted
    block, yet with one replacement for each the esql replacement is not used
    and the esql block is not replaced, because the esql pass works on the
    text that the console pass returns; and a console replacement that holds
    an esql block makes the esql pass run out of replacements. *)
Lemma esql_pass_works_on_the_replaced_text :
  extract_code_blocks nested_doc Console = [(txt "POST /_query", [])]
  /\ extract_code_blocks nested_doc ESQL = [(txt "FROM x", [])]
  /\ replace_blocks nested_doc [txt "<C>"] [txt "<E>"] = Ok (lines ["<C>esql"; "FROM x"; "```"])
  /\ extract_code_blocks (lines ["```console"; "GET /"; "```"]) ESQL = []
  /\ replace_blocks (lines ["```console"; "GET /"; "```"])
                    [lines ["```esql"; "FROM x"; "```"]] []
     = Raise StopIteration.
Proof. split_and!; evaluate. Qed.

(** C10 at [two_block_doc] with one replacement for its console block and
    one for its esql block. *)
Lemma replace_blocks_follows_extraction_witness :
  length [txt "<C>"] = length (extract_code_blocks two_block_doc Console)
  /\ replace_blocks two_block_doc [txt "<C>"] [txt "<E>"]
     = Ok (lines ["intro"; "<C>"; "between"; "<E>"; "end"]).
Proof.
  assert (length [txt "<C>"] = length (extract_code_blocks two_block_doc Console))
    as Hconsole by evaluate.
  split; [exact Hconsole|].
  destruct (replace_blocks_follows_extraction two_block_doc [txt "<C>"] [txt "<E>"] Hconsole)
    as (_ & _ & _ & _ & Hrun); [evaluate|].
  rewrite Hrun. evaluate.
Defined.


(** The entries of convert_console for the languages cobol and curl. *)
Lemma convert_console_gives_every_language_its_entries_witness :
  exists results errors : gmap str str,
    convert_console sample_converter (txt "GET /") (LangMany [txt "cobol"; txt "curl"]) true
      = Ok (results, errors)
    /\ (results !! txt "cobol" = Some (txt "GET /")
        /\ errors !! txt "cobol" = Some (txt "Unsupported language: cobol"))
    /\ (results !! txt "curl" = Some (lines ["# curl complete"; "GET /"])
        /\ errors !! txt "curl" = None).
Proof.
  destruct (convert_console_ok sample_converter (txt "GET /") true
              (LangMany [txt "cobol"; txt "curl"]) eq_refl) as (results & errors & Hrun).
  exists results, errors. split; [exact Hrun|]. split.
  - exact (convert_console_gives_every_language_its_entries sample_converter (txt "GET /")
             (LangMany [txt "cobol"; txt "curl"]) true results errors (txt "cobol") Hrun
             (or_introl eq_refl)).
  - exact (convert_console_gives_every_language_its_entries sample_converter (txt "GET /")
             (LangMany [txt "cobol"; txt "curl"]) true results errors (txt "curl") Hrun
             (or_intror (or_introl eq_refl))).
Defined.

(** A converter that fails with two blanks on its standard error, asked
    for curl. *)
Lemma failure_with_blank_stderr_is_not_reported_witness :
  exists results errors : gmap str str,
    convert_console silent_failing_converter (txt "GET /") (LangOne (txt "curl")) true
      = Ok (results, errors)
    /\ results !! txt "curl" = Some (txt "GET /") /\ errors !! txt "curl" = None.
Proof.
  destruct (convert_console_ok silent_failing_converter (txt "GET /") true
              (LangOne (txt "curl")) eq_refl) as (results & errors & Hrun).
  exists results, errors. split; [exact Hrun|].
  exact (failure_with_blank_stderr_is_not_reported silent_failing_converter (txt "GET /")
           (LangOne (txt "curl")) true results errors (txt "curl") (txt "curl") (txt "  ")
           Hrun (or_introl eq_refl) eq_refl eq_refl eq_refl).
Defined.

(** A converter that is not installed, asked for python. *)
Lemma missing_converter_passes_the_console_text_through_witness :
  exists results errors : gmap str str,
    convert_console absent_converter (txt "GET /") (LangOne (txt "python")) false
      = Ok (results, errors)
    /\ results !! txt "python" = Some (txt "GET /")
    /\ errors !! txt "python" =
       Some (txt "es-request-converter not found (install: npm install -g @elastic/request-converter)").
Proof.
  destruct (convert_console_ok absent_converter (txt "GET /") false
              (LangOne (txt "python")) eq_refl) as (results & errors & Hrun).
  exists results, errors. split; [exact Hrun|].
  exact (missing_converter_passes_the_console_text_through absent_converter (txt "GET /")
           (LangOne (txt "python")) false results errors (txt "python") (txt "Python")
           Hrun (or_introl eq_refl) eq_refl eq_refl).
Defined.

(** Python code that does not name the endpoint. *)
Lemma formatters_keep_code_without_the_endpoint_witness :
  format_python (txt "resp = client.info()") = txt "resp = client.info()"
  /\ format_ruby (txt "resp = client.info()") = txt "resp = client.info()"
  /\ format_javascript (txt "resp = client.info()") = txt "resp = client.info()"
  /\ format_php (txt "resp = client.info()") = txt "resp = client.info()".
Proof.
  apply (formatters_keep_code_without_the_endpoint (txt "resp = client.info()")).
  vm_compute. reflexivity.
Defined.

(** A curl command without a quote and without a flag. *)
Lemma format_curl_keeps_code_without_quotes_and_flags_witness :
  format_curl (txt "curl http://localhost:9200/_search") =
  txt "curl http://localhost:9200/_search".
Proof.
  apply (format_curl_keeps_code_without_quotes_and_flags
           (txt "curl http://localhost:9200/_search")).
  - vm_compute. reflexivity.
  - vm_compute. reflexivity.
Defined.

(** A request without a marker and without a comment. *)
Lemma strip_annotations_keeps_plain_code_witness :
  strip_annotations (lines ["GET /_search"; "{ }"]) = lines ["GET /_search"; "{ }"].
Proof.
  apply (strip_annotations_keeps_plain_code (lines ["GET /_search"; "{ }"])).
  - vm_compute. reflexivity.
  - vm_compute. reflexivity.
Defined.

(** A document without a fence, with replacements that find no place. *)
Lemma text_without_fences_has_no_blocks_witness :
  extract_code_blocks plain_doc Console = []
  /\ extract_code_blocks plain_doc ESQL = []
  /\ replace_blocks plain_doc [txt "a tab-set"] [] = Ok plain_doc.
Proof.
  apply (text_without_fences_has_no_blocks plain_doc [txt "a tab-set"] []).
  vm_compute. reflexivity.
Defined.

(** A snippet file that holds the bare query. *)
Lemma snippet_without_fence_parses_to_nothing_witness :
  parse_snippet_file (txt "FROM x") = ([], []).
Proof.
  apply (snippet_without_fence_parses_to_nothing (txt "FROM x")).
  vm_compute. reflexivity.
Defined.

(** Create mode on a document without a fence and without a snippet
    directory. *)
Lemma create_mode_without_fences_changes_nothing_witness :
  process_file sample_converter (txt "doc") (Some [txt "curl"]) false plain_world
  = (Ok NoBlocksFound, plain_world).
Proof.
  apply (create_mode_without_fences_changes_nothing
           sample_converter (txt "doc") (Some [txt "curl"]) plain_world).
  - vm_compute. reflexivity.
  - vm_compute. reflexivity.
Defined.


(** Create mode on the document with a console block and an esql block,
    without a snippet directory. *)
Lemma create_mode_writes_snippets_then_the_document_witness :
  fst create_run = Ok (Completed true)
  /\ w_log (snd create_run) =
     [ MadeDir;
       WroteSnippet (txt "example1-console.md"); WroteSnippet (txt "example1-curl.md");
       WroteSnippet (txt "example2-esql.md"); WroteSnippet (txt "example2-console.md");
       WroteSnippet (txt "example2-curl.md");
       WroteDoc ].
Proof.
  assert (fst create_run = Ok (Completed true)) as Hrun by evaluate.
  split; [exact Hrun|].
  pose proof (create_mode_writes_snippets_then_the_document
                sample_converter (txt "doc") (Some [txt "curl"]) create_world (snd create_run)
                true (returned_pair _ _ Hrun)) as Hfacts.
  cbv zeta in Hfacts. destruct Hfacts as (Hlog & _ & _).
  rewrite Hlog. evaluate.
Defined.

(** The console snippet of a request with one annotation. *)
Lemma snippet_files_are_read_back_witness :
  parse_snippet_file (snippet_content (kind_name Console) (txt "GET /a <1>") (txt "1. one"))
  = (txt "GET /a <1>", txt "1. one").
Proof.
  apply (snippet_files_are_read_back Console (txt "GET /a <1>") (txt "1. one")).
  - vm_compute. reflexivity.
  - right. exists (txt "1", txt " one"), []. split_and!; vm_compute; reflexivity.
Defined.

(** The regeneration of a directory whose console snippet has no number. *)
Lemma regenerate_without_numbered_snippets_removes_all_witness :
  fst unnumbered_run = Ok (Completed true)
  /\ exists d',
       w_dir (snd unnumbered_run) = Some d'
       /\ d' !! txt "example-console.md" = None
       /\ d' !! txt "example1-curl.md" = None
       /\ is_Some (d' !! txt "notes.md").
Proof.
  assert (fst unnumbered_run = Ok (Completed true)) as Hrun by evaluate.
  split; [exact Hrun|].
  assert (has_console_snippets (Some unnumbered_dir) = true) as Hhas by evaluate.
  assert (get_console_snippets unnumbered_dir = []) as Hnone by evaluate.
  destruct (regenerate_without_numbered_snippets_removes_all
              sample_converter (txt "doc") (Some [txt "curl"]) unnumbered_world
              (snd unnumbered_run) (Completed true) unnumbered_dir eq_refl Hhas Hnone
              (returned_pair _ _ Hrun))
    as (_ & d' & Hd' & Hnames).
  exists d'. split; [exact Hd'|].
  assert (forall name, glob_match (txt "example") (txt ".md") name = true ->
                       d' !! name = None) as Hgone.
  { intros name Hglob. destruct (d' !! name) as [content|] eqn:Hname; [|reflexivity].
    exfalso. assert (is_Some (d' !! name)) as Hsome by (rewrite Hname; eauto).
    apply Hnames in Hsome as [_ Hno]. congruence. }
  split_and!.
  - apply Hgone. evaluate.
  - apply Hgone. evaluate.
  - apply Hnames. split; [|evaluate].
    apply (bool_decide_unpack _). vm_compute. exact I.
Defined.

(** The directive of the curl snippet of example 3 between a heading and a
    closing line, renumbered to example 2. *)
Lemma renumber_includes_rewrites_the_directive_witness :
  renumber_includes (txt "doc") 3 2
    (lines ["# Title"; ""] ++
     build_include_directive (txt "_snippets") (txt "doc") 3 (txt "curl") ++
     lines [""; "::::"])
  = Ok (lines ["# Title"; ""] ++
        build_include_directive (txt "_snippets") (txt "doc") 2 (txt "curl") ++
        lines [""; "::::"]).
Proof.
  apply (renumber_includes_rewrites_the_directive
           (txt "doc") 3 2 (txt "curl") (lines ["# Title"; ""]) (lines [""; "::::"])).
  - vm_compute. reflexivity.
  - discriminate.
  - vm_compute. reflexivity.
  - vm_compute. reflexivity.
  - vm_compute. reflexivity.
Defined.

(** A document with a heading and a list, asked for the default languages. *)
Lemma document_without_braces_has_no_language_tabs_witness :
  has_language_tabs plain_doc None = None.
Proof.
  apply (document_without_braces_has_no_language_tabs plain_doc None).
  vm_compute. reflexivity.
Defined.
